(** * sauceDemo: page objects and helpers of the end-to-end suite

    A shallow embedding of the TypeScript sources:
    - [src/utils/helpers.ts]            (module [Helpers])
    - [src/pages/common/BasePage.ts]    (module [BasePage])
    - [src/pages/LoginPage.ts], [CheckoutStepOnePage.ts], [InventoryPage.ts],
      [CartPage.ts], [CheckoutStepTwoPage.ts], [ProductDetailPage.ts]
    - [src/data/products.ts]            (module [Products])

    JavaScript strings are [string]s of code units below 256, JavaScript
    numbers are IEEE 754 binary64 values ([spec_float] at precision 53),
    and the browser-automation engine is an interface ([Engine]) whose calls
    either return or throw. *)

From Stdlib Require Import ZArith QArith Qabs Qround List String Ascii Bool Lia.
From Stdlib Require Import SpecFloat.
From Stdlib Require DecimalString DecimalFacts DecimalPos DecimalN.
Import ListNotations.

Set Warnings "-register-all".

Local Open Scope string_scope.

(** ** JavaScript strings *)

Module JsString.

(** WhiteSpace and LineTerminator code units below 256: TAB, LF, VT, FF,
    CR, SP and NBSP. *)
Definition isWhiteSpace (c : ascii) : bool :=
  let n := nat_of_ascii c in
  ((9 <=? n) && (n <=? 13) || (n =? 32) || (n =? 160))%nat.

Definition isEmpty (s : string) : bool :=
  match s with EmptyString => true | String _ _ => false end.

(** [String.prototype.trimStart]. *)
Fixpoint trimStart (s : string) : string :=
  match s with
  | EmptyString => EmptyString
  | String c r => if isWhiteSpace c then trimStart r else s
  end.

(** [String.prototype.trimEnd]. *)
Fixpoint trimEnd (s : string) : string :=
  match s with
  | EmptyString => EmptyString
  | String c r =>
      let r' := trimEnd r in
      if isWhiteSpace c && isEmpty r' then EmptyString else String c r'
  end.

(** [String.prototype.trim]. *)
Definition trim (s : string) : string := trimEnd (trimStart s).

(** [stripPrefix p s] is [Some r] when [s = p ++ r]. *)
Fixpoint stripPrefix (p s : string) : option string :=
  match p with
  | EmptyString => Some s
  | String a p' =>
      match s with
      | EmptyString => None
      | String b s' => if Ascii.eqb a b then stripPrefix p' s' else None
      end
  end.

(** [s.replace(pat, '')] with a string pattern: the first occurrence of
    [pat] in [s] (scanning from the left) is removed, later ones stay. *)
Fixpoint replaceFirst (pat s : string) : string :=
  match stripPrefix pat s with
  | Some r => r
  | None =>
      match s with
      | EmptyString => EmptyString
      | String c r => String c (replaceFirst pat r)
      end
  end.

(** The double-quote character (code 34) and a quoted copy of a string,
    for template literals that put a name between quotes. *)
Definition dquote : string := String (ascii_of_nat 34) EmptyString.
Definition quoted (s : string) : string := dquote ++ s ++ dquote.

(** [String.prototype.toLowerCase] on code units below 256: the Latin
    capital letters A-Z and those of the upper half (192 to 222, the
    multiplication sign 215 apart) move up by 32; nothing else has
    another lower case form. *)
Definition lowerChar (c : ascii) : ascii :=
  let n := nat_of_ascii c in
  if ((65 <=? n) && (n <=? 90)
      || (192 <=? n) && (n <=? 222) && negb (n =? 215))%nat
  then ascii_of_nat (n + 32)
  else c.

Fixpoint toLowerCase (s : string) : string :=
  match s with
  | EmptyString => EmptyString
  | String c r => String (lowerChar c) (toLowerCase r)
  end.

(** [a < b] and [a > b] on strings: the order of the code units, a
    proper prefix coming first. *)
Definition lt (a b : string) : bool := String.ltb a b.
Definition gt (a b : string) : bool := String.ltb b a.

(** [s.charAt(pos)]: the character at the position, the empty string
    when there is none. *)
Definition charAt (s : string) (pos : option Z) : string :=
  match pos with
  | Some i =>
      if (0 <=? i)%Z
      then match String.get (Z.to_nat i) s with
           | Some c => String c EmptyString
           | None => EmptyString
           end
      else EmptyString
  | None => EmptyString
  end.

(** [Array.prototype.includes] on an array of strings. *)
Definition includes (arr : list string) (x : string) : bool :=
  existsb (String.eqb x) arr.

(** The classes of the regular expressions of [toSlug]: [\w], the
    hyphen, and [\s], which is the white space of [trim]. *)
Definition isWordChar (c : ascii) : bool :=
  let n := nat_of_ascii c in
  ((48 <=? n) && (n <=? 57) || (65 <=? n) && (n <=? 90)
   || (97 <=? n) && (n <=? 122) || (n =? 95))%nat.

Definition isHyphen (c : ascii) : bool := Ascii.eqb c "-".

(** [s.replace(/[...]/g, '')] for a class of single characters: every
    character of the class is removed. *)
Fixpoint removeAll (class : ascii -> bool) (s : string) : string :=
  match s with
  | EmptyString => EmptyString
  | String c r => if class c then removeAll class r else String c (removeAll class r)
  end.

(** [s.replace(/[...]+/g, '-')]: every maximal run of characters of the
    class becomes one hyphen; [inRun] tells that the character before
    was of the class. *)
Fixpoint collapseRuns (class : ascii -> bool) (inRun : bool) (s : string) : string :=
  match s with
  | EmptyString => EmptyString
  | String c r =>
      if class c
      then if inRun then collapseRuns class true r
           else String "-" (collapseRuns class true r)
      else String c (collapseRuns class false r)
  end.

(** [s.replace(/^-+|-+$/g, '')]: the run of hyphens at the start and
    the run of hyphens at the end are removed. *)
Fixpoint stripStart (class : ascii -> bool) (s : string) : string :=
  match s with
  | EmptyString => EmptyString
  | String c r => if class c then stripStart class r else s
  end.

Fixpoint stripEnd (class : ascii -> bool) (s : string) : string :=
  match s with
  | EmptyString => EmptyString
  | String c r =>
      let r' := stripEnd class r in
      if class c && isEmpty r' then EmptyString else String c r'
  end.

End JsString.

(** ** JavaScript numbers *)

Module JsNumber.

Definition prec : Z := 53.
Definition emax : Z := 1024.

(** A Number value. *)
Definition number : Type := spec_float.

Definition NaN : number := S754_nan.
Definition zero : number := S754_zero false.

Definition add : number -> number -> number := SFadd prec emax.
Definition sub : number -> number -> number := SFsub prec emax.
Definition abs : number -> number := SFabs.
(** [a < b], [a <= b], [a > b] and [a >= b]. *)
Definition lt (a b : number) : bool := SFltb a b.
Definition le (a b : number) : bool := SFleb a b.
Definition gt (a b : number) : bool := SFltb b a.
Definition ge (a b : number) : bool := SFleb b a.

Definition isNaN (a : number) : bool :=
  match a with S754_nan => true | _ => false end.

(** *** The Number value for a mathematical value

    [ofRatio s n d] is the binary64 value nearest to [n / d] (ties to
    the even significand), with sign [s]: the significand is the rounded
    quotient at the exponent [fexp] of the magnitude of [n / d]. *)

(** [pow2 k] is [2 ^ k] for [0 <= k] and [1] below: the integer factor
    that a scaling by [2 ^ k] puts on one side of a fraction. *)
Definition pow2 (k : Z) : Z := (2 ^ Z.max 0 k)%Z.

(** [mag n d] is the integer [g] with [2 ^ (g - 1) <= n / d < 2 ^ g]. *)
Definition mag (n d : positive) : Z :=
  let g0 := (Z.log2 (Zpos n) - Z.log2 (Zpos d))%Z in
  if (Zpos d * pow2 g0 <=? Zpos n * pow2 (- g0))%Z then (g0 + 1)%Z else g0.

(** Round half to even of [a / b], for [0 <= a] and [0 < b]. *)
Definition roundHalfEven (a b : Z) : Z :=
  let q := (a / b)%Z in
  match (2 * (a mod b) ?= b)%Z with
  | Lt => q
  | Gt => (q + 1)%Z
  | Eq => if Z.even q then q else (q + 1)%Z
  end.

Definition ofRatio (s : bool) (n d : positive) : number :=
  let e := fexp prec emax (mag n d) in
  let m := roundHalfEven (Zpos n * pow2 (- e)) (Zpos d * pow2 e) in
  let '(m, e) := if (m =? 2 ^ prec)%Z then (2 ^ (prec - 1), e + 1)%Z else (m, e) in
  match m with
  | Zpos p => if (e <=? emax - prec)%Z then S754_finite s p e else S754_infinity s
  | _ => S754_zero s
  end.

(** The Number value for [m * 10 ^ e], with sign [s]; a zero keeps the
    sign. *)
Definition ofDecimal (s : bool) (m : N) (e : Z) : number :=
  match m with
  | N0 => S754_zero s
  | Npos p =>
      match e with
      | Z0 => ofRatio s p 1
      | Zpos k => ofRatio s (p * Pos.pow 10 k) 1
      | Zneg k => ofRatio s p (Pos.pow 10 k)
      end
  end.

(** The mathematical value of a finite Number, as a fraction
    [(numerator, denominator)] whose denominator is a power of two. *)
Definition toFraction (x : number) : Z * positive :=
  match x with
  | S754_finite s m e =>
      let v := match e with
               | Zneg k => (Zpos m, Pos.pow 2 k)
               | Z0 => (Zpos m, 1%positive)
               | Zpos k => (Zpos (m * Pos.pow 2 k), 1%positive)
               end in
      (if s then (- fst v)%Z else fst v, snd v)
  | _ => (0%Z, 1%positive)
  end.

Definition isFinite (x : number) : bool :=
  match x with
  | S754_zero _ | S754_finite _ _ _ => true
  | _ => false
  end.

(** *** Decimal digits of integers *)

(** The decimal digits of a natural number, most significant first;
    [0] prints as one digit. *)
Definition printN (n : N) : string := DecimalString.NilEmpty.string_of_uint (N.to_uint n).

(** *** Reading numbers: [parseFloat] and [parseInt] *)

Definition digitValue (c : ascii) : option N :=
  let n := N_of_ascii c in
  if ((48 <=? n) && (n <=? 57))%N then Some (n - 48)%N else None.

(** The longest run of decimal digits at the head of [s]: its value
    (continuing [acc]), its length, and the rest of the string. *)
Fixpoint scanDigits (s : string) (acc : N) : N * nat * string :=
  match s with
  | EmptyString => (acc, O, s)
  | String c r =>
      match digitValue c with
      | Some d => let '(v, k, rest) := scanDigits r (acc * 10 + d)%N in (v, S k, rest)
      | None => (acc, O, s)
      end
  end.

(** An optional sign at the head of [s]: [true] for a minus. *)
Definition scanSign (s : string) : bool * string :=
  match s with
  | String "-" r => (true, r)
  | String "+" r => (false, r)
  | _ => (false, s)
  end.

(** The value of an ExponentPart at the head of [s], or [0] when the
    text there is not a complete ExponentPart. *)
Definition scanExponent (s : string) : Z :=
  match s with
  | String c r =>
      if (Ascii.eqb c "e" || Ascii.eqb c "E")%bool then
        let '(neg, r1) := scanSign r in
        let '(v, k, _) := scanDigits r1 0 in
        match k with
        | O => 0%Z
        | S _ => if neg then (- Z.of_N v)%Z else Z.of_N v
        end
      else 0%Z
  | EmptyString => 0%Z
  end.

(** What the head of a string reads as: nothing, an infinity, or a
    decimal literal of value [m * 10 ^ e] with a sign. *)
Variant Literal :=
  | LitNone
  | LitInfinity (neg : bool)
  | LitDecimal (neg : bool) (m : N) (e : Z).

(** The longest prefix of [s], after leading white space, that is a
    StrDecimalLiteral. *)
Definition scanLiteral (s : string) : Literal :=
  let '(neg, t) := scanSign (JsString.trimStart s) in
  match JsString.stripPrefix "Infinity" t with
  | Some _ => LitInfinity neg
  | None =>
      let '(iv, ic, r1) := scanDigits t 0 in
      let '(mv, fc, r2) :=
        match r1 with
        | String "." r => scanDigits r iv
        | _ => (iv, O, r1)
        end in
      match ic, fc with
      | O, O => LitNone
      | _, _ => LitDecimal neg mv (scanExponent r2 - Z.of_nat fc)
      end
  end.

(** The global [parseFloat]: the Number value of the literal at the
    head of the string, [NaN] when there is none.  The mathematical
    value is rounded to the nearest Number whatever the count of its
    digits. *)
Definition parseFloat (s : string) : number :=
  match scanLiteral s with
  | LitNone => NaN
  | LitInfinity neg => S754_infinity neg
  | LitDecimal neg m e => ofDecimal neg m e
  end.

(** The global [parseInt] called with radix 10: leading white space is
    skipped, an optional sign and the longest run of decimal digits are
    read; [NaN] when there is no digit. *)
Definition parseInt10 (s : string) : number :=
  let '(neg, t) := scanSign (JsString.trimStart s) in
  let '(v, k, _) := scanDigits t 0 in
  match k with
  | O => NaN
  | S _ => ofDecimal neg v 0
  end.

(** *** Writing numbers: [toFixed(2)] *)

Definition digitChar (d : N) : ascii := ascii_of_N (48 + d).

(** The first character of a digit string apart from the others. *)
Definition pointAfterFirst (digits : string) : string :=
  match digits with
  | String c EmptyString => digits
  | String c r => String c ("." ++ r)
  | EmptyString => EmptyString
  end.

(** Number::toString for a finite [x] whose value is the integer
    [X >= 10 ^ 21]: the digits of the shortest [s] that, written in
    exponential notation, is read back as [x].  The candidates with [k]
    digits are the two neighbours of [X] at that precision; the nearer to
    [X] is preferred, then the even one.  [X] itself, with all its
    digits, is the last candidate. *)
Section ToStringLarge.
Variable x : number.
Variable X : N.

Definition nDigits : nat := String.length (printN X).

(** [s] in exponential notation with the exponent [e], and the Number
    that this text denotes: [s] has its point after the first digit. *)
Definition exponential (s : N) (e : nat) : string :=
  pointAfterFirst (printN s) ++ "e+" ++ printN (N.of_nat e).

Definition exponentialValue (s : N) (e : nat) : number :=
  ofDecimal false s (Z.of_N (N.of_nat e) - Z.of_nat (String.length (printN s) - 1)).

Definition readsBack (s : N) (e : nat) : bool :=
  match SFcompare (exponentialValue s e) x with
  | Some Eq => true
  | _ => false
  end.

Fixpoint shortest (todo k : nat) : string :=
  match todo with
  | O => exponential X (nDigits - 1)
  | S todo' =>
      let p := (10 ^ N.of_nat (nDigits - k))%N in
      let lo := (X / p)%N in
      let hi := (lo + 1)%N in
      let okLo := readsBack lo (nDigits - 1) in
      let okHi := ((hi <? 10 ^ N.of_nat k)%N && readsBack hi (nDigits - 1))%bool in
      let nearLo := (X - lo * p)%N in
      let nearHi := (hi * p - X)%N in
      if (okLo && okHi)%bool then
        if (nearLo <? nearHi)%N then exponential lo (nDigits - 1)
        else if (nearHi <? nearLo)%N then exponential hi (nDigits - 1)
        else exponential (if N.even lo then lo else hi) (nDigits - 1)
      else if okLo then exponential lo (nDigits - 1)
      else if okHi then exponential hi (nDigits - 1)
      else shortest todo' (S k)
  end.

Definition toStringLarge : string :=
  if readsBack 1 nDigits then exponential 1 nDigits
  else shortest (nDigits - 1) 1.
End ToStringLarge.

(** [Number.prototype.toFixed] called with 2.  For a finite [x] below
    [10 ^ 21] in magnitude, [n] is the integer nearest to [100 * x]
    (the larger one of two), printed with a point before its last two
    digits. *)
Definition toFixed2 (x : number) : string :=
  match x with
  | S754_nan => "NaN"
  | S754_infinity s => if s then "-Infinity" else "Infinity"
  | S754_zero _ => "0.00"
  | S754_finite s _ _ =>
      let '(num, den) := toFraction (abs x) in
      let sign := if s then "-" else EmptyString in
      if (10 ^ 21 * Zpos den <=? num)%Z
      then sign ++ toStringLarge (abs x) (Z.to_N num)
      else
        let n := Z.to_N ((200 * num + Zpos den) / (2 * Zpos den)) in
        sign ++ printN (n / 100) ++ "."
             ++ String (digitChar ((n mod 100) / 10)) (String (digitChar (n mod 10)) EmptyString)
  end.

(** *** Multiplication, division and [===] *)

Definition mul : number -> number -> number := SFmul prec emax.
Definition div : number -> number -> number := SFdiv prec emax.

(** [a === b] on Numbers: false with a NaN, true for the two zeros. *)
Definition strictEquals (a b : number) : bool := SFeqb a b.

(** [- a]. *)
Definition negate : number -> number := SFopp.

(** [Math.floor(x)] for a finite [x], as an integer; and the position
    that [Math.floor(x)] is as an argument of [charAt]: NaN counts as
    0, and an infinity is no position ([None]). *)
Definition floor (x : number) : Z :=
  let '(num, den) := toFraction x in (num / Zpos den)%Z.

Definition floorPosition (x : number) : option Z :=
  match x with
  | S754_nan => Some 0%Z
  | S754_infinity _ => None
  | _ => Some (floor x)
  end.

(** *** Counting: [1], [Number.isInteger] and Numbers of lengths *)

Definition one : number := ofDecimal false 1 0.

(** [x] is finite and its value is an integer, which [floor x] then is. *)
Definition isInteger (x : number) : bool :=
  match x with
  | S754_zero _ => true
  | S754_finite _ _ _ => let '(num, den) := toFraction x in (num mod Zpos den =? 0)%Z
  | _ => false
  end.

(** The Number for a count of elements. *)
Definition ofNat (n : nat) : number := ofDecimal false (N.of_nat n) 0.

(** *** Writing numbers: Number::toString

    What a template literal or a string concatenation makes of a
    Number. *)

(** The value of a finite [x] without its sign, as a decimal:
    [(X, j)] with [|x| = X / 10 ^ j]. *)
Definition toDecimal (x : number) : N * nat :=
  match x with
  | S754_finite _ m (Zneg k) => (Npos (m * Pos.pow 5 k), Pos.to_nat k)
  | S754_finite _ m (Zpos k) => (Npos (m * Pos.pow 2 k), O)
  | S754_finite _ m Z0 => (Npos m, O)
  | _ => (0%N, O)
  end.

(** The Number for [s * 10 ^ (n - k)], [k] the count of digits of [s],
    and whether it is [x]. *)
Definition decimalValue (s : N) (n : Z) : number :=
  ofDecimal false s (n - Z.of_nat (String.length (printN s))).

Definition reads (x : number) (s : N) (n : Z) : bool :=
  match SFcompare (decimalValue s n) x with
  | Some Eq => true
  | _ => false
  end.

(** The shortest [s] that reads as [x], for [x] of the value
    [X / 10 ^ j] where [X] has [width] digits: at each count [k] of
    digits the candidates are the two neighbours of the value at that
    precision; the nearer to the value is preferred, then the even one.
    [X] itself, with all its digits, is the last candidate. *)
Fixpoint shortestDigits (x : number) (X : N) (width : nat) (n : Z) (todo k : nat) : N :=
  match todo with
  | O => X
  | S todo' =>
      let p := (10 ^ N.of_nat (width - k))%N in
      let lo := (X / p)%N in
      let hi := (lo + 1)%N in
      let okLo := reads x lo n in
      let okHi := ((hi <? 10 ^ N.of_nat k)%N && reads x hi n)%bool in
      let nearLo := (X - lo * p)%N in
      let nearHi := (hi * p - X)%N in
      if (okLo && okHi)%bool then
        if (nearLo <? nearHi)%N then lo
        else if (nearHi <? nearLo)%N then hi
        else if N.even lo then lo else hi
      else if okLo then lo
      else if okHi then hi
      else shortestDigits x X width n todo' (S k)
  end.

(** The integers [s] and [n] of Number::toString for a finite [x]
    above zero: [s] has the fewest digits, [k] of them, for which
    [s * 10 ^ (n - k)] reads as [x]. *)
Definition digitsOf (x : number) : N * Z :=
  let '(X, j) := toDecimal x in
  let width := String.length (printN X) in
  let n := (Z.of_nat width - Z.of_nat j)%Z in
  if reads x 1 (n + 1) then (1%N, (n + 1)%Z)
  else (shortestDigits x X width n (width - 1) 1, n).

Fixpoint zeros (n : nat) : string :=
  match n with
  | O => EmptyString
  | S n' => String "0" (zeros n')
  end.

(** The digits of [s] laid out for the exponent [n]: plain for
    [-6 < n <= 21], in exponential notation otherwise. *)
Definition layout (s : N) (n : Z) : string :=
  let digits := printN s in
  let k := Z.of_nat (String.length digits) in
  if ((-5 <=? n) && (n <=? 21))%Z then
    if (k <=? n)%Z then digits ++ zeros (Z.to_nat (n - k))
    else if (0 <? n)%Z then
      substring 0 (Z.to_nat n) digits ++ "." ++ substring (Z.to_nat n) (Z.to_nat (k - n)) digits
    else "0." ++ zeros (Z.to_nat (- n)) ++ digits
  else
    let e := (n - 1)%Z in
    pointAfterFirst digits ++ "e" ++ (if (e <? 0)%Z then "-" else "+")
      ++ printN (Z.to_N (Z.abs e)).

Definition toString (x : number) : string :=
  match x with
  | S754_nan => "NaN"
  | S754_zero _ => "0"
  | S754_infinity s => if s then "-Infinity" else "Infinity"
  | S754_finite s _ _ =>
      let '(d, n) := digitsOf (abs x) in
      (if s then "-" else EmptyString) ++ layout d n
  end.

End JsNumber.

(** ** Arrays read at a Number *)

Module JsArray.

(** [arr.length]. *)
Definition length {A} (arr : list A) : JsNumber.number :=
  JsNumber.ofNat (List.length arr).

(** [arr[index]]: the element at the place [index] when [index] is an
    integer from 0 on and the array reaches that far, and [undefined],
    here [None], for every other Number: an array has no property of
    such a name. *)
Definition get {A} (arr : list A) (index : JsNumber.number) : option A :=
  if (JsNumber.isInteger index && (0 <=? JsNumber.floor index)%Z)%bool
  then nth_error arr (Z.to_nat (JsNumber.floor index))
  else None.

End JsArray.

(** ** Asynchronous code over a world

    An [async] method is run to settlement: from a world it either
    fulfils with a value or rejects with an exception, and leaves a world
    behind. *)

(** A value that is no [Error] object: anything can be thrown, and an
    awaited promise can reject with anything. *)
Variant Value :=
  | Undefined
  | Null
  | Boolean (b : bool)
  | Number (x : JsNumber.number)
  | Text (s : string)
  | BigInt (z : Z)
  | Object (description : string).    (* any other object, or a symbol *)

Variant Exception :=
  | Error (message : string)          (* [new Error(message)] *)
  | TypeError (message : string)      (* raised by the language itself *)
  | EngineError (message : string)    (* an error raised by the engine *)
  | Thrown (v : Value).               (* [throw v] for such a value *)

(** ToBoolean, as [||] applies it: an object is truthy; [undefined],
    [null], [false], the zeros, [NaN], [0n] and the empty string are
    not. *)
Definition toBoolean (v : Value) : bool :=
  match v with
  | Undefined | Null => false
  | Boolean b => b
  | Number x =>
      match x with
      | S754_zero _ | S754_nan => false
      | _ => true
      end
  | Text s => negb (JsString.isEmpty s)
  | BigInt z => negb (z =? 0)%Z
  | Object _ => true
  end.

Definition truthy (e : Exception) : bool :=
  match e with
  | Thrown v => toBoolean v
  | _ => true
  end.

Variant Result (A : Type) :=
  | Ok (value : A)
  | Throw (e : Exception).
Arguments Ok {A} value.
Arguments Throw {A} e.

Definition Async (W A : Type) : Type := W -> Result A * W.

Definition ret {W A} (a : A) : Async W A := fun w => (Ok a, w).

Definition throw {W A} (e : Exception) : Async W A := fun w => (Throw e, w).

Definition bind {W A B} (c : Async W A) (k : A -> Async W B) : Async W B :=
  fun w =>
    match c w with
    | (Ok a, w') => k a w'
    | (Throw e, w') => (Throw e, w')
    end.

(** [try { c } catch { h }]. *)
Definition tryCatch {W A} (c : Async W A) (h : Exception -> Async W A) : Async W A :=
  fun w =>
    match c w with
    | (Ok a, w') => (Ok a, w')
    | (Throw e, w') => h e w'
    end.

(** A query of the engine: it reads the world and leaves it as it is. *)
Definition query {W A} (q : W -> Result A) : Async W A := fun w => (q w, w).

Declare Scope async_scope.
Delimit Scope async_scope with async.
Notation "x <- c ;; k" := (bind c (fun x => k))
  (at level 61, c at next level, right associativity) : async_scope.
Notation "c ;;; k" := (bind c (fun _ => k))
  (at level 61, right associativity) : async_scope.
Local Open Scope async_scope.

(** [for (const item of items) { body }] where the body may [return v]:
    the body yields [Some v] then, and [None] to go on with the next
    item.  The loop yields [None] when it runs to its end. *)
Fixpoint forOf {W I A} (body : I -> Async W (option A)) (items : list I)
  : Async W (option A) :=
  match items with
  | [] => ret None
  | item :: rest =>
      r <- body item ;;
      match r with
      | Some v => ret (Some v)
      | None => forOf body rest
      end
  end.

(** ** src/utils/helpers.ts *)

Module Helpers.

Definition characters : string :=
  "ABCDEFGHIJKLMNOPQRSTUVWXYZabcdefghijklmnopqrstuvwxyz0123456789".

(** The loop of [generateRandomString] with [steps] iterations still to
    run, [i] draws made and [result] built so far.  [Math.random()] is
    a sequence of draws from outside: [draws i] is the Number that the
    call number [i] answers. *)
Fixpoint generateRandomStringLoop (draws : nat -> JsNumber.number)
  (steps i : nat) (result : string) : string :=
  match steps with
  | O => result
  | S steps' =>
      generateRandomStringLoop draws steps' (S i)
        (result ++ JsString.charAt characters
                     (JsNumber.floorPosition
                        (JsNumber.mul (draws i)
                           (JsNumber.ofDecimal false (N.of_nat (String.length characters)) 0))))
  end.

(** [length] is an integer; below 1 the loop does not run. *)
Definition generateRandomString (draws : nat -> JsNumber.number) (length : Z) : string :=
  generateRandomStringLoop draws (Z.to_nat length) 0 EmptyString.

Definition generateRandomEmail (draws : nat -> JsNumber.number) (domain : string) : string :=
  let randomString := JsString.toLowerCase (generateRandomString draws 10) in
  randomString ++ "@" ++ domain.

Definition parsePriceToNumber (priceString : string) : JsNumber.number :=
  JsNumber.parseFloat (JsString.trim (JsString.replaceFirst "$" priceString)).

Definition formatCurrency (amount : JsNumber.number) : string :=
  "$" ++ JsNumber.toFixed2 amount.

(** The loop [for (let i = 0; i < arr.length - 1; i++)] of the two
    sortedness checks, with [steps] iterations still to run from [i];
    [bad a b] is the test that makes the check return [false]. *)
Fixpoint adjacentLoop (bad : JsNumber.number -> JsNumber.number -> bool)
  (arr : list JsNumber.number) (steps i : nat) : bool :=
  match steps with
  | O => true
  | S steps' =>
      if bad (nth i arr JsNumber.NaN) (nth (i + 1) arr JsNumber.NaN)
      then false
      else adjacentLoop bad arr steps' (S i)
  end.

Definition isSortedAscending (arr : list JsNumber.number) : bool :=
  adjacentLoop JsNumber.gt arr (List.length arr - 1) 0.

Definition isSortedDescending (arr : list JsNumber.number) : bool :=
  adjacentLoop JsNumber.lt arr (List.length arr - 1) 0.

Section Retry.
Context {W T : Type}.
(** [fn] is any asynchronous function; [sleep ms] is the world after
    the timer of [sleep(ms)] has fired (the promise never rejects);
    [maxAttempts] and [delay] are Numbers. *)
Variable fn : Async W T.
Variable sleep : JsNumber.number -> W -> W.
Variables maxAttempts delay : JsNumber.number.

(** The [for] loop of [retry] from a value of [attempt], followed by
    the final [throw]; [attempt] is a Number, and [attempt++] adds 1
    to it.  [lastError] holds whatever the last call has thrown, and
    [undefined] before.  The loop is cut off after [fuel] calls of
    [fn]: [None] when the fuel runs out first. *)
Fixpoint retryFrom (fuel : nat) (attempt : JsNumber.number) (lastError : Exception)
  (w : W) : option (Result T * W) :=
  if JsNumber.le attempt maxAttempts then
    match fuel with
    | O => None
    | S fuel' =>
        match fn w with
        | (Ok v, w1) => Some (Ok v, w1)
        | (Throw error, w1) =>
            retryFrom fuel' (JsNumber.add attempt JsNumber.one) error
              (if JsNumber.lt attempt maxAttempts then sleep delay w1 else w1)
        end
    end
  else Some (Throw (if truthy lastError then lastError else Error "Retry failed"), w).

Definition retry (fuel : nat) (w : W) : option (Result T * W) :=
  retryFrom fuel JsNumber.one (Thrown Undefined) w.
End Retry.

(** The values that [maxAttempts] and [delay] take when a call leaves
    them out. *)
Definition defaultMaxAttempts : JsNumber.number := JsNumber.ofDecimal false 3 0.
Definition defaultDelay : JsNumber.number := JsNumber.ofDecimal false 1000 0.

(** The loop of the two alphabetical checks, as [adjacentLoop] is the
    loop of the numeric ones: both neighbours are put in lower case
    before [bad] compares them.  The indices stay inside the array. *)
Fixpoint alphabeticalLoop (bad : string -> string -> bool)
  (arr : list string) (steps i : nat) : bool :=
  match steps with
  | O => true
  | S steps' =>
      if bad (JsString.toLowerCase (nth i arr EmptyString))
             (JsString.toLowerCase (nth (i + 1) arr EmptyString))
      then false
      else alphabeticalLoop bad arr steps' (S i)
  end.

Definition isSortedAlphabetically (arr : list string) : bool :=
  alphabeticalLoop JsString.gt arr (List.length arr - 1) 0.

Definition isSortedReverseAlphabetically (arr : list string) : bool :=
  alphabeticalLoop JsString.lt arr (List.length arr - 1) 0.

(** The literal [100]. *)
Definition hundred : JsNumber.number := JsNumber.ofDecimal false 100 0.

Definition calculatePercentage (value total : JsNumber.number) : JsNumber.number :=
  if JsNumber.strictEquals total JsNumber.zero then JsNumber.zero
  else JsNumber.mul (JsNumber.div value total) hundred.

Definition toSlug (str : string) : string :=
  let lower := JsString.trim (JsString.toLowerCase str) in
  let kept := JsString.removeAll
                (fun c => negb (JsString.isWordChar c || JsString.isWhiteSpace c
                                || JsString.isHyphen c))
                lower in
  let joined := JsString.collapseRuns
                  (fun c => JsString.isWhiteSpace c || Ascii.eqb c "_"
                            || JsString.isHyphen c)
                  false kept in
  JsString.stripEnd JsString.isHyphen (JsString.stripStart JsString.isHyphen joined).

End Helpers.

(** ** The browser-automation engine

    The engine is outside the repository; the page objects use it through
    locators.  Every call may throw. *)

Module Playwright.

Inductive Locator :=
  | PageLocator (selector : string)                      (* [page.locator(selector)] *)
  | SubLocator (parent : Locator) (selector : string)    (* [parent.locator(selector)] *)
  | NthLocator (parent : Locator) (index : nat).         (* an entry of [parent.all()] *)

(** The calls the page objects make.  The reads answer from the world
    and leave it as it is; a click and a wait change it. *)
Record Engine (W : Type) := {
  textContent : Locator -> W -> Result (option string);
  isVisible : Locator -> W -> Result bool;
  isEnabled : Locator -> W -> Result bool;
  isDisabled : Locator -> W -> Result bool;
  isChecked : Locator -> W -> Result bool;
  count : Locator -> W -> Result nat;
  all : Locator -> W -> Result (list Locator);
  click : Locator -> Async W unit;
  waitForTimeout : Z -> Async W unit
}.
Arguments textContent {W}.
Arguments isVisible {W}.
Arguments isEnabled {W}.
Arguments isDisabled {W}.
Arguments isChecked {W}.
Arguments count {W}.
Arguments all {W}.
Arguments click {W}.
Arguments waitForTimeout {W}.

End Playwright.
Export Playwright (Locator, PageLocator, SubLocator, NthLocator, Engine).

(** [text?.trim() || ''] and [text?.trim() || '0']: the trimmed text, or
    the default when the text is null or trims to the empty string. *)
Definition trimOr (default : string) (text : option string) : string :=
  match text with
  | Some t => if JsString.isEmpty (JsString.trim t) then default else JsString.trim t
  | None => default
  end.

(** [name?.trim() === productName]. *)
Definition trimmedEquals (name : option string) (productName : string) : bool :=
  match name with
  | Some t => String.eqb (JsString.trim t) productName
  | None => false
  end.

(** ** src/pages/common/BasePage.ts *)

Module BasePage.
Section WithEngine.
Context {W : Type} (E : Engine W).

Definition clickElement (selector : string) : Async W unit :=
  Playwright.click E (PageLocator selector).

Definition getText (selector : string) : Async W string :=
  text <- query (Playwright.textContent E (PageLocator selector)) ;;
  ret (trimOr EmptyString text).

Definition getElementCount (selector : string) : Async W nat :=
  query (Playwright.count E (PageLocator selector)).

Definition waitForTimeout (ms : Z) : Async W unit :=
  Playwright.waitForTimeout E ms.

Definition isElementVisible (selector : string) : Async W bool :=
  tryCatch (query (Playwright.isVisible E (PageLocator selector))) (fun _ => ret false).

Definition isElementEnabled (selector : string) : Async W bool :=
  tryCatch (query (Playwright.isEnabled E (PageLocator selector))) (fun _ => ret false).

Definition isElementDisabled (selector : string) : Async W bool :=
  tryCatch (query (Playwright.isDisabled E (PageLocator selector))) (fun _ => ret false).

Definition isElementChecked (selector : string) : Async W bool :=
  tryCatch (query (Playwright.isChecked E (PageLocator selector))) (fun _ => ret false).

Definition isElementPresent (selector : string) : Async W bool :=
  n <- query (Playwright.count E (PageLocator selector)) ;;
  ret (0 <? n)%nat.

(** The loop of [getAllText] over the elements still to read, [texts]
    being the array filled so far. *)
Fixpoint getAllTextLoop (elements : list Locator) (texts : list string)
  : Async W (list string) :=
  match elements with
  | [] => ret texts
  | element :: rest =>
      text <- query (Playwright.textContent E element) ;;
      getAllTextLoop rest (texts ++ [trimOr EmptyString text])
  end.

Definition getAllText (selector : string) : Async W (list string) :=
  elements <- query (Playwright.all E (PageLocator selector)) ;;
  getAllTextLoop elements [].

End WithEngine.
End BasePage.

(** ** src/pages/LoginPage.ts *)

Module LoginPage.
Section WithEngine.
Context {W : Type} (E : Engine W).

Definition errorMessage : string := "[data-test=" ++ JsString.quoted "error" ++ "]".

Definition getErrorMessage : Async W string :=
  visible <- BasePage.isElementVisible E errorMessage ;;
  if visible : bool then BasePage.getText E errorMessage else ret EmptyString.

Definition errorButton : string := ".error-button".

Definition closeErrorMessage : Async W unit :=
  visible <- BasePage.isElementVisible E errorButton ;;
  if visible : bool then BasePage.clickElement E errorButton else ret tt.

End WithEngine.
End LoginPage.

(** ** src/pages/CheckoutStepOnePage.ts *)

Module CheckoutStepOnePage.
Section WithEngine.
Context {W : Type} (E : Engine W).

Definition errorMessage : string := "[data-test=" ++ JsString.quoted "error" ++ "]".

Definition getErrorMessage : Async W string :=
  visible <- BasePage.isElementVisible E errorMessage ;;
  if visible : bool then BasePage.getText E errorMessage else ret EmptyString.

Definition errorButton : string := ".error-button".

Definition closeErrorMessage : Async W unit :=
  visible <- BasePage.isElementVisible E errorButton ;;
  if visible : bool then BasePage.clickElement E errorButton else ret tt.

End WithEngine.
End CheckoutStepOnePage.

(** ** src/pages/InventoryPage.ts *)

Module InventoryPage.
Section WithEngine.
Context {W : Type} (E : Engine W).

Definition productItems : string := ".inventory_item".
Definition productName : string := ".inventory_item_name".
Definition cartBadge : string := ".shopping_cart_badge".
Definition addToCartButton : string := "button[id^=" ++ JsString.quoted "add-to-cart" ++ "]".
Definition removeButton : string := "button[id^=" ++ JsString.quoted "remove" ++ "]".

Definition addProductToCartByName (name : string) : Async W unit :=
  products <- query (Playwright.all E (PageLocator productItems)) ;;
  done <- forOf (fun product =>
                   title <- query (Playwright.textContent E (SubLocator product productName)) ;;
                   if trimmedEquals title name
                   then Playwright.click E (SubLocator product addToCartButton) ;;; ret (Some tt)
                   else ret None)
                products ;;
  match done with
  | Some _ => ret tt
  | None => throw (Error ("Product " ++ JsString.quoted name ++ " not found"))
  end.

Definition removeProductFromCartByName (name : string) : Async W unit :=
  products <- query (Playwright.all E (PageLocator productItems)) ;;
  done <- forOf (fun product =>
                   title <- query (Playwright.textContent E (SubLocator product productName)) ;;
                   if trimmedEquals title name
                   then Playwright.click E (SubLocator product removeButton) ;;; ret (Some tt)
                   else ret None)
                products ;;
  match done with
  | Some _ => ret tt
  | None => throw (Error ("Product " ++ JsString.quoted name ++ " not found for removal"))
  end.

Definition getCartItemCount : Async W JsNumber.number :=
  visible <- BasePage.isElementVisible E cartBadge ;;
  if visible : bool
  then badgeText <- BasePage.getText E cartBadge ;; ret (JsNumber.parseInt10 badgeText)
  else ret JsNumber.zero.

Definition getProductNames : Async W (list string) :=
  BasePage.getAllText E productName.

(** As [CartPage.removeItemByIndex]. *)
Definition addProductToCartByIndex (index : JsNumber.number) : Async W unit :=
  products <- query (Playwright.all E (PageLocator productItems)) ;;
  if (JsNumber.ge index JsNumber.zero && JsNumber.lt index (JsArray.length products))%bool
  then match JsArray.get products index with
       | Some product => Playwright.click E (SubLocator product addToCartButton)
       | None => throw (TypeError "Cannot read properties of undefined (reading 'locator')")
       end
  else throw (Error ("Product index " ++ JsNumber.toString index ++ " is out of range")).

Definition clickProductByName (name : string) : Async W unit :=
  products <- query (Playwright.all E (PageLocator productItems)) ;;
  done <- forOf (fun product =>
                   title <- query (Playwright.textContent E (SubLocator product productName)) ;;
                   if trimmedEquals title name
                   then Playwright.click E (SubLocator product productName) ;;; ret (Some tt)
                   else ret None)
                products ;;
  match done with
  | Some _ => ret tt
  | None => throw (Error ("Product " ++ JsString.quoted name ++ " not found to click"))
  end.

Definition clickProductImageByName (name : string) : Async W unit :=
  products <- query (Playwright.all E (PageLocator productItems)) ;;
  done <- forOf (fun product =>
                   title <- query (Playwright.textContent E (SubLocator product productName)) ;;
                   if trimmedEquals title name
                   then Playwright.click E (SubLocator product "img") ;;; ret (Some tt)
                   else ret None)
                products ;;
  match done with
  | Some _ => ret tt
  | None => throw (Error ("Product image for " ++ JsString.quoted name ++ " not found"))
  end.

Definition isProductDisplayed (name : string) : Async W bool :=
  names <- getProductNames ;;
  ret (JsString.includes names name).

End WithEngine.
End InventoryPage.

(** ** src/pages/CartPage.ts *)

Module CartPage.
Section WithEngine.
Context {W : Type} (E : Engine W).

Definition cartItems : string := ".cart_item".
Definition cartItemName : string := ".inventory_item_name".
Definition cartQuantity : string := ".cart_quantity".
Definition removeButton : string := "button[id^=" ++ JsString.quoted "remove" ++ "]".

Definition getCartItemCount : Async W nat :=
  BasePage.getElementCount E cartItems.

Definition removeItemByName (name : string) : Async W unit :=
  items <- query (Playwright.all E (PageLocator cartItems)) ;;
  done <- forOf (fun item =>
                   title <- query (Playwright.textContent E (SubLocator item cartItemName)) ;;
                   if trimmedEquals title name
                   then Playwright.click E (SubLocator item removeButton) ;;; ret (Some tt)
                   else ret None)
                items ;;
  match done with
  | Some _ => ret tt
  | None => throw (Error ("Product " ++ JsString.quoted name ++ " not found in cart for removal"))
  end.

(** [index] is any Number.  Inside the range [items[index]] is the
    entry at that place when [index] is an integer; for any other
    Number it is [undefined], and the call of [locator] on it raises a
    TypeError. *)
Definition removeItemByIndex (index : JsNumber.number) : Async W unit :=
  items <- query (Playwright.all E (PageLocator cartItems)) ;;
  if (JsNumber.ge index JsNumber.zero && JsNumber.lt index (JsArray.length items))%bool
  then match JsArray.get items index with
       | Some item => Playwright.click E (SubLocator item removeButton)
       | None => throw (TypeError "Cannot read properties of undefined (reading 'locator')")
       end
  else throw (Error ("Cart item index " ++ JsNumber.toString index ++ " is out of range")).

(** The [while (itemCount > 0)] loop of [removeAllItems], cut off after
    [fuel] iterations: [None] when the fuel runs out first. *)
Fixpoint removeAllItemsLoop (fuel : nat) (itemCount : nat) (w : W)
  : option (Result unit * W) :=
  if (0 <? itemCount)%nat then
    match fuel with
    | O => None
    | S fuel' =>
        match (removeItemByIndex JsNumber.zero ;;;
               BasePage.waitForTimeout E 300 ;;;
               getCartItemCount) w with
        | (Ok itemCount', w') => removeAllItemsLoop fuel' itemCount' w'
        | (Throw e, w') => Some (Throw e, w')
        end
    end
  else Some (Ok tt, w).

Definition removeAllItems (fuel : nat) (w : W) : option (Result unit * W) :=
  match getCartItemCount w with
  | (Ok itemCount, w') => removeAllItemsLoop fuel itemCount w'
  | (Throw e, w') => Some (Throw e, w')
  end.

Definition getItemQuantity (name : string) : Async W JsNumber.number :=
  items <- query (Playwright.all E (PageLocator cartItems)) ;;
  found <- forOf (fun item =>
                    title <- query (Playwright.textContent E (SubLocator item cartItemName)) ;;
                    if trimmedEquals title name
                    then quantityText <- query (Playwright.textContent E (SubLocator item cartQuantity)) ;;
                         ret (Some (JsNumber.parseInt10 (trimOr "0" quantityText)))
                    else ret None)
                 items ;;
  match found with
  | Some quantity => ret quantity
  | None => ret JsNumber.zero
  end.

Definition getCartItemNames : Async W (list string) :=
  BasePage.getAllText E cartItemName.

Definition isCartEmpty : Async W bool :=
  n <- getCartItemCount ;;
  ret (n =? 0)%nat.

Definition isProductInCart (name : string) : Async W bool :=
  itemNames <- getCartItemNames ;;
  ret (JsString.includes itemNames name).

End WithEngine.
End CartPage.

(** ** src/pages/CheckoutStepTwoPage.ts *)

Module CheckoutStepTwoPage.
Section WithEngine.
Context {W : Type} (E : Engine W).

Definition itemTotal : string := ".summary_subtotal_label".
Definition tax : string := ".summary_tax_label".
Definition total : string := ".summary_total_label".

Definition getItemTotal : Async W string :=
  text <- BasePage.getText E itemTotal ;;
  ret (JsString.trim (JsString.replaceFirst "Item total: " text)).

Definition getTax : Async W string :=
  text <- BasePage.getText E tax ;;
  ret (JsString.trim (JsString.replaceFirst "Tax: " text)).

Definition getTotal : Async W string :=
  text <- BasePage.getText E total ;;
  ret (JsString.trim (JsString.replaceFirst "Total: " text)).

Definition getItemTotalAsNumber : Async W JsNumber.number :=
  totalString <- getItemTotal ;;
  ret (JsNumber.parseFloat (JsString.replaceFirst "$" totalString)).

Definition getTaxAsNumber : Async W JsNumber.number :=
  taxString <- getTax ;;
  ret (JsNumber.parseFloat (JsString.replaceFirst "$" taxString)).

Definition getTotalAsNumber : Async W JsNumber.number :=
  totalString <- getTotal ;;
  ret (JsNumber.parseFloat (JsString.replaceFirst "$" totalString)).

(** The literal [0.01]. *)
Definition tolerance : JsNumber.number := JsNumber.ofDecimal false 1 (-2).

Definition verifyTotalCalculation : Async W bool :=
  itemTotal <- getItemTotalAsNumber ;;
  tax <- getTaxAsNumber ;;
  total <- getTotalAsNumber ;;
  let expectedTotal := JsNumber.add itemTotal tax in
  ret (JsNumber.lt (JsNumber.abs (JsNumber.sub total expectedTotal)) tolerance).

Definition cartItemName : string := ".inventory_item_name".

Definition getCartItemNames : Async W (list string) :=
  BasePage.getAllText E cartItemName.

Definition isProductInOrder (name : string) : Async W bool :=
  itemNames <- getCartItemNames ;;
  ret (JsString.includes itemNames name).

End WithEngine.
End CheckoutStepTwoPage.

(** ** src/pages/ProductDetailPage.ts *)

Module ProductDetailPage.
Section WithEngine.
Context {W : Type} (E : Engine W).

Definition productPrice : string := ".inventory_details_price".
Definition cartBadge : string := ".shopping_cart_badge".

Definition getProductPrice : Async W string :=
  BasePage.getText E productPrice.

Definition getProductPriceAsNumber : Async W JsNumber.number :=
  priceString <- getProductPrice ;;
  ret (JsNumber.parseFloat (JsString.replaceFirst "$" priceString)).

Definition getCartItemCount : Async W JsNumber.number :=
  visible <- BasePage.isElementVisible E cartBadge ;;
  if visible : bool
  then badgeText <- BasePage.getText E cartBadge ;; ret (JsNumber.parseInt10 badgeText)
  else ret JsNumber.zero.

End WithEngine.
End ProductDetailPage.

(** ** src/data/products.ts *)

Module Products.

(** The fields of the entries of [products]; none of them has the
    optional [id]. *)
Record Product := {
  name : string;
  price : JsNumber.number;
  description : string;
  imagePath : string
}.

Definition backpack : Product := {|
  name := "Sauce Labs Backpack";
  price := JsNumber.ofDecimal false 2999 (-2);
  description := "carry.allTheThings() with the sleek, streamlined Sly Pack that melds uncompromising style with unequaled laptop and tablet protection.";
  imagePath := "/static/media/sauce-backpack-1200x1500.0a0b85a3.jpg" |}.

Definition bikeLight : Product := {|
  name := "Sauce Labs Bike Light";
  price := JsNumber.ofDecimal false 999 (-2);
  description := "A red light isn't the desired state in testing but it sure helps when riding your bike at night. Water-resistant with 3 lighting modes, 1 AAA battery included.";
  imagePath := "/static/media/bike-light-1200x1500.37c843b0.jpg" |}.

Definition boltTShirt : Product := {|
  name := "Sauce Labs Bolt T-Shirt";
  price := JsNumber.ofDecimal false 1599 (-2);
  description := "Get your testing superhero on with the Sauce Labs bolt T-shirt. From American Apparel, 100% ringspun combed cotton, heather gray with red bolt.";
  imagePath := "/static/media/bolt-shirt-1200x1500.c2599ac5.jpg" |}.

Definition fleeceJacket : Product := {|
  name := "Sauce Labs Fleece Jacket";
  price := JsNumber.ofDecimal false 4999 (-2);
  description := "It's not every day that you come across a midweight quarter-zip fleece jacket capable of handling everything from a relaxing day outdoors to a busy day at the office.";
  imagePath := "/static/media/sauce-pullover-1200x1500.51d7ffaf.jpg" |}.

Definition onesie : Product := {|
  name := "Sauce Labs Onesie";
  price := JsNumber.ofDecimal false 799 (-2);
  description := "Rib snap infant onesie for the junior automation engineer in development. Reinforced 3-snap bottom closure, two-needle hemmed sleeved and bottom won't unravel.";
  imagePath := "/static/media/red-onesie-1200x1500.2ec615b2.jpg" |}.

Definition tShirtRed : Product := {|
  name := "Test.allTheThings() T-Shirt (Red)";
  price := JsNumber.ofDecimal false 1599 (-2);
  description := "This classic Sauce Labs t-shirt is perfect to wear when cozying up to your keyboard to automate a few tests. Super-soft and comfy ringspun combed cotton.";
  imagePath := "/static/media/red-tatt-1200x1500.30dadef4.jpg" |}.

(** [Object.values(products)]: the entries in the order of the literal. *)
Definition allProducts : list Product :=
  [backpack; bikeLight; boltTShirt; fleeceJacket; onesie; tShirtRed].

(** [allProducts.find(p => p.name === name)]; [None] is [undefined]. *)
Definition getProductByName (n : string) : option Product :=
  find (fun p => String.eqb (name p) n) allProducts.

Definition getCheapestProduct : Product := onesie.

Definition getMostExpensiveProduct : Product := fleeceJacket.

End Products.

(** ** A reference engine over page snapshots

    Concrete page states, to run the page objects on.  A page is a
    snapshot of the elements each selector matches; a locator has to
    match exactly one element for a read or a click (none is a timeout,
    several a strictness violation), [isVisible] answers [false] for no
    element, and every call throws once the page is closed.  What a click
    does to the page is the application's business: [react]. *)

Module Dom.

Inductive Node :=
  | mkNode (text : option string) (visible enabled checked : bool)
           (sub : list (string * list Node)).

Definition nodeText (n : Node) := let '(mkNode t _ _ _ _) := n in t.
Definition nodeVisible (n : Node) := let '(mkNode _ v _ _ _) := n in v.
Definition nodeEnabled (n : Node) := let '(mkNode _ _ e _ _) := n in e.
Definition nodeChecked (n : Node) := let '(mkNode _ _ _ c _) := n in c.
Definition nodeSub (n : Node) := let '(mkNode _ _ _ _ s) := n in s.

Record Page := {
  closed : bool;
  roots : list (string * list Node);
  clicks : list Locator;
  elapsed : Z
}.

Fixpoint lookup (selector : string) (l : list (string * list Node)) : list Node :=
  match l with
  | [] => []
  | (k, ns) :: rest => if String.eqb k selector then ns else lookup selector rest
  end.

Fixpoint resolve (p : Page) (l : Locator) : list Node :=
  match l with
  | PageLocator selector => lookup selector (roots p)
  | SubLocator parent selector =>
      flat_map (fun n => lookup selector (nodeSub n)) (resolve p parent)
  | NthLocator parent index =>
      match nth_error (resolve p parent) index with
      | Some n => [n]
      | None => []
      end
  end.

Definition pageClosed : Exception :=
  EngineError "Target page, context or browser has been closed".

Definition open {A} (p : Page) (r : Result A) : Result A :=
  if closed p then Throw pageClosed else r.

Definition one (ns : list Node) : Result Node :=
  match ns with
  | [] => Throw (EngineError "Timeout exceeded")
  | [n] => Ok n
  | _ => Throw (EngineError "strict mode violation")
  end.

Definition read {A} (f : Node -> A) (l : Locator) (p : Page) : Result A :=
  open p match one (resolve p l) with
         | Ok n => Ok (f n)
         | Throw e => Throw e
         end.

Definition engine (react : Locator -> Page -> Page) : Engine Page := {|
  Playwright.textContent := read nodeText;
  Playwright.isVisible := fun l p =>
    open p match resolve p l with
           | [] => Ok false
           | ns => match one ns with Ok n => Ok (nodeVisible n) | Throw e => Throw e end
           end;
  Playwright.isEnabled := read nodeEnabled;
  Playwright.isDisabled := read (fun n => negb (nodeEnabled n));
  Playwright.isChecked := read nodeChecked;
  Playwright.count := fun l p => open p (Ok (List.length (resolve p l)));
  Playwright.all := fun l p =>
    open p (Ok (map (NthLocator l) (seq 0 (List.length (resolve p l)))));
  Playwright.click := fun l p =>
    match read (fun n => (nodeVisible n && nodeEnabled n)%bool) l p with
    | Ok true =>
        (Ok tt, react l {| closed := closed p; roots := roots p;
                           clicks := clicks p ++ [l]; elapsed := elapsed p |})
    | Ok false => (Throw (EngineError "Timeout exceeded"), p)
    | Throw e => (Throw e, p)
    end;
  Playwright.waitForTimeout := fun ms p =>
    if closed p then (Throw pageClosed, p)
    else (Ok tt, {| closed := false; roots := roots p;
                    clicks := clicks p; elapsed := (elapsed p + ms)%Z |})
|}.

(** An application that does not react to clicks. *)
Definition inert : Locator -> Page -> Page := fun _ p => p.

(** A visible, enabled element with a text and no descendants of note,
    and one with descendants. *)
Definition leaf (t : string) : Node := mkNode (Some t) true true false [].
Definition box (sub : list (string * list Node)) : Node :=
  mkNode (Some EmptyString) true true false sub.

Definition page (roots : list (string * list Node)) : Page :=
  {| closed := false; roots := roots; clicks := []; elapsed := 0 |}.

Definition closedPage (roots : list (string * list Node)) : Page :=
  {| closed := true; roots := roots; clicks := []; elapsed := 0 |}.

End Dom.

(** ** Vocabulary of the properties *)

(** What a state check makes of the answer of the engine. *)
Definition swallow (r : Result bool) : bool :=
  match r with
  | Ok b => b
  | Throw _ => false
  end.

(** In the world [w] the element under [selector], when the engine
    reports it visible, has a text content that can be read: the probe
    and the read look at the same page. *)
Definition VisibleHasText {W} (E : Engine W) (selector : string) (w : W) : Prop :=
  Playwright.isVisible E (PageLocator selector) w = Ok true ->
  exists t, Playwright.textContent E (PageLocator selector) w = Ok t.

(** The contract of an error banner accessor [get] for the banner under
    [selector]: the trimmed text when the banner is visible, the empty
    string when the probe answers anything else, and no rejection. *)
Definition ErrorBannerContract {W} (E : Engine W) (selector : string)
  (get : Async W string) (w : W) : Prop :=
  (forall t, Playwright.isVisible E (PageLocator selector) w = Ok true ->
             Playwright.textContent E (PageLocator selector) w = Ok t ->
             get w = (Ok (trimOr EmptyString t), w))
  /\ (Playwright.isVisible E (PageLocator selector) w <> Ok true ->
      get w = (Ok EmptyString, w))
  /\ (exists s, get w = (Ok s, w)).

(** In the world [w] the title of [item] (the text under [nameSelector]
    inside it) can be read and, trimmed, is exactly [name]; or can be
    read and is something else. *)
Definition TitleIs {W} (E : Engine W) (nameSelector name : string) (w : W)
  (item : Locator) : Prop :=
  exists t, Playwright.textContent E (SubLocator item nameSelector) w = Ok t
            /\ trimmedEquals t name = true.

Definition TitleIsNot {W} (E : Engine W) (nameSelector name : string) (w : W)
  (item : Locator) : Prop :=
  exists t, Playwright.textContent E (SubLocator item nameSelector) w = Ok t
            /\ trimmedEquals t name = false.

(** The outcome of an operation that ends with one click. *)
Definition afterClick {W} (E : Engine W) (button : Locator) : Async W unit :=
  Playwright.click E button ;;; ret tt.

(** The contract of a by-name operation [op] over the items under
    [itemsSelector]: with the first item titled [name] it clicks the
    button of that item; with no item titled [name] it rejects with the
    not-found error [notFound]; and it fulfils only after a click on the
    button of an item titled [name] has fulfilled. *)
Definition ByNameContract {W} (E : Engine W)
  (itemsSelector nameSelector buttonSelector : string) (notFound : string)
  (op : Async W unit) (name : string) (w : W) : Prop :=
  (forall before item after,
      Playwright.all E (PageLocator itemsSelector) w = Ok (before ++ item :: after)%list ->
      Forall (TitleIsNot E nameSelector name w) before ->
      TitleIs E nameSelector name w item ->
      op w = afterClick E (SubLocator item buttonSelector) w)
  /\ (forall items,
      Playwright.all E (PageLocator itemsSelector) w = Ok items ->
      Forall (TitleIsNot E nameSelector name w) items ->
      op w = (Throw (Error notFound), w))
  /\ (forall w',
      op w = (Ok tt, w') ->
      exists items item,
        Playwright.all E (PageLocator itemsSelector) w = Ok items
        /\ In item items
        /\ TitleIs E nameSelector name w item
        /\ Playwright.click E (SubLocator item buttonSelector) w = (Ok tt, w')).

(** The precondition of [removeAllItems], over the worlds [Reach] that a
    run can be in: from such a world in which the cart shows [n > 0]
    lines, [removeItemByIndex(0)] fulfils, the wait of 300 ms fulfils,
    and [getCartItemCount] then reports fewer lines, in a world of
    [Reach] again. *)
Definition RemovalDecreases {W} (E : Engine W) (Reach : W -> Prop) : Prop :=
  forall w n,
    Reach w ->
    CartPage.getCartItemCount E w = (Ok n, w) -> (0 < n)%nat ->
    exists w1 w2 m,
      CartPage.removeItemByIndex E JsNumber.zero w = (Ok tt, w1)
      /\ BasePage.waitForTimeout E 300 w1 = (Ok tt, w2)
      /\ CartPage.getCartItemCount E w2 = (Ok m, w2)
      /\ (m < n)%nat
      /\ Reach w2.

(** [Iterations E w k w'] : from [w], [k] rounds lead to [w'], each round
    being, in a world whose cart shows a positive count, one click on the
    remove button of the first listed line followed by one wait of
    300 ms. *)
Inductive Iterations {W} (E : Engine W) : W -> nat -> W -> Prop :=
  | Iterations_done w : Iterations E w 0 w
  | Iterations_round w n first others w1 w2 k w' :
      Playwright.count E (PageLocator CartPage.cartItems) w = Ok n ->
      (0 < n)%nat ->
      Playwright.all E (PageLocator CartPage.cartItems) w = Ok (first :: others) ->
      Playwright.click E (SubLocator first CartPage.removeButton) w = (Ok tt, w1) ->
      Playwright.waitForTimeout E 300 w1 = (Ok tt, w2) ->
      Iterations E w2 k w' ->
      Iterations E w (S k) w'.

(** What [retry] does to the outside, in order: calls of [fn] with their
    outcomes, and sleeps. *)
Variant RetryEvent (T : Type) :=
  | Called (outcome : Result T)
  | Slept (ms : JsNumber.number).
Arguments Called {T} outcome.
Arguments Slept {T} ms.

(** [fn] and [sleep] over worlds that keep the log of these events. *)
Definition loggedFn {W T} (fn : Async W T) : Async (W * list (RetryEvent T)) T :=
  fun '(w, log) => let '(r, w') := fn w in (r, (w', log ++ [Called r])%list).

Definition loggedSleep {W T} (sleep : JsNumber.number -> W -> W) (ms : JsNumber.number)
  : W * list (RetryEvent T) -> W * list (RetryEvent T) :=
  fun '(w, log) => (sleep ms w, log ++ [Slept ms])%list.

(** The log of a run of attempts with the given outcomes: one call per
    outcome, and one sleep of [delay] between two consecutive calls. *)
Fixpoint attemptsLog {T} (delay : JsNumber.number) (outcomes : list (Result T))
  : list (RetryEvent T) :=
  match outcomes with
  | [] => []
  | [r] => [Called r]
  | r :: rest => Called r :: Slept delay :: attemptsLog delay rest
  end.

(** What [retry] settles with when its last call of [fn] has settled
    with [last]: the same, but for a thrown value that is not truthy,
    in whose place the final [||] puts a new Error. *)
Definition retrySettles {T} (last : Result T) : Result T :=
  match last with
  | Ok v => Ok v
  | Throw e => Throw (if truthy e then e else Error "Retry failed")
  end.

(** The sleep that follows the last call of [fn] when that call has
    thrown and [maxAttempts] is not an integer. *)
Definition sleptLast {T} (maxAttempts delay : JsNumber.number) (last : Result T)
  : list (RetryEvent T) :=
  match last with
  | Throw _ => if JsNumber.isInteger maxAttempts then [] else [Slept delay]
  | Ok _ => []
  end.

(** The mathematical value of the decimal literal at the head of a
    string, as a rational number: what a reader of the page takes the
    text for. *)
Definition mathValue (s : string) : option Q :=
  match JsNumber.scanLiteral s with
  | JsNumber.LitDecimal neg m e =>
      let v := (inject_Z (Z.of_N m) * (10 # 1) ^ e)%Q in
      Some (if neg then (- v)%Q else v)
  | _ => None
  end.

(** The number a summary line stands for in the source: the first
    occurrence of the label is removed from the trimmed text, the rest is
    trimmed, the first dollar sign is removed, and [parseFloat] reads
    what is left. *)
Definition amountText (label : string) (text : option string) : string :=
  JsString.replaceFirst "$"
    (JsString.trim (JsString.replaceFirst label (trimOr EmptyString text))).

Definition amount (label : string) (text : option string) : JsNumber.number :=
  JsNumber.parseFloat (amountText label text).

(** The absolute difference between the total and the sum of item
    total and tax that three summary texts display, in exact rational
    arithmetic and in lowest terms. *)
Definition exactDifference (itemTotal tax total : string) : option Q :=
  match mathValue (amountText "Item total: " (Some itemTotal)),
        mathValue (amountText "Tax: " (Some tax)),
        mathValue (amountText "Total: " (Some total)) with
  | Some i, Some t, Some tot => Some (Qred (Qabs (tot - (i + t))))
  | _, _, _ => None
  end.

(** *** Vocabulary of the currency round trip *)

(** [x] rounded to two decimal places: the Number nearest to the multiple
    of 0.01 nearest to [x] (the larger of two). *)
Definition roundedToCents (x : JsNumber.number) : JsNumber.number :=
  let '(num, den) := JsNumber.toFraction x in
  JsNumber.ofDecimal false (Z.to_N (Qfloor (inject_Z 100 * (num # den) + (1 # 2)))) (-2).

(** The digits of a decimal numeral as a number, continuing [acc]. *)
Fixpoint uintValue (d : Decimal.uint) (acc : N) : N :=
  match d with
  | Decimal.Nil => acc
  | Decimal.D0 d => uintValue d (acc * 10 + 0)
  | Decimal.D1 d => uintValue d (acc * 10 + 1)
  | Decimal.D2 d => uintValue d (acc * 10 + 2)
  | Decimal.D3 d => uintValue d (acc * 10 + 3)
  | Decimal.D4 d => uintValue d (acc * 10 + 4)
  | Decimal.D5 d => uintValue d (acc * 10 + 5)
  | Decimal.D6 d => uintValue d (acc * 10 + 6)
  | Decimal.D7 d => uintValue d (acc * 10 + 7)
  | Decimal.D8 d => uintValue d (acc * 10 + 8)
  | Decimal.D9 d => uintValue d (acc * 10 + 9)
  end%N.

Definition startsWithDigit (s : string) : bool :=
  match s with
  | String c _ => match JsNumber.digitValue c with Some _ => true | None => false end
  | EmptyString => false
  end.

Definition isDigit (c : ascii) : bool :=
  match JsNumber.digitValue c with Some _ => true | None => false end.

Fixpoint digitsOnly (s : string) : bool :=
  match s with
  | EmptyString => true
  | String c r => isDigit c && digitsOnly r
  end.

(** [n / d < 2 ^ g] and [2 ^ g <= n / d], on integers. *)
Definition below (n d g : Z) : Prop :=
  (n * JsNumber.pow2 (- g) < d * JsNumber.pow2 g)%Z.
Definition atLeast (n d g : Z) : Prop :=
  (d * JsNumber.pow2 g <= n * JsNumber.pow2 (- g))%Z.

(** *** Vocabulary of the further properties *)

(** Every character of [s] is in the class [p]; [s] starts, or ends,
    with a character of the class; two characters of the class stand
    side by side in [s]. *)
Fixpoint allChars (p : ascii -> bool) (s : string) : bool :=
  match s with
  | EmptyString => true
  | String c r => p c && allChars p r
  end.

Definition headIs (p : ascii -> bool) (s : string) : bool :=
  match s with
  | EmptyString => false
  | String c _ => p c
  end.

Fixpoint lastIs (p : ascii -> bool) (s : string) : bool :=
  match s with
  | EmptyString => false
  | String c EmptyString => p c
  | String _ r => lastIs p r
  end.

Fixpoint doubled (p : ascii -> bool) (s : string) : bool :=
  match s with
  | EmptyString => false
  | String c r => p c && headIs p r || doubled p r
  end.

(** The characters of a slug: the digits and the letters a to z, and
    the hyphen between them. *)
Definition isSlugLetter (c : ascii) : bool :=
  let n := nat_of_ascii c in
  ((48 <=? n) && (n <=? 57) || (97 <=? n) && (n <=? 122))%nat.

Definition isSlugChar (c : ascii) : bool := isSlugLetter c || JsString.isHyphen c.

(** A slug: words of such letters joined by single hyphens. *)
Definition isSlug (s : string) : bool :=
  allChars isSlugChar s
  && negb (headIs JsString.isHyphen s)
  && negb (lastIs JsString.isHyphen s)
  && negb (doubled JsString.isHyphen s).

(** The two classes of [toSlug]: what its first replacement removes
    and what its second one joins. *)
Definition slugRemoved (c : ascii) : bool :=
  negb (JsString.isWordChar c || JsString.isWhiteSpace c || JsString.isHyphen c).

Definition slugSeparator (c : ascii) : bool :=
  JsString.isWhiteSpace c || Ascii.eqb c "_" || JsString.isHyphen c.

(** A character that [toLowerCase] leaves as it is, and one that the
    first replacement of [toSlug] keeps: a letter of a slug or a
    separator, never both. *)
Definition isLowered (c : ascii) : bool := Ascii.eqb (JsString.lowerChar c) c.

Definition isKept (c : ascii) : bool :=
  isSlugLetter c && negb (slugSeparator c) || negb (isSlugLetter c) && slugSeparator c.

(** [Readable E w elements texts]: in the world [w] every one of the
    elements can be read, [texts] being their text contents in order. *)
Definition Readable {W} (E : Engine W) (w : W) (elements : list Locator)
  (texts : list (option string)) : Prop :=
  Forall2 (fun element text => Playwright.textContent E element w = Ok text)
    elements texts.

(** The contract of a by-index operation [op] over the items under
    [itemsSelector], for any Number [index].  Outside the listed items
    (NaN, below zero, or from their number on) it rejects with the
    error [outOfRange] and leaves the page alone; at an integer inside
    it is the click on the button of the item at that place; at any
    other Number inside there is no such item, and it rejects with the
    TypeError of the call on [undefined].  An array holds fewer than
    [2 ^ 32] elements. *)
Definition ByIndexContract {W} (E : Engine W)
  (itemsSelector buttonSelector : string) (outOfRange : string)
  (op : Async W unit) (index : JsNumber.number) (w : W) : Prop :=
  forall items,
    Playwright.all E (PageLocator itemsSelector) w = Ok items ->
    ((JsNumber.isNaN index = true
      \/ JsNumber.lt index JsNumber.zero = true
      \/ JsNumber.le (JsArray.length items) index = true) ->
     op w = (Throw (Error outOfRange), w))
    /\ (valid_binary JsNumber.prec JsNumber.emax index = true ->
        (Z.of_nat (List.length items) < 2 ^ 32)%Z ->
        JsNumber.ge index JsNumber.zero = true ->
        JsNumber.lt index (JsArray.length items) = true ->
        JsNumber.isInteger index = true ->
        (0 <= JsNumber.floor index < Z.of_nat (List.length items))%Z
        /\ exists item,
             nth_error items (Z.to_nat (JsNumber.floor index)) = Some item
             /\ op w = Playwright.click E (SubLocator item buttonSelector) w)
    /\ (JsNumber.ge index JsNumber.zero = true ->
        JsNumber.lt index (JsArray.length items) = true ->
        JsNumber.isInteger index = false ->
        op w = (Throw (TypeError "Cannot read properties of undefined (reading 'locator')"),
                w)).

(** The fraction part of a literal, as [scanLiteral] reads it after the
    integer part [iv]. *)
Definition scanFraction (r1 : string) (iv : N) : N * nat * string :=
  match r1 with
  | String "." r => JsNumber.scanDigits r iv
  | _ => (iv, O, r1)
  end.

(** The text of an amount of [cents] hundredths as the shop displays
    it: a dollar sign, the dollars, a point and two digits. *)
Definition priceText (cents : N) : string :=
  "$" ++ JsNumber.printN (cents / 100) ++ "."
      ++ String (JsNumber.digitChar ((cents mod 100) / 10))
           (String (JsNumber.digitChar (cents mod 10)) EmptyString).

(** The fraction that a significand and an exponent stand for. *)
Definition fractionOf (m : positive) (e : Z) : positive * positive :=
  (Z.to_pos (Zpos m * JsNumber.pow2 e), Z.to_pos (JsNumber.pow2 (- e))).

(** What [Math.random()] may answer: a Number that is not negative and
    is below 1. *)
Definition isDraw (r : JsNumber.number) : Prop :=
  valid_binary JsNumber.prec JsNumber.emax r = true
  /\ JsNumber.le JsNumber.zero r = true
  /\ JsNumber.lt r (JsNumber.ofDecimal false 1 0) = true.

(** A character of the alphabet of [generateRandomString], and one of
    its lower case form. *)
Definition isAlphanumeric (c : ascii) : bool :=
  let n := nat_of_ascii c in
  ((48 <=? n) && (n <=? 57) || (65 <=? n) && (n <=? 90)
   || (97 <=? n) && (n <=? 122))%nat.

(** The largest product of a draw and 62: that of the Number before 1. *)
Definition largestDraw62 : JsNumber.number :=
  JsNumber.ofRatio false
    (fst (fractionOf (9007199254740991 * 8725724278030336) (-53 + -47)))
    (snd (fractionOf (9007199254740991 * 8725724278030336) (-53 + -47))).

(** ** Sample pages and inputs *)

Definition loginWithBanner : Dom.Page :=
  Dom.page [(LoginPage.errorMessage,
             [Dom.leaf "  Epic sadface: Username is required "])].

Definition inventoryWithBadge : Dom.Page :=
  Dom.page [(InventoryPage.cartBadge, [Dom.leaf " 2 "])].

Definition product (title : string) : Dom.Node :=
  Dom.box [(InventoryPage.productName, [Dom.leaf title]);
           (InventoryPage.addToCartButton, [Dom.leaf "Add to cart"])].

Definition inventoryOfTwo : Dom.Page :=
  Dom.page [(InventoryPage.productItems,
             [product "Sauce Labs Backpack"; product " Sauce Labs Bike Light "])].

Definition cartLine (title : string) (quantity : option string) : Dom.Node :=
  Dom.box [(CartPage.cartItemName, [Dom.leaf title]);
           (CartPage.cartQuantity, [Dom.mkNode quantity true true false []])].

Definition cartOfTwo : Dom.Page :=
  Dom.page [(CartPage.cartItems,
             [cartLine "Sauce Labs Backpack" (Some " 1 ");
              cartLine "Sauce Labs Bike Light" (Some "3")])].

(** A function that throws on its first two calls (the world counts the
    calls) and fulfils on the third. *)
Definition flaky : Async nat nat :=
  fun calls => (if (calls <? 2)%nat then Throw (Error "not yet") else Ok calls, S calls).

(** A function that always rejects with [e]; the world counts the
    calls. *)
Definition failing (e : Exception) : Async nat nat :=
  fun calls => (Throw e, S calls).

(** The Number 2.5. *)
Definition twoAndAHalf : JsNumber.number := JsNumber.ofDecimal false 25 (-1).

(** The catalog prices in ascending order, with the two items at 15.99. *)
Definition catalogPrices : list JsNumber.number :=
  map Helpers.parsePriceToNumber ["$7.99"; "$9.99"; "$15.99"; "$15.99"; "$29.99"; "$49.99"].

(** A summary page showing the three given texts. *)
Definition summaryPage (itemTotal tax total : string) : Dom.Page :=
  Dom.page [(CheckoutStepTwoPage.itemTotal, [Dom.leaf itemTotal]);
            (CheckoutStepTwoPage.tax, [Dom.leaf tax]);
            (CheckoutStepTwoPage.total, [Dom.leaf total])].

(** A cart of [n] lines that loses its first line at every click: the
    world is [n]. *)
Definition shrinkingCart : Engine nat := {|
  Playwright.textContent := fun _ _ => Ok None;
  Playwright.isVisible := fun _ _ => Ok true;
  Playwright.isEnabled := fun _ _ => Ok true;
  Playwright.isDisabled := fun _ _ => Ok false;
  Playwright.isChecked := fun _ _ => Ok false;
  Playwright.count := fun _ n => Ok n;
  Playwright.all := fun l n => Ok (map (NthLocator l) (seq 0 n));
  Playwright.click := fun _ n => (Ok tt, Nat.pred n);
  Playwright.waitForTimeout := fun _ n => (Ok tt, n)
|}.

(** A cart page with its two lines and the two names they show. *)
Definition cartListing : Dom.Page :=
  Dom.page [(CartPage.cartItems,
             [cartLine "Sauce Labs Backpack" (Some "1");
              cartLine "Sauce Labs Bike Light" (Some "1")]);
            (CartPage.cartItemName,
             [Dom.leaf "Sauce Labs Backpack"; Dom.leaf " Sauce Labs Bike Light "])].

(** Three answers of [Math.random]: a half, zero and the Number before
    1; zero from then on. *)
Definition sampleDraws (i : nat) : JsNumber.number :=
  nth i [JsNumber.ofDecimal false 5 (-1); JsNumber.zero;
         S754_finite false 9007199254740991 (-53)] JsNumber.zero.

(** ** Running asynchronous code *)

Ltac run :=
  repeat (cbv beta iota delta [bind ret throw tryCatch query] in *; cbn beta iota).

(** * Properties *)

Section StateChecks.
Context {W : Type} (E : Engine W).

(** The four checks that wrap the engine call in [try]/[catch] fulfil
    with a boolean on every world: the answer of the engine, and
    [false] when the engine throws. *)
Lemma guarded_state_checks (selector : string) (w : W) :
  BasePage.isElementVisible E selector w
    = (Ok (swallow (Playwright.isVisible E (PageLocator selector) w)), w)
  /\ BasePage.isElementEnabled E selector w
    = (Ok (swallow (Playwright.isEnabled E (PageLocator selector) w)), w)
  /\ BasePage.isElementDisabled E selector w
    = (Ok (swallow (Playwright.isDisabled E (PageLocator selector) w)), w)
  /\ BasePage.isElementChecked E selector w
    = (Ok (swallow (Playwright.isChecked E (PageLocator selector) w)), w).
Proof.
  unfold BasePage.isElementVisible, BasePage.isElementEnabled,
    BasePage.isElementDisabled, BasePage.isElementChecked.
  run. repeat split.
  - destruct (Playwright.isVisible E _ w); reflexivity.
  - destruct (Playwright.isEnabled E _ w); reflexivity.
  - destruct (Playwright.isDisabled E _ w); reflexivity.
  - destruct (Playwright.isChecked E _ w); reflexivity.
Qed.

(** [isElementPresent] has no [catch]: an error of [count] is the
    outcome of the check. *)
Lemma isElementPresent_outcome (selector : string) (w : W) :
  BasePage.isElementPresent E selector w
    = (match Playwright.count E (PageLocator selector) w with
       | Ok n => Ok (0 <? n)%nat
       | Throw e => Throw e
       end, w).
Proof.
  unfold BasePage.isElementPresent. run.
  destruct (Playwright.count E _ w); reflexivity.
Qed.
End StateChecks.

(** C3 (the code departs from the claim): on a closed page the engine
    call [count] throws, and [isElementPresent] rejects with that error
    where its four siblings fulfil with [false]. *)
Theorem isElementPresent_propagates_engine_error :
  let p := Dom.closedPage [(".cart_item", [Dom.leaf "Backpack"])] in
  BasePage.isElementPresent (Dom.engine Dom.inert) ".cart_item" p
    = (Throw Dom.pageClosed, p)
  /\ BasePage.isElementVisible (Dom.engine Dom.inert) ".cart_item" p = (Ok false, p)
  /\ BasePage.isElementEnabled (Dom.engine Dom.inert) ".cart_item" p = (Ok false, p)
  /\ BasePage.isElementDisabled (Dom.engine Dom.inert) ".cart_item" p = (Ok false, p)
  /\ BasePage.isElementChecked (Dom.engine Dom.inert) ".cart_item" p = (Ok false, p).
Proof. repeat split. Qed.

(** ** Numbers of decimal literals

    The rounding of [ofRatio] against the division of the Standard
    Library's IEEE 754 specification, and some literals. *)

Lemma ofRatio_agrees_with_SFdiv :
  Forall (fun '(n, d) =>
            JsNumber.ofRatio false n d
            = SFdiv JsNumber.prec JsNumber.emax
                (JsNumber.ofRatio false n 1) (JsNumber.ofRatio false d 1))
         [(1, 10); (1, 100); (2999, 100); (1, 3); (2, 3); (1599, 100);
          (9007199254740993, 1024); (1, 1125899906842624)]%positive.
Proof. repeat constructor. Qed.

Lemma parseFloat_samples :
  JsNumber.parseFloat "0.01" = S754_finite false 5764607523034235 (-59)
  /\ JsNumber.parseFloat " 29.99abc" = S754_finite false 8441434551552573 (-48)
  /\ JsNumber.parseFloat "-.5e1" = S754_finite true 5629499534213120 (-50)
  /\ JsNumber.parseFloat "1e400" = S754_infinity false
  /\ JsNumber.parseFloat "5e-324" = S754_finite false 1 (-1074)
  /\ JsNumber.parseFloat "$5" = JsNumber.NaN
  /\ JsNumber.parseInt10 " 12px" = S754_finite false 6755399441055744 (-49)
  /\ JsNumber.parseInt10 "" = JsNumber.NaN.
Proof. repeat split. Qed.

Lemma toFixed2_samples :
  map (fun t => JsNumber.toFixed2 (JsNumber.parseFloat t))
      ["29.99"; "1.005"; "0.005"; "2.675"; "-0.001"; "1e21";
       "999999999999999900000"; "123456789012345680000000"]
  = ["29.99"; "1.00"; "0.01"; "2.67"; "-0.00"; "1e+21";
     "999999999999999868928.00"; "1.2345678901234569e+23"].
Proof. vm_compute. reflexivity. Qed.

(** ** Error banners (login, checkout step one) *)

Section ErrorBanner.
Context {W : Type} (E : Engine W).

Lemma banner_accessor (selector : string) (w : W) :
  VisibleHasText E selector w ->
  ErrorBannerContract E selector
    (visible <- BasePage.isElementVisible E selector ;;
     if visible : bool then BasePage.getText E selector else ret EmptyString) w.
Proof.
  intros Hcoh. unfold ErrorBannerContract, VisibleHasText in *.
  unfold BasePage.isElementVisible, BasePage.getText. run.
  destruct (Playwright.isVisible E (PageLocator selector) w) as [[|]|e] eqn:Hv.
  - destruct (Hcoh eq_refl) as [t Ht]. rewrite Ht.
    repeat split.
    + intros t' _ Ht'. inversion Ht'. reflexivity.
    + intros Hn. exfalso. apply Hn. reflexivity.
    + eexists. reflexivity.
  - repeat split.
    + intros t' Habs. discriminate Habs.
    + eexists. reflexivity.
  - repeat split.
    + intros t' Habs. discriminate Habs.
    + eexists. reflexivity.
Qed.
End ErrorBanner.

(** C5: on every page state in which a visible banner has a text to
    read, [getErrorMessage] of the login page and of checkout step one
    fulfils: with the trimmed text of the banner when the banner is
    visible, with the empty string when the visibility probe answers
    [false] or throws; it never rejects. *)
Theorem getErrorMessage_never_throws {W} (E : Engine W) (w : W) :
  VisibleHasText E LoginPage.errorMessage w ->
  ErrorBannerContract E LoginPage.errorMessage (LoginPage.getErrorMessage E) w
  /\ ErrorBannerContract E CheckoutStepOnePage.errorMessage
       (CheckoutStepOnePage.getErrorMessage E) w.
Proof.
  intros Hcoh. split.
  - apply (banner_accessor E LoginPage.errorMessage w Hcoh).
  - apply (banner_accessor E CheckoutStepOnePage.errorMessage w Hcoh).
Qed.

(** Every page snapshot of the reference engine is such a page state. *)
Lemma Dom_visible_has_text react selector (p : Dom.Page) :
  VisibleHasText (Dom.engine react) selector p.
Proof.
  unfold VisibleHasText. cbn. unfold Dom.read, Dom.open. cbn.
  destruct (Dom.closed p); [discriminate|].
  destruct (Dom.lookup selector (Dom.roots p)) as [|n [|n' ns]]; cbn.
  - discriminate.
  - intros _. eexists. reflexivity.
  - discriminate.
Qed.

Lemma getErrorMessage_never_throws_witness :
  LoginPage.getErrorMessage (Dom.engine Dom.inert) loginWithBanner
    = (Ok "Epic sadface: Username is required", loginWithBanner)
  /\ CheckoutStepOnePage.getErrorMessage (Dom.engine Dom.inert) (Dom.page [])
    = (Ok EmptyString, Dom.page [])
  /\ LoginPage.getErrorMessage (Dom.engine Dom.inert) (Dom.closedPage [])
    = (Ok EmptyString, Dom.closedPage []).
Proof.
  pose proof (getErrorMessage_never_throws (Dom.engine Dom.inert) loginWithBanner
                (Dom_visible_has_text _ _ _)) as [[H1 _] _].
  pose proof (getErrorMessage_never_throws (Dom.engine Dom.inert) (Dom.page [])
                (Dom_visible_has_text _ _ _)) as [_ [_ [H2 _]]].
  pose proof (getErrorMessage_never_throws (Dom.engine Dom.inert) (Dom.closedPage [])
                (Dom_visible_has_text _ _ _)) as [[_ [H3 _]] _].
  split; [|split].
  - apply (H1 (Some "  Epic sadface: Username is required ")); reflexivity.
  - apply H2. discriminate.
  - apply H3. discriminate.
Defined.

(** ** The cart badge of the inventory page *)

(** C6: [getCartItemCount] of the inventory page fulfils with zero
    whenever the visibility probe of the badge answers anything but
    [true] (no badge, a hidden badge, a failing probe), and with
    [parseInt] of the trimmed text of the badge when the badge is
    visible; a missing badge is not an error. *)
Theorem getCartItemCount_badge {W} (E : Engine W) (w : W) :
  (Playwright.isVisible E (PageLocator InventoryPage.cartBadge) w <> Ok true ->
   InventoryPage.getCartItemCount E w = (Ok JsNumber.zero, w))
  /\ (forall t,
       Playwright.isVisible E (PageLocator InventoryPage.cartBadge) w = Ok true ->
       Playwright.textContent E (PageLocator InventoryPage.cartBadge) w = Ok t ->
       InventoryPage.getCartItemCount E w
         = (Ok (JsNumber.parseInt10 (trimOr EmptyString t)), w)).
Proof.
  unfold InventoryPage.getCartItemCount, BasePage.isElementVisible, BasePage.getText.
  run. split.
  - intros Hn.
    destruct (Playwright.isVisible E _ w) as [[|]|e]; try reflexivity.
    exfalso. apply Hn. reflexivity.
  - intros t Hv Ht. rewrite Hv, Ht. reflexivity.
Qed.

Lemma getCartItemCount_badge_witness :
  InventoryPage.getCartItemCount (Dom.engine Dom.inert) (Dom.page [])
    = (Ok JsNumber.zero, Dom.page [])
  /\ InventoryPage.getCartItemCount (Dom.engine Dom.inert) inventoryWithBadge
    = (Ok (JsNumber.ofDecimal false 2 0), inventoryWithBadge).
Proof.
  destruct (getCartItemCount_badge (Dom.engine Dom.inert) (Dom.page [])) as [H1 _].
  destruct (getCartItemCount_badge (Dom.engine Dom.inert) inventoryWithBadge) as [_ H2].
  split.
  - apply H1. discriminate.
  - apply (H2 (Some " 2 ")); reflexivity.
Defined.

(** ** Operations by name *)

Section ByName.
Context {W : Type} (E : Engine W).
Variables nameSelector buttonSelector name : string.

(** The body of the loop of a by-name operation. *)
Let body : Locator -> Async W (option unit) :=
  fun product =>
    title <- query (Playwright.textContent E (SubLocator product nameSelector)) ;;
    if trimmedEquals title name
    then Playwright.click E (SubLocator product buttonSelector) ;;; ret (Some tt)
    else ret None.

Lemma body_other (w : W) (item : Locator) :
  TitleIsNot E nameSelector name w item -> body item w = (Ok None, w).
Proof.
  intros [t [Ht Hneq]]. unfold body. run. rewrite Ht, Hneq. reflexivity.
Qed.

Lemma forOf_skip {A} (f : Locator -> Async W (option A)) (w : W) before rest :
  Forall (fun item => f item w = (Ok None, w)) before ->
  forOf f (before ++ rest)%list w = forOf f rest w.
Proof.
  induction 1 as [|item before Hitem _ IH]; [reflexivity|].
  cbn [app forOf]. unfold bind at 1. rewrite Hitem. exact IH.
Qed.

Lemma scan_found (w : W) before item after :
  Forall (TitleIsNot E nameSelector name w) before ->
  TitleIs E nameSelector name w item ->
  forOf body (before ++ item :: after)%list w
    = (Playwright.click E (SubLocator item buttonSelector) ;;; ret (Some tt)) w.
Proof.
  intros Hbefore [t [Ht Heq]].
  rewrite forOf_skip.
  - cbn [forOf]. unfold body. run. rewrite Ht, Heq.
    destruct (Playwright.click E _ w) as [[[]|e] w']; reflexivity.
  - eapply Forall_impl; [|exact Hbefore]. intros. now apply body_other.
Qed.

Lemma scan_not_found (w : W) items :
  Forall (TitleIsNot E nameSelector name w) items ->
  forOf body items w = (Ok None, w).
Proof.
  intros H. rewrite <- (app_nil_r items). rewrite forOf_skip; [reflexivity|].
  eapply Forall_impl; [|exact H]. intros. now apply body_other.
Qed.

Lemma scan_done (w w' : W) items :
  forOf body items w = (Ok (Some tt), w') ->
  exists item, In item items /\ TitleIs E nameSelector name w item
               /\ Playwright.click E (SubLocator item buttonSelector) w = (Ok tt, w').
Proof.
  induction items as [|item items IH]; cbn [forOf]; [discriminate|].
  unfold bind at 1. unfold body at 1. run.
  destruct (Playwright.textContent E (SubLocator item nameSelector) w) as [t|e] eqn:Ht;
    [|discriminate].
  destruct (trimmedEquals t name) eqn:Heq.
  - destruct (Playwright.click E _ w) as [[[]|e] w1] eqn:Hc; [|discriminate].
    intros H. inversion H; subst. exists item. split; [now left|].
    split; [exists t; auto|exact Hc].
  - intros H. destruct (IH H) as [it [Hin Hrest]].
    exists it. split; [now right|exact Hrest].
Qed.

Lemma by_name_contract (itemsSelector notFound : string) (w : W) :
  ByNameContract E itemsSelector nameSelector buttonSelector notFound
    (products <- query (Playwright.all E (PageLocator itemsSelector)) ;;
     done <- forOf body products ;;
     match done with
     | Some _ => ret tt
     | None => throw (Error notFound)
     end) name w.
Proof.
  unfold ByNameContract. repeat split.
  - intros before item after Hall Hbefore Hitem.
    unfold bind at 1, query. rewrite Hall.
    unfold bind at 1. rewrite scan_found by assumption.
    unfold afterClick. run.
    destruct (Playwright.click E _ w) as [[[]|e] w']; reflexivity.
  - intros items Hall Hnone.
    unfold bind at 1, query. rewrite Hall.
    unfold bind at 1. rewrite scan_not_found by assumption. reflexivity.
  - intros w'. unfold bind at 1, query.
    destruct (Playwright.all E (PageLocator itemsSelector) w) as [items|e] eqn:Hall;
      [|discriminate].
    unfold bind at 1.
    destruct (forOf body items w) as [[[[]|]|e] w1] eqn:Hscan; run; try discriminate.
    intros H. inversion H; subst.
    destruct (scan_done _ _ _ Hscan) as [item Hitem].
    exists items, item. split; [reflexivity|exact Hitem].
Qed.
End ByName.

(** C2: the three by-name operations scan the listed items in order and
    click the button of the first item whose trimmed title is the
    argument; with no such item they reject with their not-found error;
    they fulfil only when such a click has been made. *)
Theorem by_name_operations_click_or_fail {W} (E : Engine W) (name : string) (w : W) :
  ByNameContract E InventoryPage.productItems InventoryPage.productName
    InventoryPage.addToCartButton
    ("Product " ++ JsString.quoted name ++ " not found")
    (InventoryPage.addProductToCartByName E name) name w
  /\ ByNameContract E InventoryPage.productItems InventoryPage.productName
    InventoryPage.removeButton
    ("Product " ++ JsString.quoted name ++ " not found for removal")
    (InventoryPage.removeProductFromCartByName E name) name w
  /\ ByNameContract E CartPage.cartItems CartPage.cartItemName
    CartPage.removeButton
    ("Product " ++ JsString.quoted name ++ " not found in cart for removal")
    (CartPage.removeItemByName E name) name w.
Proof.
  split; [|split]; apply by_name_contract.
Qed.

Lemma by_name_operations_click_or_fail_witness :
  InventoryPage.addProductToCartByName (Dom.engine Dom.inert) "Sauce Labs Bike Light"
      inventoryOfTwo
    = afterClick (Dom.engine Dom.inert)
        (SubLocator (NthLocator (PageLocator InventoryPage.productItems) 1)
           InventoryPage.addToCartButton) inventoryOfTwo
  /\ InventoryPage.addProductToCartByName (Dom.engine Dom.inert) "Bike Light"
      inventoryOfTwo
    = (Throw (Error ("Product " ++ JsString.quoted "Bike Light" ++ " not found")),
       inventoryOfTwo).
Proof.
  split.
  - destruct (by_name_operations_click_or_fail (Dom.engine Dom.inert)
                "Sauce Labs Bike Light" inventoryOfTwo) as [[Hfound _] _].
    apply (Hfound [NthLocator (PageLocator InventoryPage.productItems) 0] _ []).
    + reflexivity.
    + constructor; [|constructor]. eexists. split; reflexivity.
    + eexists. split; reflexivity.
  - destruct (by_name_operations_click_or_fail (Dom.engine Dom.inert)
                "Bike Light" inventoryOfTwo) as [[_ [Hnone _]] _].
    apply (Hnone [NthLocator (PageLocator InventoryPage.productItems) 0;
                  NthLocator (PageLocator InventoryPage.productItems) 1]).
    + reflexivity.
    + repeat constructor; eexists; split; reflexivity.
Defined.

(** ** The quantity of a cart line *)

Section Quantity.
Context {W : Type} (E : Engine W).
Variable name : string.

Let body : Locator -> Async W (option JsNumber.number) :=
  fun item =>
    title <- query (Playwright.textContent E (SubLocator item CartPage.cartItemName)) ;;
    if trimmedEquals title name
    then quantityText <- query (Playwright.textContent E
                                  (SubLocator item CartPage.cartQuantity)) ;;
         ret (Some (JsNumber.parseInt10 (trimOr "0" quantityText)))
    else ret None.

Lemma quantity_body_other (w : W) (item : Locator) :
  TitleIsNot E CartPage.cartItemName name w item -> body item w = (Ok None, w).
Proof.
  intros [t [Ht Hneq]]. unfold body. run. rewrite Ht, Hneq. reflexivity.
Qed.

Lemma quantity_no_line (w : W) items :
  Playwright.all E (PageLocator CartPage.cartItems) w = Ok items ->
  Forall (TitleIsNot E CartPage.cartItemName name w) items ->
  CartPage.getItemQuantity E name w = (Ok JsNumber.zero, w).
Proof.
  intros Hall Hnone. unfold CartPage.getItemQuantity.
  unfold bind at 1, query. rewrite Hall. unfold bind at 1.
  change (forOf _ items w) with (forOf body items w).
  rewrite <- (List.app_nil_r items), forOf_skip; [reflexivity|].
  eapply Forall_impl; [|exact Hnone]. intros. now apply quantity_body_other.
Qed.

Lemma quantity_of_line (w : W) before item after quantityText :
  Playwright.all E (PageLocator CartPage.cartItems) w = Ok (before ++ item :: after)%list ->
  Forall (TitleIsNot E CartPage.cartItemName name w) before ->
  TitleIs E CartPage.cartItemName name w item ->
  Playwright.textContent E (SubLocator item CartPage.cartQuantity) w = Ok quantityText ->
  CartPage.getItemQuantity E name w
    = (Ok (JsNumber.parseInt10 (trimOr "0" quantityText)), w).
Proof.
  intros Hall Hbefore [t [Ht Heq]] Hq. unfold CartPage.getItemQuantity.
  unfold bind at 1, query. rewrite Hall. unfold bind at 1.
  change (forOf _ (before ++ item :: after)%list w)
    with (forOf body (before ++ item :: after)%list w).
  rewrite forOf_skip.
  - cbn [forOf]. unfold body. run. rewrite Ht, Heq, Hq. reflexivity.
  - eapply Forall_impl; [|exact Hbefore]. intros. now apply quantity_body_other.
Qed.
End Quantity.

(** C10: with no cart line titled [name], [getItemQuantity] fulfils with
    0 where [removeItemByName] rejects with its not-found error; with a
    line titled [name] it fulfils with [parseInt] of the trimmed quantity
    text of the first such line, which is 0 when that text is null or
    blank. *)
Theorem getItemQuantity_defaults_to_zero {W} (E : Engine W) (name : string) (w : W) :
  (forall items,
      Playwright.all E (PageLocator CartPage.cartItems) w = Ok items ->
      Forall (TitleIsNot E CartPage.cartItemName name w) items ->
      CartPage.getItemQuantity E name w = (Ok JsNumber.zero, w)
      /\ CartPage.removeItemByName E name w
         = (Throw (Error ("Product " ++ JsString.quoted name
                            ++ " not found in cart for removal")), w))
  /\ (forall before item after quantityText,
      Playwright.all E (PageLocator CartPage.cartItems) w = Ok (before ++ item :: after)%list ->
      Forall (TitleIsNot E CartPage.cartItemName name w) before ->
      TitleIs E CartPage.cartItemName name w item ->
      Playwright.textContent E (SubLocator item CartPage.cartQuantity) w = Ok quantityText ->
      CartPage.getItemQuantity E name w
        = (Ok (JsNumber.parseInt10 (trimOr "0" quantityText)), w)
      /\ (JsString.isEmpty (trimOr EmptyString quantityText) = true ->
          CartPage.getItemQuantity E name w = (Ok JsNumber.zero, w))).
Proof.
  split.
  - intros items Hall Hnone. split.
    + now apply (quantity_no_line E name w items).
    + destruct (by_name_contract E CartPage.cartItemName CartPage.removeButton name
                  CartPage.cartItems
                  ("Product " ++ JsString.quoted name ++ " not found in cart for removal")
                  w) as [_ [H _]].
      now apply (H items).
  - intros before item after q Hall Hbefore Hitem Hq.
    pose proof (quantity_of_line E name w before item after q Hall Hbefore Hitem Hq) as H.
    split; [exact H|].
    intros Hblank. rewrite H.
    destruct q as [t|]; cbn in *; [|reflexivity].
    destruct (JsString.isEmpty (JsString.trim t)) eqn:Ht; [reflexivity|].
    rewrite Hblank in Ht. discriminate.
Qed.

Lemma getItemQuantity_defaults_to_zero_witness :
  CartPage.getItemQuantity (Dom.engine Dom.inert) "Sauce Labs Onesie" cartOfTwo
    = (Ok JsNumber.zero, cartOfTwo)
  /\ CartPage.getItemQuantity (Dom.engine Dom.inert) "Sauce Labs Bike Light" cartOfTwo
    = (Ok (JsNumber.ofDecimal false 3 0), cartOfTwo).
Proof.
  split.
  - destruct (getItemQuantity_defaults_to_zero (Dom.engine Dom.inert)
                "Sauce Labs Onesie" cartOfTwo) as [Hnone _].
    apply (Hnone [NthLocator (PageLocator CartPage.cartItems) 0;
                  NthLocator (PageLocator CartPage.cartItems) 1]).
    + reflexivity.
    + repeat constructor; eexists; split; reflexivity.
  - destruct (getItemQuantity_defaults_to_zero (Dom.engine Dom.inert)
                "Sauce Labs Bike Light" cartOfTwo) as [_ Hline].
    refine (proj1 (Hline [NthLocator (PageLocator CartPage.cartItems) 0] _ []
                     (Some "3") _ _ _ _)).
    + reflexivity.
    + constructor; [|constructor]. eexists. split; reflexivity.
    + eexists. split; reflexivity.
    + reflexivity.
Defined.

(** ** Emptying the cart *)

Section RemoveAll.
Context {W : Type} (E : Engine W) (Reach : W -> Prop).

Lemma getCartItemCount_query (w : W) :
  CartPage.getCartItemCount E w
    = (Playwright.count E (PageLocator CartPage.cartItems) w, w).
Proof. reflexivity. Qed.

(** A fulfilled [removeItemByIndex(0)] is a click on the remove button
    of the first listed line. *)
Lemma removeItemByIndex_0_inv (w w1 : W) :
  CartPage.removeItemByIndex E JsNumber.zero w = (Ok tt, w1) ->
  exists first others,
    Playwright.all E (PageLocator CartPage.cartItems) w = Ok (first :: others)
    /\ Playwright.click E (SubLocator first CartPage.removeButton) w = (Ok tt, w1).
Proof.
  unfold CartPage.removeItemByIndex. run.
  destruct (Playwright.all E _ w) as [[|first others]|e]; [| |discriminate];
    match goal with |- context [if ?test then _ else _] => destruct test end;
    try discriminate.
  change (JsArray.get (first :: others) JsNumber.zero) with (Some first).
  intros H. exists first, others. split; [reflexivity|exact H].
Qed.

Lemma removeAllItemsLoop_terminates :
  RemovalDecreases E Reach ->
  forall bound n w,
    (n <= bound)%nat ->
    Reach w ->
    Playwright.count E (PageLocator CartPage.cartItems) w = Ok n ->
    exists k w',
      (k <= n)%nat
      /\ Iterations E w k w'
      /\ Playwright.count E (PageLocator CartPage.cartItems) w' = Ok 0%nat
      /\ forall fuel, (n <= fuel)%nat ->
                      CartPage.removeAllItemsLoop E fuel n w = Some (Ok tt, w').
Proof.
  intros Hdec. induction bound as [|bound IH]; intros n w Hle Hreach Hcount.
  - assert (n = 0)%nat by lia. subst n.
    exists 0%nat, w. repeat split; auto using Iterations_done.
    intros [|fuel] _; reflexivity.
  - destruct n as [|n'].
    + exists 0%nat, w. repeat split; auto using Iterations_done.
      intros [|fuel] _; reflexivity.
    + destruct (Hdec w (S n') Hreach) as (w1 & w2 & m & Hrm & Hwait & Hm & Hlt & Hreach2);
        [rewrite getCartItemCount_query, Hcount; reflexivity | lia |].
      rewrite getCartItemCount_query in Hm.
      assert (Hm' : Playwright.count E (PageLocator CartPage.cartItems) w2 = Ok m)
        by (inversion Hm; reflexivity).
      destruct (IH m w2 ltac:(lia) Hreach2 Hm') as (k & w' & Hk & Hiter & Hzero & Hrun).
      destruct (removeItemByIndex_0_inv _ _ Hrm) as (first & others & Hall & Hclick).
      exists (S k), w'. repeat split.
      * lia.
      * eapply Iterations_round; eauto. lia.
      * exact Hzero.
      * intros [|fuel] Hfuel; [lia|].
        cbn [CartPage.removeAllItemsLoop Nat.ltb Nat.leb].
        unfold bind at 1. rewrite Hrm.
        unfold bind at 1. rewrite Hwait.
        rewrite getCartItemCount_query, Hm'.
        apply Hrun. lia.
Qed.
End RemoveAll.

(** C4: when, in every world a run can be in, [removeItemByIndex(0)]
    makes the count reported after the wait strictly smaller,
    [removeAllItems] started on a cart that reports [n] lines returns
    (any fuel from [n] on is enough), the cart then reports zero lines,
    and the run is at most [n] rounds of one click on the remove button
    of the first line and one wait of 300 ms. *)
Theorem removeAllItems_terminates_empty {W} (E : Engine W) (Reach : W -> Prop)
  (w : W) (n : nat) :
  RemovalDecreases E Reach ->
  Reach w ->
  CartPage.getCartItemCount E w = (Ok n, w) ->
  exists k w',
    (k <= n)%nat
    /\ Iterations E w k w'
    /\ CartPage.getCartItemCount E w' = (Ok 0%nat, w')
    /\ forall fuel, (n <= fuel)%nat ->
                    CartPage.removeAllItems E fuel w = Some (Ok tt, w').
Proof.
  intros Hdec Hreach Hcount.
  rewrite getCartItemCount_query in Hcount.
  assert (Hc : Playwright.count E (PageLocator CartPage.cartItems) w = Ok n)
    by (inversion Hcount; reflexivity).
  destruct (removeAllItemsLoop_terminates E Reach Hdec n n w (le_n n) Hreach Hc)
    as (k & w' & Hk & Hiter & Hzero & Hrun).
  exists k, w'. repeat split; auto.
  - rewrite getCartItemCount_query, Hzero. reflexivity.
  - intros fuel Hfuel. unfold CartPage.removeAllItems.
    rewrite getCartItemCount_query, Hc. now apply Hrun.
Qed.


(** ** The order total *)

Lemma replaceFirst_prefix (p r : string) :
  JsString.replaceFirst p (p ++ r) = r.
Proof.
  assert (H : JsString.stripPrefix p (p ++ r) = Some r).
  { induction p as [|a p IH]; [reflexivity|].
    cbn. rewrite Ascii.eqb_refl. exact IH. }
  destruct p as [|a p]; destruct r as [|b r]; cbn in *;
    try rewrite H; reflexivity.
Qed.

(** C1 as stated fails: the two pages below display the same absolute
    difference, exactly 0.01, and [verifyTotalCalculation] answers
    [false] on the first and [true] on the second, so its answer is not a
    condition on the displayed difference, whether 0.01 itself counts as
    within the tolerance or not. *)
Lemma verifyTotalCalculation_not_exact :
  exactDifference "Item total: $0.00" "Tax: $0.00" "Total: $0.01" = Some (1 # 100)
  /\ fst (CheckoutStepTwoPage.verifyTotalCalculation (Dom.engine Dom.inert)
            (summaryPage "Item total: $0.00" "Tax: $0.00" "Total: $0.01"))
     = Ok false
  /\ exactDifference "Item total: $0.01" "Tax: $0.01" "Total: $0.03" = Some (1 # 100)
  /\ fst (CheckoutStepTwoPage.verifyTotalCalculation (Dom.engine Dom.inert)
            (summaryPage "Item total: $0.01" "Tax: $0.01" "Total: $0.03"))
     = Ok true.
Proof. repeat split; vm_compute; reflexivity. Qed.

(** C1, amended: on every page state whose three summary texts can be
    read, [verifyTotalCalculation] fulfils with [true] if and only if the
    absolute value of total minus (item total plus tax), computed on
    Numbers, is strictly below the Number 0.01; each of the three Numbers
    is [parseFloat] of the trimmed text without the first occurrence of
    its label, trimmed again, and without its first dollar sign. *)
Theorem verifyTotalCalculation_tolerance {W} (E : Engine W) (w : W)
  (itemText taxText totalText : option string) :
  Playwright.textContent E (PageLocator CheckoutStepTwoPage.itemTotal) w = Ok itemText ->
  Playwright.textContent E (PageLocator CheckoutStepTwoPage.tax) w = Ok taxText ->
  Playwright.textContent E (PageLocator CheckoutStepTwoPage.total) w = Ok totalText ->
  let difference :=
    JsNumber.abs (JsNumber.sub (amount "Total: " totalText)
                    (JsNumber.add (amount "Item total: " itemText)
                                  (amount "Tax: " taxText))) in
  (exists b, CheckoutStepTwoPage.verifyTotalCalculation E w = (Ok b, w))
  /\ (CheckoutStepTwoPage.verifyTotalCalculation E w = (Ok true, w)
      <-> JsNumber.lt difference (JsNumber.ofDecimal false 1 (-2)) = true).
Proof.
  intros Hi Ht Htot difference.
  assert (Hrun : CheckoutStepTwoPage.verifyTotalCalculation E w
                 = (Ok (JsNumber.lt difference (JsNumber.ofDecimal false 1 (-2))), w)).
  { unfold CheckoutStepTwoPage.verifyTotalCalculation,
      CheckoutStepTwoPage.getItemTotalAsNumber, CheckoutStepTwoPage.getTaxAsNumber,
      CheckoutStepTwoPage.getTotalAsNumber, CheckoutStepTwoPage.getItemTotal,
      CheckoutStepTwoPage.getTax, CheckoutStepTwoPage.getTotal, BasePage.getText.
    run. rewrite Hi, Ht, Htot. reflexivity. }
  split.
  - eexists. exact Hrun.
  - rewrite Hrun. split.
    + intros H. inversion H. reflexivity.
    + intros H. rewrite H. reflexivity.
Qed.

Lemma verifyTotalCalculation_tolerance_witness :
  CheckoutStepTwoPage.verifyTotalCalculation (Dom.engine Dom.inert)
    (summaryPage "Item total: $29.99" "Tax: $2.40" "Total: $32.39")
  = (Ok true, summaryPage "Item total: $29.99" "Tax: $2.40" "Total: $32.39").
Proof.
  apply (proj2 (verifyTotalCalculation_tolerance (Dom.engine Dom.inert)
                  (summaryPage "Item total: $29.99" "Tax: $2.40" "Total: $32.39")
                  (Some "Item total: $29.99") (Some "Tax: $2.40") (Some "Total: $32.39")
                  eq_refl eq_refl eq_refl)).
  vm_compute. reflexivity.
Defined.

(** ** Sortedness checks *)

Section Adjacent.
Variable bad : JsNumber.number -> JsNumber.number -> bool.

Lemma adjacentLoop_true (arr : list JsNumber.number) (steps i : nat) :
  Helpers.adjacentLoop bad arr steps i = true
  <-> forall j, (i <= j < i + steps)%nat ->
                bad (nth j arr JsNumber.NaN) (nth (j + 1) arr JsNumber.NaN) = false.
Proof.
  revert i. induction steps as [|steps IH]; intros i; cbn [Helpers.adjacentLoop].
  - split; [intros _ j Hj; lia|reflexivity].
  - destruct (bad (nth i arr JsNumber.NaN) (nth (i + 1) arr JsNumber.NaN)) eqn:Hi.
    + split; [discriminate|].
      intros H. rewrite (H i) in Hi by lia. discriminate.
    + rewrite IH. split.
      * intros H j Hj. destruct (Nat.eq_dec j i) as [->|Hne]; [exact Hi|].
        apply H. lia.
      * intros H j Hj. apply H. lia.
Qed.

Lemma adjacentLoop_whole (arr : list JsNumber.number) :
  Helpers.adjacentLoop bad arr (List.length arr - 1) 0 = true
  <-> forall j, (j + 1 < List.length arr)%nat ->
                bad (nth j arr JsNumber.NaN) (nth (j + 1) arr JsNumber.NaN) = false.
Proof.
  rewrite adjacentLoop_true. split; intros H j Hj; apply H; lia.
Qed.
End Adjacent.

(** Comparing the other way round gives the opposite answer. *)
Lemma SFcompare_swap (a b : spec_float) :
  SFcompare b a = option_map CompOpp (SFcompare a b).
Proof.
  destruct a as [sa|sa| |sa ma ea], b as [sb|sb| |sb mb eb]; cbn;
    try reflexivity;
    try (destruct sa; reflexivity); try (destruct sb; reflexivity);
    try (destruct sa, sb; reflexivity).
  destruct sa, sb; try reflexivity.
  - rewrite (Z.compare_antisym ea eb).
    destruct (ea ?= eb)%Z; cbn; try reflexivity.
    rewrite (Pos.compare_cont_antisym ma mb Eq). reflexivity.
  - rewrite (Z.compare_antisym ea eb).
    destruct (ea ?= eb)%Z; cbn; try reflexivity.
    rewrite (Pos.compare_cont_antisym ma mb Eq). reflexivity.
Qed.

Lemma SFcompare_defined (a b : spec_float) :
  JsNumber.isNaN a = false -> JsNumber.isNaN b = false ->
  exists c, SFcompare a b = Some c.
Proof.
  destruct a, b; cbn; try discriminate; intros _ _; eexists; reflexivity.
Qed.

(** Away from NaN, [a > b] is false exactly when [a <= b], and [a < b]
    is false exactly when [a >= b]. *)
Lemma not_gt_le (a b : JsNumber.number) :
  JsNumber.isNaN a = false -> JsNumber.isNaN b = false ->
  (JsNumber.gt a b = false <-> JsNumber.le a b = true).
Proof.
  intros Ha Hb. unfold JsNumber.gt, JsNumber.le, SFltb, SFleb.
  rewrite (SFcompare_swap a b).
  destruct (SFcompare_defined a b Ha Hb) as [c Hc]. rewrite Hc.
  destruct c; cbn; split; congruence.
Qed.

Lemma not_lt_ge (a b : JsNumber.number) :
  JsNumber.isNaN a = false -> JsNumber.isNaN b = false ->
  (JsNumber.lt a b = false <-> JsNumber.ge a b = true).
Proof.
  intros Ha Hb. unfold JsNumber.lt, JsNumber.ge, SFltb, SFleb.
  rewrite (SFcompare_swap a b).
  destruct (SFcompare_defined a b Ha Hb) as [c Hc]. rewrite Hc.
  destruct c; cbn; split; congruence.
Qed.

(** C8 as stated fails on arrays that hold a NaN: no comparison with NaN
    is true, so the pair (NaN, 1) neither stops the ascending check nor
    satisfies [<=], and likewise for the descending check and [>=]. *)
Lemma isSorted_accepts_nan :
  let arr := [JsNumber.NaN; JsNumber.ofDecimal false 1 0] in
  Helpers.isSortedAscending arr = true
  /\ JsNumber.le (nth 0 arr JsNumber.NaN) (nth 1 arr JsNumber.NaN) = false
  /\ Helpers.isSortedDescending arr = true
  /\ JsNumber.ge (nth 0 arr JsNumber.NaN) (nth 1 arr JsNumber.NaN) = false.
Proof. repeat split. Qed.

(** C8, amended: for every array of numbers none of which is NaN,
    [isSortedAscending] is true if and only if every adjacent pair
    satisfies [arr[i] <= arr[i+1]], and [isSortedDescending] is true if
    and only if every adjacent pair satisfies [arr[i] >= arr[i+1]]; equal
    neighbours are accepted by both. *)
Theorem isSorted_iff_adjacent (arr : list JsNumber.number) :
  Forall (fun x => JsNumber.isNaN x = false) arr ->
  (Helpers.isSortedAscending arr = true
   <-> forall i, (i + 1 < List.length arr)%nat ->
                 JsNumber.le (nth i arr JsNumber.NaN) (nth (i + 1) arr JsNumber.NaN) = true)
  /\ (Helpers.isSortedDescending arr = true
      <-> forall i, (i + 1 < List.length arr)%nat ->
                    JsNumber.ge (nth i arr JsNumber.NaN) (nth (i + 1) arr JsNumber.NaN) = true).
Proof.
  intros Hnan.
  assert (Hnth : forall i, (i < List.length arr)%nat ->
                           JsNumber.isNaN (nth i arr JsNumber.NaN) = false).
  { intros i Hi. rewrite Forall_forall in Hnan. apply Hnan. now apply nth_In. }
  unfold Helpers.isSortedAscending, Helpers.isSortedDescending.
  rewrite !adjacentLoop_whole. split.
  - split; intros H i Hi.
    + apply not_gt_le; [apply Hnth; lia|apply Hnth; lia|]. now apply H.
    + apply not_gt_le; [apply Hnth; lia|apply Hnth; lia|]. now apply H.
  - split; intros H i Hi.
    + apply not_lt_ge; [apply Hnth; lia|apply Hnth; lia|]. now apply H.
    + apply not_lt_ge; [apply Hnth; lia|apply Hnth; lia|]. now apply H.
Qed.

Lemma isSorted_iff_adjacent_witness :
  Helpers.isSortedAscending catalogPrices = true
  /\ Helpers.isSortedDescending (rev catalogPrices) = true.
Proof.
  split.
  - apply (proj1 (isSorted_iff_adjacent catalogPrices
                    ltac:(repeat constructor))).
    intros i Hi.
    do 5 (destruct i as [|i]; [reflexivity|]). cbn in Hi. lia.
  - apply (proj2 (isSorted_iff_adjacent (rev catalogPrices)
                    ltac:(repeat constructor))).
    intros i Hi.
    do 5 (destruct i as [|i]; [reflexivity|]). cbn in Hi. lia.
Defined.

(** ** The currency round trip *)

(** *** Reading the digits that [printN] writes *)

Lemma scanDigits_uint (d : Decimal.uint) (rest : string) (acc : N) :
  startsWithDigit rest = false ->
  JsNumber.scanDigits (DecimalString.NilEmpty.string_of_uint d ++ rest) acc
  = (uintValue d acc, Decimal.nb_digits d, rest).
Proof.
  intros Hrest. revert acc.
  induction d; intros acc; cbn [DecimalString.NilEmpty.string_of_uint append uintValue Decimal.nb_digits];
    try (cbn [JsNumber.scanDigits]; 
         change (JsNumber.digitValue _) with (Some 0%N) ||
         change (JsNumber.digitValue _) with (Some 1%N) ||
         change (JsNumber.digitValue _) with (Some 2%N) ||
         change (JsNumber.digitValue _) with (Some 3%N) ||
         change (JsNumber.digitValue _) with (Some 4%N) ||
         change (JsNumber.digitValue _) with (Some 5%N) ||
         change (JsNumber.digitValue _) with (Some 6%N) ||
         change (JsNumber.digitValue _) with (Some 7%N) ||
         change (JsNumber.digitValue _) with (Some 8%N) ||
         change (JsNumber.digitValue _) with (Some 9%N);
         cbv iota beta; rewrite IHd; reflexivity).
  destruct rest as [|c r]; [reflexivity|].
  cbn in Hrest. cbn [JsNumber.scanDigits].
  destruct (JsNumber.digitValue c); [discriminate|reflexivity].
Qed.

Lemma uintValue_acc (d : Decimal.uint) (acc : positive) :
  uintValue d (Npos acc) = Npos (Pos.of_uint_acc d acc).
Proof.
  revert acc. induction d; intros acc; cbn [uintValue Pos.of_uint_acc];
    try reflexivity; rewrite <- IHd; f_equal; lia.
Qed.

Lemma uintValue_0 (d : Decimal.uint) : uintValue d 0 = N.of_uint d.
Proof.
  unfold N.of_uint.
  induction d; cbn [uintValue Pos.of_uint]; try reflexivity;
    try (change (0 * 10 + _)%N with 0%N; exact IHd);
    cbn [N.mul N.add]; apply uintValue_acc.
Qed.

Lemma scanDigits_printN (n : N) (rest : string) :
  startsWithDigit rest = false ->
  JsNumber.scanDigits (JsNumber.printN n ++ rest) 0
  = (n, String.length (JsNumber.printN n), rest).
Proof.
  intros Hrest. unfold JsNumber.printN.
  rewrite scanDigits_uint by exact Hrest.
  rewrite uintValue_0, DecimalN.Unsigned.of_to.
  f_equal. f_equal.
  generalize (N.to_uint n). induction u; cbn; congruence.
Qed.

(** *** Strings of digits *)

Lemma digit_facts (c : ascii) :
  isDigit c = true ->
  JsString.isWhiteSpace c = false
  /\ (forall r, JsNumber.scanSign (String c r) = (false, String c r))
  /\ (forall r, JsString.stripPrefix "Infinity" (String c r) = None)
  /\ Ascii.eqb c "." = false.
Proof.
  destruct c as [[] [] [] [] [] [] [] []]; cbv; try discriminate; intros _;
    repeat split; reflexivity.
Qed.

Lemma digitValue_digitChar (v : N) :
  (v < 10)%N -> JsNumber.digitValue (JsNumber.digitChar v) = Some v.
Proof.
  intros Hv.
  do 10 (destruct v as [|v] using N.peano_ind; [reflexivity|]).
  lia.
Qed.

Lemma digitsOnly_uint (d : Decimal.uint) :
  digitsOnly (DecimalString.NilEmpty.string_of_uint d) = true.
Proof. induction d; cbn; auto. Qed.

Lemma printN_digits (n : N) :
  digitsOnly (JsNumber.printN n) = true /\ JsNumber.printN n <> EmptyString.
Proof.
  split; [apply digitsOnly_uint|].
  unfold JsNumber.printN. destruct n as [|p]; [discriminate|].
  cbn [N.to_uint]. pose proof (DecimalPos.Unsigned.to_uint_nonnil p) as H.
  destruct (Pos.to_uint p); try congruence; discriminate.
Qed.

Lemma printN_head (n : N) :
  exists c r, JsNumber.printN n = String c r /\ isDigit c = true /\ digitsOnly r = true.
Proof.
  destruct (printN_digits n) as [Hd Hne].
  destruct (JsNumber.printN n) as [|c r]; [congruence|].
  cbn in Hd. apply andb_true_iff in Hd. destruct Hd. eauto.
Qed.

(** *** Trimming *)

Lemma trimEnd_digits (s : string) : digitsOnly s = true -> JsString.trimEnd s = s.
Proof.
  induction s as [|c r IH]; [reflexivity|].
  cbn. intros H. apply andb_true_iff in H. destruct H as [Hc Hr].
  destruct (digit_facts c Hc) as [Hw _]. rewrite Hw, (IH Hr). reflexivity.
Qed.

Lemma trimEnd_append (s t : string) :
  t <> EmptyString -> JsString.trimEnd t = t -> JsString.trimEnd (s ++ t) = s ++ t.
Proof.
  intros Hne Ht. induction s as [|c r IH]; [exact Ht|].
  cbn [append JsString.trimEnd]. cbv zeta. rewrite IH.
  destruct (r ++ t) eqn:Hrt.
  - destruct r; cbn in Hrt; congruence.
  - cbn. rewrite andb_false_r. reflexivity.
Qed.

Lemma trim_clean (c : ascii) (r t : string) :
  isDigit c = true -> t <> EmptyString -> digitsOnly t = true ->
  JsString.trim (String c (r ++ t)) = String c (r ++ t).
Proof.
  intros Hc Hne Ht. unfold JsString.trim.
  destruct (digit_facts c Hc) as [Hw _].
  cbn [JsString.trimStart]. rewrite Hw.
  change (String c (r ++ t)) with ((String c r) ++ t).
  apply trimEnd_append; [exact Hne|now apply trimEnd_digits].
Qed.

(** *** Reading what [toFixed] writes *)

Lemma parseFloat_fixed (q v1 v2 : N) :
  (v1 < 10)%N -> (v2 < 10)%N ->
  JsNumber.parseFloat
    (JsNumber.printN q ++ "."
       ++ String (JsNumber.digitChar v1) (String (JsNumber.digitChar v2) EmptyString))
  = JsNumber.ofDecimal false ((q * 10 + v1) * 10 + v2) (-2).
Proof.
  intros Hv1 Hv2.
  pose proof (scanDigits_printN q
                ("." ++ String (JsNumber.digitChar v1)
                          (String (JsNumber.digitChar v2) EmptyString))
                eq_refl) as Hscan.
  destruct (printN_head q) as (c & r & Hq & Hc & Hr).
  rewrite Hq in *.
  destruct (digit_facts c Hc) as (Hw & Hsign & Hinf & _).
  unfold JsNumber.parseFloat, JsNumber.scanLiteral.
  cbn [append JsString.trimStart]. rewrite Hw, Hsign, Hinf.
  cbn [append] in Hscan. rewrite Hscan.
  cbn [JsNumber.scanDigits]. rewrite !digitValue_digitChar by assumption.
  cbn [JsNumber.scanDigits String.length JsNumber.scanExponent].
  reflexivity.
Qed.

Lemma trim_fixed (q v1 v2 : N) :
  (v2 < 10)%N ->
  JsString.trim
    (JsNumber.printN q ++ "."
       ++ String (JsNumber.digitChar v1) (String (JsNumber.digitChar v2) EmptyString))
  = JsNumber.printN q ++ "."
       ++ String (JsNumber.digitChar v1) (String (JsNumber.digitChar v2) EmptyString).
Proof.
  intros Hv2.
  destruct (printN_head q) as (c & r & Hq & Hc & Hr). rewrite Hq.
  assert (Hd : isDigit (JsNumber.digitChar v2) = true)
    by (unfold isDigit; now rewrite digitValue_digitChar).
  replace (String c r ++ "." ++ String (JsNumber.digitChar v1)
                                 (String (JsNumber.digitChar v2) EmptyString))
    with (String c ((r ++ "." ++ String (JsNumber.digitChar v1) EmptyString)
                      ++ String (JsNumber.digitChar v2) EmptyString)).
  - apply trim_clean; [exact Hc|discriminate|]. cbn. now rewrite Hd.
  - cbn [append]. f_equal. clear.
    induction r as [|a r IH]; cbn; [reflexivity|]. f_equal. apply IH.
Qed.

(** *** Reading exponential notation *)

Lemma append_empty_r (s : string) : s ++ EmptyString = s.
Proof. induction s; cbn; congruence. Qed.

Lemma append_assoc (a b c : string) : (a ++ b) ++ c = a ++ b ++ c.
Proof. induction a; cbn; congruence. Qed.

Lemma scanExponent_plus (e : N) :
  JsNumber.scanExponent ("e+" ++ JsNumber.printN e) = Z.of_N e.
Proof.
  pose proof (scanDigits_printN e EmptyString eq_refl) as Hscan.
  rewrite append_empty_r in Hscan.
  destruct (printN_head e) as (c & r & He & _).
  cbn [append JsNumber.scanExponent Ascii.eqb Bool.eqb orb JsNumber.scanSign].
  rewrite Hscan, He. reflexivity.
Qed.

Lemma parseFloat_exponential (s : N) (e : nat) :
  JsNumber.parseFloat (JsNumber.exponential s e) = JsNumber.exponentialValue s e.
Proof.
  unfold JsNumber.exponential, JsNumber.exponentialValue.
  set (rest := "e+" ++ JsNumber.printN (N.of_nat e)).
  pose proof (scanDigits_printN s rest eq_refl) as Hscan.
  pose proof (scanExponent_plus (N.of_nat e)) as Hexp. fold rest in Hexp.
  destruct (printN_head s) as (c & r & Hs & Hc & Hr). rewrite Hs in *.
  destruct (digit_facts c Hc) as (Hw & Hsign & Hinf & Hdot).
  unfold JsNumber.parseFloat, JsNumber.scanLiteral.
  destruct r as [|a r].
  - cbn [JsNumber.pointAfterFirst append JsString.trimStart].
    rewrite Hw, Hsign, Hinf. cbn [append] in Hscan. rewrite Hscan.
    unfold rest at 1. cbn [append]. fold rest.
    rewrite Hexp. reflexivity.
  - cbn [JsNumber.pointAfterFirst].
    replace ((String c ("." ++ String a r)) ++ rest)
      with (String c (String "." (String a r ++ rest))) by reflexivity.
    cbn [JsString.trimStart]. rewrite Hw, Hsign, Hinf.
    cbn [append JsNumber.scanDigits] in Hscan.
    cbn [JsNumber.scanDigits].
    unfold isDigit in Hc. destruct (JsNumber.digitValue c) as [v|]; [|discriminate].
    change (JsNumber.digitValue ".") with (@None N). cbv iota beta.
    cbn [append].
    destruct (JsNumber.digitValue a) as [va|] eqn:Ha.
    + cbn [JsNumber.scanDigits]. rewrite Ha.
      destruct (JsNumber.scanDigits (r ++ rest) ((0 * 10 + v) * 10 + va)) as [[mv k] r2].
      injection Hscan as Hmv Hk Hr2. subst mv k r2.
      rewrite Hexp. cbn [String.length Nat.sub]. reflexivity.
    + cbn in Hr. unfold isDigit in Hr. rewrite Ha in Hr. discriminate.
Qed.

Lemma trim_exponential (s : N) (e : nat) :
  JsString.trim (JsNumber.exponential s e) = JsNumber.exponential s e.
Proof.
  unfold JsNumber.exponential.
  destruct (printN_head s) as (c & r & Hs & Hc & Hr). rewrite Hs.
  destruct (printN_digits (N.of_nat e)) as [Hd Hne].
  replace (JsNumber.pointAfterFirst (String c r) ++ "e+" ++ JsNumber.printN (N.of_nat e))
    with (String c ((match r with
                     | EmptyString => EmptyString
                     | _ => "." ++ r
                     end ++ "e+") ++ JsNumber.printN (N.of_nat e))).
  - apply trim_clean; assumption.
  - destruct r; cbn [JsNumber.pointAfterFirst append]; [reflexivity|].
    f_equal. f_equal. f_equal. apply append_assoc.
Qed.

(** *** Powers of two and magnitudes *)

Section Rounding.
Import JsNumber.
Local Open Scope Z_scope.

Lemma pow2_nonneg k : 0 <= k -> pow2 k = 2 ^ k.
Proof. intros. unfold pow2. now rewrite Z.max_r. Qed.

Lemma pow2_nonpos k : k <= 0 -> pow2 k = 1.
Proof. intros. unfold pow2. now rewrite Z.max_l. Qed.

Lemma pow2_pos k : 0 < pow2 k.
Proof. unfold pow2. apply Z.pow_pos_nonneg; lia. Qed.

(** [pow2 g / pow2 (- g)] is [2 ^ g]: scalings at two exponents differ
    by the power of two between them. *)
Lemma pow2_ratio g e :
  e <= g -> pow2 g * pow2 (- e) = 2 ^ (g - e) * (pow2 (- g) * pow2 e).
Proof.
  intros Hge.
  destruct (Z_le_gt_dec 0 e) as [He|He], (Z_le_gt_dec 0 g) as [Hg|Hg]; try lia.
  - rewrite (pow2_nonneg g), (pow2_nonneg e), (pow2_nonpos (- e)), (pow2_nonpos (- g)) by lia.
    replace g with ((g - e) + e) at 1 by lia. rewrite Z.pow_add_r by lia. ring.
  - rewrite (pow2_nonneg g), (pow2_nonpos e), (pow2_nonneg (- e)), (pow2_nonpos (- g)) by lia.
    replace (g - e) with (g + - e) by lia. rewrite Z.pow_add_r by lia. ring.
  - rewrite (pow2_nonpos g), (pow2_nonpos e), (pow2_nonneg (- e)), (pow2_nonneg (- g)) by lia.
    replace (- e) with ((g - e) + - g) at 1 by lia. rewrite Z.pow_add_r by lia. ring.
Qed.

Lemma log2_bounds (p : positive) :
  2 ^ Z.log2 (Zpos p) <= Zpos p < 2 ^ (Z.log2 (Zpos p) + 1).
Proof.
  pose proof (Z.log2_spec (Zpos p) ltac:(lia)) as H.
  replace (Z.log2 (Z.pos p) + 1) with (Z.succ (Z.log2 (Z.pos p))) by lia. exact H.
Qed.

Lemma mag_spec (n d : positive) :
  atLeast (Zpos n) (Zpos d) (mag n d - 1) /\ below (Zpos n) (Zpos d) (mag n d).
Proof.
  unfold mag, atLeast, below.
  pose proof (log2_bounds n) as [Hn1 Hn2].
  pose proof (log2_bounds d) as [Hd1 Hd2].
  pose proof (Z.log2_nonneg (Zpos n)) as Hln.
  pose proof (Z.log2_nonneg (Zpos d)) as Hld.
  set (ln := Z.log2 (Zpos n)) in *. set (ld := Z.log2 (Zpos d)) in *.
  destruct (Z.leb_spec (Z.pos d * pow2 (ln - ld)) (Z.pos n * pow2 (- (ln - ld)))) as [Ht|Ht].
  - split.
    + replace (ln - ld + 1 - 1) with (ln - ld) by lia. exact Ht.
    + destruct (Z_le_gt_dec 0 (ln - ld + 1)) as [Hs|Hs].
      * rewrite (pow2_nonneg (ln - ld + 1)), (pow2_nonpos (- (ln - ld + 1))) by lia.
        replace (ln + 1) with (ld + (ln - ld + 1)) in Hn2 by lia.
        rewrite Z.pow_add_r in Hn2 by lia.
        assert (0 < 2 ^ (ln - ld + 1)) by (apply Z.pow_pos_nonneg; lia). nia.
      * rewrite (pow2_nonpos (ln - ld + 1)), (pow2_nonneg (- (ln - ld + 1))) by lia.
        replace ld with ((ln + 1) + - (ln - ld + 1)) in Hd1 by lia.
        rewrite Z.pow_add_r in Hd1 by lia.
        assert (0 < 2 ^ (- (ln - ld + 1))) by (apply Z.pow_pos_nonneg; lia). nia.
  - split.
    + destruct (Z_le_gt_dec 0 (ln - ld - 1)) as [Hs|Hs].
      * rewrite (pow2_nonneg (ln - ld - 1)), (pow2_nonpos (- (ln - ld - 1))) by lia.
        replace ln with ((ld + 1) + (ln - ld - 1)) in Hn1 by lia.
        rewrite Z.pow_add_r in Hn1 by lia.
        assert (0 < 2 ^ (ln - ld - 1)) by (apply Z.pow_pos_nonneg; lia). nia.
      * rewrite (pow2_nonpos (ln - ld - 1)), (pow2_nonneg (- (ln - ld - 1))) by lia.
        replace (ld + 1) with (ln + - (ln - ld - 1)) in Hd2 by lia.
        rewrite Z.pow_add_r in Hd2 by lia.
        assert (0 < 2 ^ (- (ln - ld - 1))) by (apply Z.pow_pos_nonneg; lia). nia.
    + exact Ht.
Qed.

Lemma below_scale (n d g e : Z) :
  0 < d -> e <= g ->
  (below n d g <-> n * pow2 (- e) < d * pow2 e * 2 ^ (g - e)).
Proof.
  intros Hd Hge. unfold below.
  pose proof (pow2_ratio g e Hge) as Hr.
  pose proof (pow2_pos (- g)) as H1. pose proof (pow2_pos e) as H2.
  pose proof (pow2_pos (- e)) as H3. pose proof (pow2_pos g) as H4.
  assert (H5 : 0 < 2 ^ (g - e)) by (apply Z.pow_pos_nonneg; lia).
  split; intros H.
  - apply (Z.mul_lt_mono_pos_r (pow2 (- g))); [exact H1|].
    replace (d * pow2 e * 2 ^ (g - e) * pow2 (- g))
      with (d * (2 ^ (g - e) * (pow2 (- g) * pow2 e))) by ring.
    rewrite <- Hr. nia.
  - apply (Z.mul_lt_mono_pos_r (pow2 (- e))); [exact H3|].
    replace (d * pow2 g * pow2 (- e)) with (d * (pow2 g * pow2 (- e))) by ring.
    rewrite Hr. nia.
Qed.

Lemma atLeast_scale (n d g e : Z) :
  0 < d -> e <= g ->
  (atLeast n d g <-> d * pow2 e * 2 ^ (g - e) <= n * pow2 (- e)).
Proof.
  intros Hd Hge. unfold atLeast.
  pose proof (pow2_ratio g e Hge) as Hr.
  pose proof (pow2_pos (- g)) as H1. pose proof (pow2_pos e) as H2.
  pose proof (pow2_pos (- e)) as H3. pose proof (pow2_pos g) as H4.
  assert (H5 : 0 < 2 ^ (g - e)) by (apply Z.pow_pos_nonneg; lia).
  split; intros H.
  - apply (Z.mul_le_mono_pos_r _ _ (pow2 (- g))); [exact H1|].
    replace (d * pow2 e * 2 ^ (g - e) * pow2 (- g))
      with (d * (2 ^ (g - e) * (pow2 (- g) * pow2 e))) by ring.
    rewrite <- Hr. nia.
  - apply (Z.mul_le_mono_pos_r _ _ (pow2 (- e))); [exact H3|].
    replace (d * pow2 g * pow2 (- e)) with (d * (pow2 g * pow2 (- e))) by ring.
    rewrite Hr. nia.
Qed.

Lemma mag_unique (n d : positive) (g : Z) :
  atLeast (Zpos n) (Zpos d) (g - 1) -> below (Zpos n) (Zpos d) g -> mag n d = g.
Proof.
  intros Hlo Hhi.
  destruct (mag_spec n d) as [Hlo' Hhi'].
  set (g' := mag n d) in *.
  set (e := Z.min g g' - 1).
  apply (atLeast_scale _ _ _ e) in Hlo, Hlo'; try lia.
  apply (below_scale _ _ _ e) in Hhi, Hhi'; try lia.
  pose proof (pow2_pos e) as H2.
  destruct (Z.lt_trichotomy g g') as [Hlt|[Heq|Hgt]]; [|congruence|].
  - exfalso.
    assert (2 ^ (g - e) <= 2 ^ (g' - 1 - e)) by (apply Z.pow_le_mono_r; lia). nia.
  - exfalso.
    assert (2 ^ (g' - e) <= 2 ^ (g - 1 - e)) by (apply Z.pow_le_mono_r; lia). nia.
Qed.

Lemma below_mono (n d g h : Z) : 0 < d -> g <= h -> below n d g -> below n d h.
Proof.
  intros Hd Hgh H.
  apply (below_scale _ _ _ g) in H; try lia.
  apply (below_scale _ _ _ g); try lia.
  pose proof (pow2_pos g).
  assert (2 ^ (g - g) <= 2 ^ (h - g)) by (apply Z.pow_le_mono_r; lia). nia.
Qed.

(** *** Rounding a quotient *)

Lemma roundHalfEven_bound (a b : Z) :
  0 <= a -> 0 < b ->
  0 <= roundHalfEven a b /\ - b <= 2 * a - 2 * roundHalfEven a b * b <= b.
Proof.
  intros Ha Hb. unfold roundHalfEven.
  pose proof (Z.div_mod a b ltac:(lia)) as Hdm.
  pose proof (Z.mod_pos_bound a b Hb) as Hr.
  pose proof (Z.div_pos a b Ha Hb) as Hq.
  set (q := a / b) in *. set (r := a mod b) in *. clearbody q r. subst a.
  destruct (Z.compare_spec (2 * r) b) as [He|Hl|Hg].
  - destruct (Z.even q); split; lia.
  - split; lia.
  - split; lia.
Qed.

Lemma roundHalfEven_unique (a b m : Z) :
  0 < b -> - b < 2 * a - 2 * m * b < b -> roundHalfEven a b = m.
Proof.
  intros Hb H. unfold roundHalfEven.
  pose proof (Z.div_mod a b ltac:(lia)) as Hdm.
  pose proof (Z.mod_pos_bound a b Hb) as Hr.
  set (q := a / b) in *. set (r := a mod b) in *. clearbody q r. subst a.
  assert (Hm : m = q \/ m = q + 1) by nia.
  destruct (Z.compare_spec (2 * r) b) as [He|Hl|Hg].
  - exfalso. destruct Hm; subst m; lia.
  - destruct Hm; subst m; lia.
  - destruct Hm; subst m; lia.
Qed.

Lemma roundHalfEven_between (a b lo hi : Z) :
  0 < b -> lo * b <= a -> a < hi * b ->
  lo <= roundHalfEven a b <= hi.
Proof.
  intros Hb Hlo Hhi. unfold roundHalfEven.
  pose proof (Z.div_mod a b ltac:(lia)) as Hdm.
  pose proof (Z.mod_pos_bound a b Hb) as Hr.
  assert (lo <= a / b) by (apply Z.div_le_lower_bound; lia).
  assert (a / b < hi) by (apply Z.div_lt_upper_bound; lia).
  destruct (2 * (a mod b) ?= b); [destruct (Z.even (a / b))| |]; lia.
Qed.

(** *** Digits *)

Lemma digits2_log2 (p : positive) : Zpos (digits2_pos p) = Z.log2 (Zpos p) + 1.
Proof.
  assert (H : digits2_pos p = Pos.size p) by (induction p; cbn; congruence).
  rewrite H. destruct p; cbn; lia.
Qed.

Lemma digits2_bounds (p : positive) :
  2 ^ (Zpos (digits2_pos p) - 1) <= Zpos p < 2 ^ Zpos (digits2_pos p).
Proof.
  rewrite digits2_log2. replace (Z.log2 (Z.pos p) + 1 - 1) with (Z.log2 (Zpos p)) by lia.
  apply log2_bounds.
Qed.

Lemma digits2_unique (p : positive) (k : Z) :
  2 ^ (k - 1) <= Zpos p < 2 ^ k -> Zpos (digits2_pos p) = k.
Proof.
  intros H. rewrite digits2_log2.
  assert (0 < k). { destruct (Z_lt_le_dec 0 k); [assumption|].
    rewrite (Z.pow_neg_r 2 (k - 1)) in H by lia.
    assert (2 ^ k <= 2 ^ 0) by (apply Z.pow_le_mono_r; lia). change (2 ^ 0) with 1 in *. lia. }
  rewrite (Z.log2_unique (Zpos p) (k - 1)); try lia.
  replace (Z.succ (k - 1)) with k by lia. lia.
Qed.

Lemma digits2_le (p : positive) (k : Z) :
  0 <= k -> Zpos p < 2 ^ k -> Zpos (digits2_pos p) <= k.
Proof.
  intros Hk H. rewrite digits2_log2.
  destruct (Z_lt_le_dec (Z.log2 (Zpos p)) k) as [Hlt|Hge]; [lia|].
  pose proof (log2_bounds p) as [H1 _].
  assert (2 ^ k <= 2 ^ Z.log2 (Zpos p)) by (apply Z.pow_le_mono_r; lia). lia.
Qed.

(** *** The Number nearest to a fraction *)

Lemma fexp_eq (g : Z) : fexp prec emax g = Z.max (g - 53) (-1074).
Proof. reflexivity. Qed.

Lemma bounded_intro (m : positive) (e : Z) :
  Z.max (Zpos (digits2_pos m) + e - 53) (-1074) = e -> e <= 971 ->
  bounded prec emax m e = true.
Proof.
  intros Hc He. unfold bounded, canonical_mantissa. rewrite fexp_eq, Hc, Z.eqb_refl.
  apply Z.leb_le. exact He.
Qed.

Lemma bounded_elim (m : positive) (e : Z) :
  bounded prec emax m e = true ->
  Z.max (Zpos (digits2_pos m) + e - 53) (-1074) = e /\ e <= 971.
Proof.
  unfold bounded, canonical_mantissa. rewrite fexp_eq.
  intros H. apply andb_true_iff in H. destruct H as [H1 H2].
  apply Z.eqb_eq in H1. apply Z.leb_le in H2. split; [exact H1|exact H2].
Qed.

(** The significand that [ofRatio] rounds to, within its range. *)
Lemma ofRatio_significand (n d : positive) :
  let e := Z.max (mag n d - 53) (-1074) in
  let m := roundHalfEven (Zpos n * pow2 (- e)) (Zpos d * pow2 e) in
  0 <= m <= 2 ^ 53
  /\ (e = mag n d - 53 -> 2 ^ 52 <= m)
  /\ (e <> mag n d - 53 -> m <= 2 ^ 52).
Proof.
  intros e m.
  destruct (mag_spec n d) as [Hlo Hhi].
  pose proof (pow2_pos e) as Hpe. pose proof (pow2_pos (- e)) as Hpe'.
  assert (Hb : 0 < Zpos d * pow2 e) by nia.
  assert (Ha : 0 <= Zpos n * pow2 (- e)) by nia.
  destruct (Z.max_spec (mag n d - 53) (-1074)) as [[Hlt He]|[Hge He]]; fold e in He.
  - (* subnormal range *)
    apply (below_mono _ _ _ (e + 52)) in Hhi; try lia.
    apply (below_scale _ _ _ e) in Hhi; try lia.
    replace (e + 52 - e) with 52 in Hhi by lia.
    pose proof (roundHalfEven_between (Zpos n * pow2 (- e)) _ 0 (2 ^ 52) Hb
                  ltac:(lia) ltac:(lia)) as Hm.
    fold m in Hm. repeat split; try lia.
  - (* normal range *)
    apply (atLeast_scale _ _ _ e) in Hlo; try lia.
    apply (below_scale _ _ _ e) in Hhi; try lia.
    replace (mag n d - 1 - e) with 52 in Hlo by lia.
    replace (mag n d - e) with 53 in Hhi by lia.
    pose proof (roundHalfEven_between (Zpos n * pow2 (- e)) _ (2 ^ 52) (2 ^ 53) Hb
                  ltac:(lia) ltac:(lia)) as Hm.
    fold m in Hm. repeat split; try lia.
Qed.

Lemma ofRatio_valid (s : bool) (n d : positive) :
  valid_binary prec emax (ofRatio s n d) = true.
Proof.
  unfold ofRatio. rewrite fexp_eq.
  pose proof (ofRatio_significand n d) as Hm. cbv zeta in Hm.
  set (e := Z.max (mag n d - 53) (-1074)) in *.
  set (m := roundHalfEven (Zpos n * pow2 (- e)) (Zpos d * pow2 e)) in *.
  destruct Hm as [Hrange [Hnormal Hsub]].
  assert (He : -1074 <= e) by (unfold e; lia).
  destruct (Z.eqb_spec m (2 ^ prec)) as [Hcarry|Hno].
  - change (2 ^ (prec - 1)) with (Zpos (2 ^ 52)).
    destruct (Z.leb_spec (e + 1) (emax - prec)) as [Hfit|Hover]; [|reflexivity].
    cbn [valid_binary]. apply bounded_intro; [|exact Hfit].
    rewrite (digits2_unique (2 ^ 52) 53) by (cbn; lia). lia.
  - destruct m as [|p|p]; try reflexivity.
    destruct (Z.leb_spec e (emax - prec)) as [Hfit|Hover]; [|reflexivity].
    cbn [valid_binary]. apply bounded_intro; [|exact Hfit].
    change (2 ^ prec) with (2 ^ 53) in Hno.
    destruct (Z.eq_dec e (mag n d - 53)) as [Hn|Hs].
    + rewrite (digits2_unique p 53) by (specialize (Hnormal Hn); cbn; lia). lia.
    + specialize (Hsub Hs).
      assert (Zpos (digits2_pos p) <= 53).
      { apply digits2_le; [lia|]. change (2 ^ 53) with (2 * 2 ^ 52). lia. }
      pose proof (digits2_bounds p).
      assert (0 < Zpos (digits2_pos p)) by lia.
      unfold e in *. lia.
Qed.

(** A fraction whose value is that of a Number is read as this Number. *)
Lemma ofRatio_exact (s : bool) (n d M : positive) (e : Z) :
  bounded prec emax M e = true ->
  Zpos n * pow2 (- e) = Zpos M * (Zpos d * pow2 e) ->
  ofRatio s n d = S754_finite s M e.
Proof.
  intros Hb Hv. apply bounded_elim in Hb. destruct Hb as [Hc He].
  pose proof (digits2_bounds M) as [HM1 HM2].
  set (D := Zpos (digits2_pos M)) in *.
  assert (HD : 0 < D) by (unfold D; lia).
  pose proof (pow2_pos e) as Hpe.
  assert (HB : 0 < Zpos d * pow2 e) by nia.
  assert (Hmag : mag n d = D + e).
  { apply mag_unique.
    - apply (atLeast_scale _ _ _ e); try lia.
      replace (D + e - 1 - e) with (D - 1) by lia. rewrite Hv. nia.
    - apply (below_scale _ _ _ e); try lia.
      replace (D + e - e) with D by lia. rewrite Hv. nia. }
  unfold ofRatio. rewrite fexp_eq, Hmag, Hc.
  rewrite (roundHalfEven_unique _ _ (Zpos M)) by (rewrite ?Hv; lia).
  assert (HD53 : D <= 53) by lia.
  assert (2 ^ D <= 2 ^ 53) by (apply Z.pow_le_mono_r; lia).
  destruct (Z.eqb_spec (Zpos M) (2 ^ prec)) as [Heq|_].
  - exfalso. change (2 ^ prec) with (2 ^ 53) in Heq. lia.
  - destruct (Z.leb_spec e (emax - prec)) as [_|Hover]; [reflexivity|].
    exfalso. change (emax - prec) with 971 in Hover. lia.
Qed.

(** A fraction within half a unit in the last place of a Number whose
    significand is inside its binade is read as this Number. *)
Lemma ofRatio_near (s : bool) (n d M : positive) (e : Z) :
  2 ^ 52 < Zpos M < 2 ^ 53 -> -1074 <= e <= 971 ->
  - (Zpos d * pow2 e) < 2 * (Zpos n * pow2 (- e)) - 2 * Zpos M * (Zpos d * pow2 e)
    < Zpos d * pow2 e ->
  ofRatio s n d = S754_finite s M e.
Proof.
  intros HM He Hnear.
  pose proof (pow2_pos e) as Hpe.
  assert (HB : 0 < Zpos d * pow2 e) by nia.
  assert (Hmag : mag n d = 53 + e).
  { apply mag_unique.
    - apply (atLeast_scale _ _ _ e); try lia.
      replace (53 + e - 1 - e) with 52 by lia. nia.
    - apply (below_scale _ _ _ e); try lia.
      replace (53 + e - e) with 53 by lia. nia. }
  unfold ofRatio. rewrite fexp_eq, Hmag.
  replace (Z.max (53 + e - 53) (-1074)) with e by lia.
  rewrite (roundHalfEven_unique _ _ (Zpos M)) by lia.
  destruct (Z.eqb_spec (Zpos M) (2 ^ prec)) as [Heq|_].
  - exfalso. change (2 ^ prec) with (2 ^ 53) in Heq. lia.
  - destruct (Z.leb_spec e (emax - prec)) as [_|Hover]; [reflexivity|].
    exfalso. change (emax - prec) with 971 in Hover. lia.
Qed.

(** What a finite result of [ofRatio] says about the fraction: it lies
    within half a unit in the last place. *)
Lemma ofRatio_finite_inv (s s' : bool) (n d M : positive) (e : Z) :
  ofRatio s n d = S754_finite s' M e ->
  exists e0 m0,
    e0 <= e
    /\ - (Zpos d * pow2 e0)
       <= 2 * (Zpos n * pow2 (- e0)) - 2 * m0 * (Zpos d * pow2 e0)
       <= Zpos d * pow2 e0
    /\ ((m0 = 2 ^ 53 /\ Zpos M = 2 ^ 52 /\ e = e0 + 1) \/ (m0 = Zpos M /\ e = e0)).
Proof.
  unfold ofRatio. rewrite fexp_eq.
  set (e0 := Z.max (mag n d - 53) (-1074)).
  pose proof (pow2_pos e0) as Hpe. pose proof (pow2_pos (- e0)) as Hpe'.
  assert (HB : 0 < Zpos d * pow2 e0) by nia.
  assert (HA : 0 <= Zpos n * pow2 (- e0)) by nia.
  pose proof (roundHalfEven_bound _ _ HA HB) as [_ Hbound].
  set (m0 := roundHalfEven (Zpos n * pow2 (- e0)) (Zpos d * pow2 e0)) in *.
  intros H. exists e0, m0.
  destruct (Z.eqb_spec m0 (2 ^ prec)) as [Hcarry|Hno].
  - change (2 ^ (prec - 1)) with (Zpos (2 ^ 52)) in H.
    change (2 ^ prec) with (2 ^ 53) in Hcarry.
    destruct (e0 + 1 <=? emax - prec); [|discriminate].
    assert (Zpos (2 ^ 52) = 2 ^ 52) by reflexivity.
    inversion H; subst. repeat split; lia.
  - destruct m0 as [|p|p]; try discriminate.
    destruct (e0 <=? emax - prec); [|discriminate].
    inversion H; subst. repeat split; lia.
Qed.

Lemma toFraction_finite (M : positive) (e : Z) :
  exists den : positive,
    toFraction (S754_finite false M e) = (Zpos M * pow2 e, den)
    /\ Zpos den = pow2 (- e).
Proof.
  destruct e as [|k|k]; cbn [toFraction fst snd].
  - exists 1%positive. split; [f_equal; change (pow2 0) with 1; lia|reflexivity].
  - exists 1%positive. split; [|reflexivity].
    f_equal. rewrite pow2_nonneg by lia. rewrite Pos2Z.inj_mul, Pos2Z.inj_pow. reflexivity.
  - exists (2 ^ k)%positive. split.
    + f_equal. rewrite pow2_nonpos by lia. lia.
    + rewrite pow2_nonneg by lia. rewrite Pos2Z.inj_pow. reflexivity.
Qed.

Lemma cents_floor (num : Z) (den : positive) :
  Qfloor (inject_Z 100 * (num # den) + (1 # 2)) = (200 * num + Zpos den) / (2 * Zpos den).
Proof.
  unfold Qfloor, Qplus, Qmult, inject_Z. cbn [Qnum Qden].
  f_equal; lia.
Qed.

(** The digits [toFixed] prints make up the rounded number of cents. *)
Lemma cents_digits (n : N) :
  (((n / 100) * 10 + (n mod 100) / 10) * 10 + n mod 10 = n)%N
  /\ ((n mod 100) / 10 < 10)%N /\ (n mod 10 < 10)%N.
Proof.
  pose proof (N.div_mod n 100 ltac:(lia)).
  pose proof (N.mod_lt n 100 ltac:(lia)).
  pose proof (N.div_mod (n mod 100) 10 ltac:(lia)).
  pose proof (N.mod_lt (n mod 100) 10 ltac:(lia)).
  pose proof (N.mod_lt n 10 ltac:(lia)).
  assert ((n mod 100) mod 10 = n mod 10)%N.
  { replace 100%N with (10 * 10)%N by reflexivity.
    rewrite N.Div0.mod_mul_r. rewrite (N.mul_comm 10), N.Div0.mod_add.
    apply N.Div0.mod_mod. }
  assert ((n mod 100) / 10 < 10)%N by (apply N.Div0.div_lt_upper_bound; lia).
  repeat split; lia.
Qed.

(** *** Large numbers *)

Lemma SFcompare_Eq_finite (a : number) (m : positive) (e : Z) :
  SFcompare a (S754_finite false m e) = Some Eq -> a = S754_finite false m e.
Proof.
  destruct a as [s|s| |s ma ea]; try (cbn; discriminate).
  - destruct s; cbn; discriminate.
  - unfold SFcompare. destruct s; [discriminate|].
    destruct (Z.compare_spec ea e) as [He|He|He]; try discriminate.
    intros H. injection H as H. apply Pos.compare_eq in H. congruence.
Qed.

Section Large.
Variables (m : positive) (e : Z) (X : N).
Let x : number := S754_finite false m e.
Hypothesis Hlast : exponentialValue X (nDigits X - 1) = x.

Lemma readsBack_sound (s : N) (ex : nat) :
  readsBack x s ex = true -> exponentialValue s ex = x.
Proof.
  unfold readsBack.
  destruct (SFcompare (exponentialValue s ex) x) as [[| |]|] eqn:Hc; try discriminate.
  intros _. now apply SFcompare_Eq_finite.
Qed.

Lemma shortest_sound (todo k : nat) :
  exists s ex, shortest x X todo k = exponential s ex /\ exponentialValue s ex = x.
Proof.
  revert k. induction todo as [|todo IH]; intros k; cbn [shortest].
  - eauto.
  - cbv zeta.
    set (lo := (X / 10 ^ N.of_nat (nDigits X - k))%N).
    destruct (readsBack x lo (nDigits X - 1)) eqn:Hlo;
      destruct ((lo + 1 <? 10 ^ N.of_nat k)%N && readsBack x (lo + 1) (nDigits X - 1))%bool
        eqn:Hhi; cbn [andb].
    + apply andb_true_iff in Hhi. destruct Hhi as [_ Hhi].
      repeat match goal with |- context [if ?b then _ else _] => destruct b end;
        eauto using readsBack_sound.
    + eauto using readsBack_sound.
    + apply andb_true_iff in Hhi. destruct Hhi as [_ Hhi]. eauto using readsBack_sound.
    + apply IH.
Qed.

Lemma toStringLarge_sound :
  exists s ex, toStringLarge x X = exponential s ex /\ exponentialValue s ex = x.
Proof.
  unfold toStringLarge.
  destruct (readsBack x 1 (nDigits X)) eqn:H1.
  - eauto using readsBack_sound.
  - apply shortest_sound.
Qed.
End Large.

Lemma parsePrice_text (t : string) :
  JsString.trim t = t ->
  Helpers.parsePriceToNumber ("$" ++ t) = parseFloat t.
Proof.
  intros Ht. unfold Helpers.parsePriceToNumber.
  rewrite (replaceFirst_prefix "$" t), Ht. reflexivity.
Qed.

(** *** The round trip *)

Lemma append_empty_l (s : string) : EmptyString ++ s = s.
Proof. reflexivity. Qed.

Lemma le_zero_finite (s : bool) (M : positive) (e : Z) :
  le zero (S754_finite s M e) = true -> s = false.
Proof. destruct s; [discriminate|reflexivity]. Qed.

Lemma roundtrip_rounded (x : number) :
  valid_binary prec emax x = true -> isFinite x = true -> le zero x = true ->
  Helpers.parsePriceToNumber (Helpers.formatCurrency x) = roundedToCents x.
Proof.
  intros Hvalid Hfin Hpos.
  destruct x as [s|s| |s M e]; try discriminate.
  - destruct s; reflexivity.
  - apply le_zero_finite in Hpos. subst s.
    cbn [valid_binary] in Hvalid.
    destruct (bounded_elim _ _ Hvalid) as [Hcanon He].
    pose proof (digits2_bounds M) as [HM1 HM2].
    assert (HD : Zpos (digits2_pos M) <= 53) by lia.
    assert (HM : Zpos M < 2 ^ 53).
    { assert (2 ^ Zpos (digits2_pos M) <= 2 ^ 53) by (apply Z.pow_le_mono_r; lia). lia. }
    destruct (toFraction_finite M e) as (den & Hfrac & Hden).
    unfold Helpers.formatCurrency, roundedToCents, toFixed2.
    cbn [abs SFabs]. rewrite Hfrac, cents_floor.
    pose proof (pow2_pos e) as Hpe. pose proof (pow2_pos (- e)) as Hpe'.
    destruct (Z.leb_spec (10 ^ 21 * Zpos den) (Zpos M * pow2 e)) as [Hlarge|Hsmall].
    + (* exponential notation *)
      assert (He0 : 0 <= e).
      { destruct (Z_le_gt_dec 0 e) as [|Hneg]; [assumption|exfalso].
        rewrite (pow2_nonpos e) in Hlarge by lia.
        change (2 ^ 53) with 9007199254740992 in HM.
        change (10 ^ 21) with 1000000000000000000000 in Hlarge. lia. }
      rewrite (pow2_nonpos (- e)) in Hden by lia.
      assert (den = 1%positive) by lia. subst den.
      rewrite (pow2_nonneg e) in * by lia.
      assert (H2e : 0 < 2 ^ e) by (apply Z.pow_pos_nonneg; lia).
      destruct (Zpos M * 2 ^ e) as [|X|X] eqn:HX; try lia.
      assert (Hlast : exponentialValue (Npos X) (nDigits (Npos X) - 1) = S754_finite false M e).
      { unfold exponentialValue, nDigits.
        replace (Z.of_N (N.of_nat (String.length (printN (N.pos X)) - 1))
                 - Z.of_nat (String.length (printN (N.pos X)) - 1)) with 0 by lia.
        cbn [ofDecimal]. apply ofRatio_exact; [exact Hvalid|].
        rewrite (pow2_nonpos (- e)), (pow2_nonneg e) by lia. lia. }
      destruct (toStringLarge_sound M e (Npos X) Hlast) as (sg & ex & Htext & Hval).
      cbn [Z.to_N]. rewrite Htext, append_empty_l.
      rewrite parsePrice_text by apply trim_exponential.
      rewrite parseFloat_exponential, Hval.
      replace ((200 * Zpos X + 1) / (2 * 1)) with (100 * Zpos X).
      2:{ apply Z.div_unique with (r := 1); lia. }
      cbn [Z.mul Z.to_N ofDecimal]. symmetry.
      change (10 ^ 2)%positive with 100%positive.
      apply ofRatio_exact; [exact Hvalid|].
      rewrite (pow2_nonpos (- e)), (pow2_nonneg e) by lia. lia.
    + (* fixed notation *)
      set (n := Z.to_N ((200 * (Zpos M * pow2 e) + Zpos den) / (2 * Zpos den))).
      destruct (cents_digits n) as (Hn & Hv1 & Hv2).
      rewrite append_empty_l.
      rewrite parsePrice_text by (apply trim_fixed; exact Hv2).
      rewrite parseFloat_fixed by assumption.
      rewrite Hn. reflexivity.
Qed.

(** *** Amounts with two decimals *)

Lemma ofRatio_shape (n d : positive) :
  ofRatio false n d = S754_zero false
  \/ ofRatio false n d = S754_infinity false
  \/ exists M e, ofRatio false n d = S754_finite false M e.
Proof.
  unfold ofRatio.
  destruct (roundHalfEven _ _ =? 2 ^ prec).
  - change (2 ^ (prec - 1)) with (Zpos (2 ^ 52)).
    destruct (_ <=? _); eauto.
  - destruct (roundHalfEven _ _); eauto.
    destruct (_ <=? _); eauto.
Qed.

Lemma cents_fixed_point (k : N) :
  isFinite (ofDecimal false k (-2)) = true ->
  roundedToCents (ofDecimal false k (-2)) = ofDecimal false k (-2).
Proof.
  destruct k as [|p]; [reflexivity|].
  cbn [ofDecimal]. change (10 ^ 2)%positive with 100%positive.
  intros Hfin.
  pose proof (ofRatio_valid false p 100) as Hvalid.
  destruct (ofRatio_shape p 100) as [Hz|[Hi|(M & e & Hx)]].
  - rewrite Hz. reflexivity.
  - rewrite Hi in Hfin. discriminate.
  - rewrite Hx in Hvalid. cbn [valid_binary] in Hvalid.
    destruct (bounded_elim _ _ Hvalid) as [Hcanon He].
    pose proof (digits2_bounds M) as [HM1 HM2].
    destruct (toFraction_finite M e) as (den & Hfrac & Hden).
    rewrite Hx. unfold roundedToCents. rewrite Hfrac, cents_floor.
    pose proof (pow2_pos e) as Hpe.
    destruct (Z_le_gt_dec e (-7)) as [Hsmall|Hbig].
    + (* the unit in the last place is below 0.01: the cents are [p] *)
      destruct (ofRatio_finite_inv _ _ _ _ _ _ Hx) as (e0 & m0 & He0 & Hbound & Hcase).
      rewrite (pow2_nonpos e0), (pow2_nonneg (- e0)) in Hbound by lia.
      rewrite (pow2_nonpos e) by lia.
      rewrite (pow2_nonneg (- e)) in Hden by lia.
      assert (H128 : 2 ^ 7 <= 2 ^ (- e)) by (apply Z.pow_le_mono_r; lia).
      change (2 ^ 7) with 128 in H128.
      replace ((200 * (Zpos M * 1) + Zpos den) / (2 * Zpos den)) with (Zpos p).
      { cbn [Z.to_N ofDecimal]. exact Hx. }
      destruct Hcase as [(Hm0 & HM & Hec)|(Hm0 & Hec)].
      * subst m0. replace (- e0) with (Z.succ (- e)) in Hbound by lia.
        rewrite Z.pow_succ_r in Hbound by lia.
        change (2 ^ 53) with (2 * 2 ^ 52) in Hbound.
        apply Z.div_unique with (r := 200 * Zpos M + Zpos den - 2 * Zpos den * Zpos p); nia.
      * subst m0 e0.
        apply Z.div_unique with (r := 200 * Zpos M + Zpos den - 2 * Zpos den * Zpos p); nia.
    + (* the significand has 53 bits *)
      assert (HD : Zpos (digits2_pos M) = 53) by lia.
      rewrite HD in HM1, HM2. change (53 - 1) with 52 in HM1.
      destruct (Z_le_gt_dec 0 e) as [Hnat|Hfrac'].
      * (* an integer: the cents are a hundred times it *)
        rewrite (pow2_nonpos (- e)) in Hden by lia.
        assert (den = 1%positive) by lia. subst den.
        rewrite (pow2_nonneg e) by lia.
        assert (H2e : 0 < 2 ^ e) by (apply Z.pow_pos_nonneg; lia).
        replace ((200 * (Zpos M * 2 ^ e) + 1) / (2 * 1)) with (100 * (Zpos M * 2 ^ e)).
        2:{ apply Z.div_unique with (r := 1); lia. }
        destruct (Zpos M * 2 ^ e) as [|N|N] eqn:HN; try lia.
        cbn [Z.mul Z.to_N ofDecimal]. change (10 ^ 2)%positive with 100%positive.
        apply ofRatio_exact; [exact Hvalid|].
        rewrite (pow2_nonpos (- e)), (pow2_nonneg e) by lia. lia.
      * rewrite (pow2_nonpos e) by lia.
        rewrite (pow2_nonneg (- e)) in Hden by lia.
        assert (H64 : 2 ^ (- e) <= 2 ^ 6) by (apply Z.pow_le_mono_r; lia).
        change (2 ^ 6) with 64 in H64.
        assert (H2 : 2 ^ 1 <= 2 ^ (- e)) by (apply Z.pow_le_mono_r; lia).
        change (2 ^ 1) with 2 in H2.
        set (n := (200 * (Zpos M * 1) + Zpos den) / (2 * Zpos den)).
        pose proof (Z.div_mod (200 * (Zpos M * 1) + Zpos den) (2 * Zpos den) ltac:(lia)) as Hdm.
        pose proof (Z.mod_pos_bound (200 * (Zpos M * 1) + Zpos den) (2 * Zpos den) ltac:(lia)) as Hr.
        fold n in Hdm.
        set (r := (200 * (Zpos M * 1) + Zpos den) mod (2 * Zpos den)) in *.
        change (2 ^ 52) with 4503599627370496 in *.
        change (2 ^ 53) with 9007199254740992 in *.
        assert (Hnpos : 0 < n) by nia.
        destruct n as [|pn|pn] eqn:Hn; try lia.
        cbn [Z.to_N ofDecimal]. change (10 ^ 2)%positive with 100%positive.
        destruct (Z.eq_dec (Zpos M) 4503599627370496) as [Hpow|Hin].
        -- (* a power of two: a hundred times it is an integer *)
           apply ofRatio_exact; [exact Hvalid|].
           rewrite (pow2_nonneg (- e)), (pow2_nonpos e) by lia.
           rewrite <- Hden.
           assert (Hdiv : exists t, 4503599627370496 = t * Zpos den).
           { exists (2 ^ (52 + e)). rewrite Hden, <- Z.pow_add_r by lia.
             replace (52 + e + - e) with 52 by lia. reflexivity. }
           destruct Hdiv as [t Ht].
           assert (Hr' : r = Zpos den * (200 * t + 1 - 2 * Zpos pn)) by nia.
           assert (Hu : 0 <= 200 * t + 1 - 2 * Zpos pn < 2) by nia.
           assert (Zpos pn = 100 * t) by lia. nia.
        -- apply ofRatio_near; [lia|lia|].
           rewrite (pow2_nonneg (- e)), (pow2_nonpos e) by lia.
           rewrite <- Hden. nia.
Qed.

End Rounding.

(** C9: for every Number [x] that is finite and not below zero, reading
    back the formatted [x] gives [x] rounded to two decimal places; and
    when [x] is the Number of an amount with two decimals ([k] hundredths)
    it gives [x] itself. *)
Theorem price_roundtrip (x : JsNumber.number) :
  valid_binary JsNumber.prec JsNumber.emax x = true ->
  JsNumber.isFinite x = true ->
  JsNumber.le JsNumber.zero x = true ->
  Helpers.parsePriceToNumber (Helpers.formatCurrency x) = roundedToCents x
  /\ ((exists k : N, x = JsNumber.ofDecimal false k (-2)) ->
      Helpers.parsePriceToNumber (Helpers.formatCurrency x) = x).
Proof.
  intros Hvalid Hfin Hpos. split.
  - now apply roundtrip_rounded.
  - intros [k Hk]. rewrite roundtrip_rounded by assumption.
    subst x. now apply cents_fixed_point.
Qed.

Lemma price_roundtrip_witness :
  Helpers.parsePriceToNumber (Helpers.formatCurrency (JsNumber.parseFloat "29.99"))
    = JsNumber.parseFloat "29.99"
  /\ Helpers.parsePriceToNumber (Helpers.formatCurrency (JsNumber.parseFloat "1.005"))
    = JsNumber.parseFloat "1".
Proof.
  split.
  - apply (proj2 (price_roundtrip (JsNumber.parseFloat "29.99")
                    eq_refl eq_refl eq_refl)).
    exists 2999%N. reflexivity.
  - rewrite (proj1 (price_roundtrip (JsNumber.parseFloat "1.005")
                      eq_refl eq_refl eq_refl)).
    vm_compute. reflexivity.
Defined.

(** * Further properties *)

(** ** The sortedness checks on reversed arrays and between any two places *)

Lemma number_le_refl (a : JsNumber.number) :
  JsNumber.isNaN a = false -> JsNumber.le a a = true.
Proof.
  unfold JsNumber.le, SFleb.
  destruct a as [s|s| |s m e]; cbn; try discriminate; intros _;
    try (destruct s; reflexivity).
  rewrite Z.compare_refl, Pos.compare_cont_refl. destruct s; reflexivity.
Qed.

Lemma number_le_trans (a b c : JsNumber.number) :
  JsNumber.le a b = true -> JsNumber.le b c = true -> JsNumber.le a c = true.
Proof.
  unfold JsNumber.le, SFleb.
  destruct a as [sa|sa| |sa ma ea], b as [sb|sb| |sb mb eb], c as [sc|sc| |sc mc ec];
    cbn; try discriminate; try reflexivity;
    try (destruct sa; try discriminate; try reflexivity);
    try (destruct sb; try discriminate; try reflexivity);
    try (destruct sc; try discriminate; try reflexivity).
  all: change (Pos.compare_cont Eq ?x ?y) with (Pos.compare x y).
  all: destruct (Z.compare_spec ea eb), (Z.compare_spec eb ec), (Z.compare_spec ea ec);
    try discriminate; try reflexivity; try lia; subst.
  all: destruct (Pos.compare_spec ma mb), (Pos.compare_spec mb mc), (Pos.compare_spec ma mc);
    cbn; try discriminate; try reflexivity; try lia.
Qed.

Section AlphabeticalLoop.
Variable bad : string -> string -> bool.

Lemma alphabeticalLoop_true (arr : list string) (steps i : nat) :
  Helpers.alphabeticalLoop bad arr steps i = true
  <-> forall j, (i <= j < i + steps)%nat ->
                bad (JsString.toLowerCase (nth j arr EmptyString))
                    (JsString.toLowerCase (nth (j + 1) arr EmptyString)) = false.
Proof.
  revert i. induction steps as [|steps IH]; intros i; cbn [Helpers.alphabeticalLoop].
  - split; [intros _ j Hj; lia|reflexivity].
  - destruct (bad _ _) eqn:Hi.
    + split; [discriminate|].
      intros H. rewrite (H i) in Hi by lia. discriminate.
    + rewrite IH. split.
      * intros H j Hj. destruct (Nat.eq_dec j i) as [->|Hne]; [exact Hi|].
        apply H. lia.
      * intros H j Hj. apply H. lia.
Qed.

Lemma alphabeticalLoop_whole (arr : list string) :
  Helpers.alphabeticalLoop bad arr (List.length arr - 1) 0 = true
  <-> forall j, (j + 1 < List.length arr)%nat ->
                bad (JsString.toLowerCase (nth j arr EmptyString))
                    (JsString.toLowerCase (nth (j + 1) arr EmptyString)) = false.
Proof.
  rewrite alphabeticalLoop_true. split; intros H j Hj; apply H; lia.
Qed.
End AlphabeticalLoop.

(** The order of strings is reflexive and transitive, and [a > b] is
    the negation of [a <= b]. *)
Lemma string_compare_refl (s : string) : String.compare s s = Eq.
Proof.
  induction s as [|c r IH]; [reflexivity|]. cbn.
  unfold Ascii.compare. now rewrite N.compare_refl.
Qed.

Lemma string_leb_refl (s : string) : String.leb s s = true.
Proof. unfold String.leb. now rewrite string_compare_refl. Qed.

Lemma string_leb_trans (a b c : string) :
  String.leb a b = true -> String.leb b c = true -> String.leb a c = true.
Proof.
  unfold String.leb. revert b c.
  induction a as [|x a IH]; intros [|y b] [|z c]; cbn; try discriminate; try reflexivity.
  unfold Ascii.compare.
  destruct (N.compare_spec (N_of_ascii x) (N_of_ascii y)),
           (N.compare_spec (N_of_ascii y) (N_of_ascii z)),
           (N.compare_spec (N_of_ascii x) (N_of_ascii z));
    try discriminate; try reflexivity; try lia.
  apply IH.
Qed.

Lemma string_gt_leb (a b : string) : JsString.gt a b = negb (String.leb a b).
Proof.
  unfold JsString.gt, String.ltb, String.leb.
  rewrite (String.compare_antisym a b). destruct (String.compare b a); reflexivity.
Qed.

Lemma string_lt_leb (a b : string) : JsString.lt a b = negb (String.leb b a).
Proof. apply (string_gt_leb b a). Qed.

Lemma rev_neighbours {A} (d : A) (arr : list A) (j : nat) :
  (j + 1 < List.length arr)%nat ->
  nth j (rev arr) d = nth ((List.length arr - 2 - j) + 1) arr d
  /\ nth (j + 1) (rev arr) d = nth (List.length arr - 2 - j) arr d.
Proof.
  intros Hj. rewrite !rev_nth by lia. split; f_equal; lia.
Qed.

(** A statement about all neighbours of the reversed array is one about
    all neighbours of the array, read the other way round. *)
Lemma rev_adjacent {A} (d : A) (P : A -> A -> Prop) (arr : list A) :
  (forall j, (j + 1 < List.length (rev arr))%nat ->
             P (nth j (rev arr) d) (nth (j + 1) (rev arr) d))
  <-> (forall j, (j + 1 < List.length arr)%nat ->
                 P (nth (j + 1) arr d) (nth j arr d)).
Proof.
  rewrite length_rev. split; intros H j Hj.
  - specialize (H (List.length arr - 2 - j)%nat ltac:(lia)).
    destruct (rev_neighbours d arr (List.length arr - 2 - j) ltac:(lia)) as [E1 E2].
    rewrite E1, E2 in H.
    replace (List.length arr - 2 - (List.length arr - 2 - j))%nat with j in H by lia.
    exact H.
  - destruct (rev_neighbours d arr j Hj) as [E1 E2]. rewrite E1, E2.
    apply (H (List.length arr - 2 - j)%nat). lia.
Qed.

Lemma isSorted_rev (numbers : list JsNumber.number) :
  Helpers.isSortedDescending (rev numbers) = Helpers.isSortedAscending numbers
  /\ Helpers.isSortedAscending (rev numbers) = Helpers.isSortedDescending numbers.
Proof.
  unfold Helpers.isSortedAscending, Helpers.isSortedDescending.
  split; apply eq_true_iff_eq; rewrite !adjacentLoop_whole.
  - apply (rev_adjacent JsNumber.NaN (fun a b => JsNumber.lt a b = false)).
  - apply (rev_adjacent JsNumber.NaN (fun a b => JsNumber.gt a b = false)).
Qed.

(** X1: a descending check accepts the reversed array exactly when the
    ascending check accepts the array, and the other way round, for the
    numeric and for the alphabetical checks, NaN or not. *)
Theorem checks_of_reversed_array (numbers : list JsNumber.number) (names : list string) :
  Helpers.isSortedDescending (rev numbers) = Helpers.isSortedAscending numbers
  /\ Helpers.isSortedAscending (rev numbers) = Helpers.isSortedDescending numbers
  /\ Helpers.isSortedReverseAlphabetically (rev names) = Helpers.isSortedAlphabetically names
  /\ Helpers.isSortedAlphabetically (rev names) = Helpers.isSortedReverseAlphabetically names.
Proof.
  destruct (isSorted_rev numbers) as [H1 H2].
  split; [exact H1|]. split; [exact H2|].
  unfold Helpers.isSortedAlphabetically, Helpers.isSortedReverseAlphabetically.
  split; apply eq_true_iff_eq; rewrite !alphabeticalLoop_whole.
  - apply (rev_adjacent EmptyString
             (fun a b => JsString.lt (JsString.toLowerCase a) (JsString.toLowerCase b) = false)).
  - apply (rev_adjacent EmptyString
             (fun a b => JsString.gt (JsString.toLowerCase a) (JsString.toLowerCase b) = false)).
Qed.

(** From neighbours to any two places, for a reflexive and transitive
    relation. *)
Lemma adjacent_global {A} (R : A -> A -> Prop) (d : A) (arr : list A) :
  (forall a, R a a) -> (forall a b c, R a b -> R b c -> R a c) ->
  (forall j, (j + 1 < List.length arr)%nat -> R (nth j arr d) (nth (j + 1) arr d)) ->
  forall i j, (i <= j < List.length arr)%nat -> R (nth i arr d) (nth j arr d).
Proof.
  intros Hrefl Htrans Hadj i j [Hij Hj].
  induction Hij as [|j Hij IH]; [apply Hrefl|].
  apply (Htrans _ (nth j arr d)); [apply IH; lia|].
  replace (S j) with (j + 1)%nat by lia. apply Hadj. lia.
Qed.

(** X2: an array without NaN is accepted by [isSortedAscending] exactly
    when no element is above a later one, whatever the distance between
    the two, and by [isSortedDescending] exactly when none is below a
    later one. *)
Theorem isSorted_any_two_places (arr : list JsNumber.number) :
  Forall (fun x => JsNumber.isNaN x = false) arr ->
  (Helpers.isSortedAscending arr = true
   <-> forall i j, (i <= j < List.length arr)%nat ->
                   JsNumber.le (nth i arr JsNumber.NaN) (nth j arr JsNumber.NaN) = true)
  /\ (Helpers.isSortedDescending arr = true
      <-> forall i j, (i <= j < List.length arr)%nat ->
                      JsNumber.ge (nth i arr JsNumber.NaN) (nth j arr JsNumber.NaN) = true).
Proof.
  intros Hnan.
  assert (Hnth : forall i, (i < List.length arr)%nat ->
                           JsNumber.isNaN (nth i arr JsNumber.NaN) = false).
  { intros i Hi. rewrite Forall_forall in Hnan. apply Hnan. now apply nth_In. }
  unfold Helpers.isSortedAscending, Helpers.isSortedDescending.
  rewrite !adjacentLoop_whole. split; split.
  - intros H i j Hij.
    assert (G : JsNumber.isNaN (nth i arr JsNumber.NaN) = false
                -> JsNumber.le (nth i arr JsNumber.NaN) (nth j arr JsNumber.NaN) = true).
    { destruct Hij as [Hij Hj]. induction Hij as [|j Hij IH]; intros Hi.
      - now apply number_le_refl.
      - apply (number_le_trans _ (nth j arr JsNumber.NaN)); [apply IH; [lia|exact Hi]|].
        replace (S j) with (j + 1)%nat by lia.
        apply not_gt_le; [apply Hnth; lia|apply Hnth; lia|]. apply H. lia. }
    apply G. apply Hnth. lia.
  - intros H j Hj. apply not_gt_le; [apply Hnth; lia|apply Hnth; lia|]. apply H. lia.
  - intros H i j Hij. unfold JsNumber.ge.
    assert (G : JsNumber.isNaN (nth i arr JsNumber.NaN) = false
                -> JsNumber.le (nth j arr JsNumber.NaN) (nth i arr JsNumber.NaN) = true).
    { destruct Hij as [Hij Hj]. induction Hij as [|j Hij IH]; intros Hi.
      - now apply number_le_refl.
      - apply (number_le_trans _ (nth j arr JsNumber.NaN)); [|apply IH; [lia|exact Hi]].
        replace (S j) with (j + 1)%nat by lia.
        apply (not_lt_ge (nth j arr JsNumber.NaN) (nth (j + 1) arr JsNumber.NaN));
          [apply Hnth; lia|apply Hnth; lia|]. apply H. lia. }
    apply G. apply Hnth. lia.
  - intros H j Hj. apply not_lt_ge; [apply Hnth; lia|apply Hnth; lia|]. apply H. lia.
Qed.

Lemma isSorted_any_two_places_witness :
  JsNumber.le (nth 0 catalogPrices JsNumber.NaN) (nth 5 catalogPrices JsNumber.NaN) = true
  /\ JsNumber.ge (nth 1 (rev catalogPrices) JsNumber.NaN)
                 (nth 4 (rev catalogPrices) JsNumber.NaN) = true.
Proof.
  split.
  - apply (proj1 (proj1 (isSorted_any_two_places catalogPrices
                           ltac:(repeat constructor)))); [reflexivity|cbn; lia].
  - apply (proj1 (proj2 (isSorted_any_two_places (rev catalogPrices)
                           ltac:(repeat constructor)))); [reflexivity|cbn; lia].
Defined.

(** X3: [isSortedAlphabetically] accepts an array exactly when, in lower
    case, no element comes after a later one in the order of strings,
    whatever the distance between the two; [isSortedReverseAlphabetically]
    exactly when none comes before a later one. *)
Theorem isSortedAlphabetically_any_two_places (arr : list string) :
  (Helpers.isSortedAlphabetically arr = true
   <-> forall i j, (i <= j < List.length arr)%nat ->
         String.leb (JsString.toLowerCase (nth i arr EmptyString))
                    (JsString.toLowerCase (nth j arr EmptyString)) = true)
  /\ (Helpers.isSortedReverseAlphabetically arr = true
      <-> forall i j, (i <= j < List.length arr)%nat ->
            String.leb (JsString.toLowerCase (nth j arr EmptyString))
                       (JsString.toLowerCase (nth i arr EmptyString)) = true).
Proof.
  unfold Helpers.isSortedAlphabetically, Helpers.isSortedReverseAlphabetically.
  rewrite !alphabeticalLoop_whole. split; split.
  - intros H.
    apply (adjacent_global
             (fun a b => String.leb (JsString.toLowerCase a) (JsString.toLowerCase b) = true)).
    + intros a. apply string_leb_refl.
    + intros a b c. apply string_leb_trans.
    + intros j Hj. specialize (H j Hj). rewrite string_gt_leb in H.
      now apply negb_false_iff in H.
  - intros H j Hj. rewrite string_gt_leb. apply negb_false_iff. apply H. lia.
  - intros H.
    apply (adjacent_global
             (fun a b => String.leb (JsString.toLowerCase b) (JsString.toLowerCase a) = true)).
    + intros a. apply string_leb_refl.
    + intros a b c H1 H2. exact (string_leb_trans _ _ _ H2 H1).
    + intros j Hj. specialize (H j Hj). rewrite string_lt_leb in H.
      now apply negb_false_iff in H.
  - intros H j Hj. rewrite string_lt_leb. apply negb_false_iff. apply H. lia.
Qed.

Lemma toLowerCase_nth (arr : list string) (i : nat) :
  JsString.toLowerCase (nth i arr EmptyString)
  = nth i (map JsString.toLowerCase arr) EmptyString.
Proof. exact (eq_sym (map_nth JsString.toLowerCase arr EmptyString i)). Qed.

Lemma alphabeticalLoop_lower bad (a b : list string) :
  map JsString.toLowerCase a = map JsString.toLowerCase b ->
  Helpers.alphabeticalLoop bad a (List.length a - 1) 0
  = Helpers.alphabeticalLoop bad b (List.length b - 1) 0.
Proof.
  intros Hab.
  assert (Hlen : List.length a = List.length b).
  { rewrite <- (length_map JsString.toLowerCase a), Hab. apply length_map. }
  apply eq_true_iff_eq. rewrite !alphabeticalLoop_whole, Hlen.
  split; intros H j Hj; specialize (H j Hj);
    rewrite !toLowerCase_nth in *; [rewrite <- Hab|rewrite Hab]; exact H.
Qed.

(** X4: the alphabetical checks do not see the case of the letters: two
    arrays that are the same in lower case get the same answers. *)
Theorem alphabetical_checks_ignore_case (a b : list string) :
  map JsString.toLowerCase a = map JsString.toLowerCase b ->
  Helpers.isSortedAlphabetically a = Helpers.isSortedAlphabetically b
  /\ Helpers.isSortedReverseAlphabetically a = Helpers.isSortedReverseAlphabetically b.
Proof.
  intros H. split; now apply alphabeticalLoop_lower.
Qed.

Lemma alphabetical_checks_ignore_case_witness :
  Helpers.isSortedAlphabetically ["Sauce Labs Backpack"; "sauce labs bike light"]
  = Helpers.isSortedAlphabetically ["SAUCE LABS BACKPACK"; "Sauce Labs Bike Light"]
  /\ Helpers.isSortedReverseAlphabetically ["Sauce Labs Backpack"; "sauce labs bike light"]
     = Helpers.isSortedReverseAlphabetically ["SAUCE LABS BACKPACK"; "Sauce Labs Bike Light"].
Proof.
  apply (alphabetical_checks_ignore_case
           ["Sauce Labs Backpack"; "sauce labs bike light"]
           ["SAUCE LABS BACKPACK"; "Sauce Labs Bike Light"]).
  reflexivity.
Defined.

(** ** Slugs *)

Lemma trimStart_strip (s : string) :
  JsString.trimStart s = JsString.stripStart JsString.isWhiteSpace s.
Proof. induction s as [|c r IH]; [reflexivity|]. cbn. now rewrite IH. Qed.

Lemma trimEnd_strip (s : string) :
  JsString.trimEnd s = JsString.stripEnd JsString.isWhiteSpace s.
Proof. induction s as [|c r IH]; [reflexivity|]. cbn. now rewrite IH. Qed.

Section Strip.
Variables p q : ascii -> bool.

Lemma allChars_stripStart (s : string) :
  allChars p s = true -> allChars p (JsString.stripStart q s) = true.
Proof.
  induction s as [|c r IH]; [reflexivity|]. cbn [JsString.stripStart].
  intros H. destruct (q c); [|exact H].
  cbn in H. apply andb_true_iff in H. now apply IH.
Qed.

Lemma allChars_stripEnd (s : string) :
  allChars p s = true -> allChars p (JsString.stripEnd q s) = true.
Proof.
  induction s as [|c r IH]; [reflexivity|]. cbn [JsString.stripEnd allChars].
  intros H. apply andb_true_iff in H. destruct H as [Hc Hr].
  destruct (q c && JsString.isEmpty _); [reflexivity|].
  cbn. rewrite Hc. now apply IH.
Qed.

Lemma headIs_stripStart (s : string) : headIs q (JsString.stripStart q s) = false.
Proof.
  induction s as [|c r IH]; [reflexivity|]. cbn [JsString.stripStart].
  destruct (q c) eqn:Hc; [exact IH|]. exact Hc.
Qed.

Lemma lastIs_stripEnd (s : string) : lastIs q (JsString.stripEnd q s) = false.
Proof.
  induction s as [|c r IH]; [reflexivity|]. cbn [JsString.stripEnd].
  destruct (JsString.stripEnd q r) as [|d t] eqn:Hr; cbn [JsString.isEmpty].
  - rewrite andb_true_r. destruct (q c) eqn:Hc; [reflexivity|]. cbn. exact Hc.
  - rewrite andb_false_r. exact IH.
Qed.

(** What [stripEnd] leaves of [s] starts as [s] does. *)
Lemma headIs_stripEnd (s : string) :
  headIs p s = false -> headIs p (JsString.stripEnd q s) = false.
Proof.
  destruct s as [|c r]; [reflexivity|]. cbn [JsString.stripEnd headIs].
  intros Hc. destruct (q c && JsString.isEmpty _); [reflexivity|exact Hc].
Qed.

Lemma doubled_stripStart (s : string) :
  doubled p s = false -> doubled p (JsString.stripStart q s) = false.
Proof.
  induction s as [|c r IH]; [reflexivity|]. cbn [JsString.stripStart].
  intros H. destruct (q c); [|exact H].
  cbn in H. apply orb_false_iff in H. now apply IH.
Qed.

Lemma doubled_stripEnd (s : string) :
  doubled p s = false -> doubled p (JsString.stripEnd q s) = false.
Proof.
  induction s as [|c r IH]; [reflexivity|]. cbn [JsString.stripEnd doubled].
  intros H. apply orb_false_iff in H. destruct H as [Hc Hr].
  destruct (q c && JsString.isEmpty _); [reflexivity|].
  cbn [doubled]. rewrite (IH Hr), orb_false_r.
  destruct (p c); [|reflexivity]. cbn in *. now apply headIs_stripEnd.
Qed.

Lemma stripStart_id (s : string) : headIs q s = false -> JsString.stripStart q s = s.
Proof. destruct s as [|c r]; [reflexivity|]. cbn. now intros ->. Qed.

Lemma stripEnd_id (s : string) : lastIs q s = false -> JsString.stripEnd q s = s.
Proof.
  induction s as [|c r IH]; [reflexivity|]. cbn [JsString.stripEnd].
  destruct r as [|d t].
  - cbn. now intros ->.
  - intros H. rewrite (IH H). cbn [JsString.isEmpty]. now rewrite andb_false_r.
Qed.

Lemma headIs_allChars (s : string) :
  (forall c, q c = true -> p c = false) -> allChars q s = true -> headIs p s = false.
Proof.
  intros Hpq. destruct s as [|c r]; [reflexivity|]. cbn.
  intros H. apply andb_true_iff in H. now apply Hpq.
Qed.

Lemma lastIs_allChars (s : string) :
  (forall c, q c = true -> p c = false) -> allChars q s = true -> lastIs p s = false.
Proof.
  intros Hpq. induction s as [|c r IH]; [reflexivity|]. cbn [allChars lastIs].
  intros H. apply andb_true_iff in H. destruct H as [Hc Hr].
  destruct r; [now apply Hpq|now apply IH].
Qed.
End Strip.

(** The classes, character by character. *)
Lemma lowered_cases (c : ascii) :
  slugRemoved (JsString.lowerChar c) = false ->
  isKept (JsString.lowerChar c) = true.
Proof.
  destruct c as [[] [] [] [] [] [] [] []]; vm_compute; intros H;
    try discriminate; reflexivity.
Qed.

Lemma slugChar_facts (c : ascii) :
  isSlugChar c = true ->
  JsString.lowerChar c = c /\ JsString.isWhiteSpace c = false /\ slugRemoved c = false
  /\ slugSeparator c = JsString.isHyphen c.
Proof.
  destruct c as [[] [] [] [] [] [] [] []]; vm_compute; intros H;
    try discriminate; auto.
Qed.

Lemma lowerChar_idem (c : ascii) :
  JsString.lowerChar (JsString.lowerChar c) = JsString.lowerChar c.
Proof. destruct c as [[] [] [] [] [] [] [] []]; reflexivity. Qed.

Lemma isKept_cases (c : ascii) :
  isKept c = true ->
  slugSeparator c = true /\ isSlugLetter c = false
  \/ slugSeparator c = false /\ isSlugLetter c = true.
Proof.
  unfold isKept. destruct (isSlugLetter c), (slugSeparator c); cbn; try discriminate; auto.
Qed.

(** The steps of [toSlug], one after the other. *)
Lemma toLowerCase_lowered (s : string) : allChars isLowered (JsString.toLowerCase s) = true.
Proof.
  induction s as [|c r IH]; [reflexivity|]. cbn. rewrite IH, andb_true_r.
  unfold isLowered. rewrite lowerChar_idem. apply Ascii.eqb_refl.
Qed.

Lemma removeAll_kept (s : string) :
  allChars isLowered s = true -> allChars isKept (JsString.removeAll slugRemoved s) = true.
Proof.
  induction s as [|c r IH]; [reflexivity|]. cbn [allChars JsString.removeAll].
  intros H. apply andb_true_iff in H. destruct H as [Hc Hr].
  destruct (slugRemoved c) eqn:Hn; [now apply IH|].
  cbn. rewrite (IH Hr), andb_true_r.
  unfold isLowered in Hc. apply Ascii.eqb_eq in Hc.
  rewrite <- Hc. apply lowered_cases. now rewrite Hc.
Qed.

Lemma collapseRuns_shape (s : string) :
  allChars isKept s = true ->
  forall inRun,
    allChars isSlugChar (JsString.collapseRuns slugSeparator inRun s) = true
    /\ doubled JsString.isHyphen (JsString.collapseRuns slugSeparator inRun s) = false
    /\ (inRun = true ->
        headIs JsString.isHyphen (JsString.collapseRuns slugSeparator inRun s) = false).
Proof.
  induction s as [|c r IH]; [intros _ inRun; cbn; auto|].
  cbn [allChars]. intros H inRun. apply andb_true_iff in H. destruct H as [Hc Hr].
  cbn [JsString.collapseRuns].
  destruct (isKept_cases c Hc) as [[Hs Hl]|[Hs Hl]]; rewrite Hs.
  - destruct inRun.
    + exact (IH Hr true).
    + destruct (IH Hr true) as (H1 & H2 & H3). repeat split.
      * cbn. exact H1.
      * cbn [doubled]. rewrite H2, (H3 eq_refl). reflexivity.
      * discriminate.
  - destruct (IH Hr false) as (H1 & H2 & _).
    assert (Hh : JsString.isHyphen c = false).
    { destruct (JsString.isHyphen c) eqn:Hh; [|reflexivity].
      unfold slugSeparator in Hs. rewrite Hh, orb_true_r in Hs. discriminate. }
    repeat split.
    + cbn. unfold isSlugChar at 1. rewrite Hl. exact H1.
    + cbn [doubled]. rewrite Hh, H2. reflexivity.
    + intros _. cbn. exact Hh.
Qed.

Lemma toSlug_steps (s : string) :
  Helpers.toSlug s
  = JsString.stripEnd JsString.isHyphen
      (JsString.stripStart JsString.isHyphen
         (JsString.collapseRuns slugSeparator false
            (JsString.removeAll slugRemoved (JsString.trim (JsString.toLowerCase s))))).
Proof. reflexivity. Qed.

Lemma toSlug_isSlug (s : string) : isSlug (Helpers.toSlug s) = true.
Proof.
  rewrite toSlug_steps.
  assert (Hk : allChars isKept
                 (JsString.removeAll slugRemoved
                    (JsString.trim (JsString.toLowerCase s))) = true).
  { apply removeAll_kept. unfold JsString.trim.
    rewrite trimStart_strip, trimEnd_strip.
    apply allChars_stripEnd, allChars_stripStart, toLowerCase_lowered. }
  destruct (collapseRuns_shape _ Hk false) as (H1 & H2 & _).
  set (t := JsString.collapseRuns slugSeparator false _) in *.
  unfold isSlug.
  rewrite allChars_stripEnd by now apply allChars_stripStart.
  rewrite headIs_stripEnd by apply headIs_stripStart.
  rewrite lastIs_stripEnd.
  rewrite doubled_stripEnd by now apply doubled_stripStart.
  reflexivity.
Qed.

Lemma toLowerCase_slug (s : string) :
  allChars isSlugChar s = true -> JsString.toLowerCase s = s.
Proof.
  induction s as [|c r IH]; [reflexivity|]. cbn.
  intros H. apply andb_true_iff in H. destruct H as [Hc Hr].
  destruct (slugChar_facts c Hc) as [-> _]. now rewrite IH.
Qed.

Lemma removeAll_slug (s : string) :
  allChars isSlugChar s = true -> JsString.removeAll slugRemoved s = s.
Proof.
  induction s as [|c r IH]; [reflexivity|]. cbn [allChars JsString.removeAll].
  intros H. apply andb_true_iff in H. destruct H as [Hc Hr].
  destruct (slugChar_facts c Hc) as (_ & _ & -> & _). now rewrite IH.
Qed.

Lemma collapseRuns_slug (s : string) :
  allChars isSlugChar s = true -> doubled JsString.isHyphen s = false ->
  forall inRun, (inRun = true -> headIs JsString.isHyphen s = false) ->
  JsString.collapseRuns slugSeparator inRun s = s.
Proof.
  induction s as [|c r IH]; [reflexivity|]. cbn [allChars doubled headIs].
  intros H Hd inRun Hrun. apply andb_true_iff in H. destruct H as [Hc Hr].
  apply orb_false_iff in Hd. destruct Hd as [Hd1 Hd2].
  cbn [JsString.collapseRuns].
  destruct (slugChar_facts c Hc) as (_ & _ & _ & ->).
  destruct (JsString.isHyphen c) eqn:Hh.
  - destruct inRun; [specialize (Hrun eq_refl); discriminate|].
    unfold JsString.isHyphen in Hh. apply Ascii.eqb_eq in Hh. subst c.
    rewrite (IH Hr Hd2 true); [reflexivity|]. intros _. exact Hd1.
  - rewrite (IH Hr Hd2 false); [reflexivity|discriminate].
Qed.

Lemma toSlug_of_slug (s : string) : isSlug s = true -> Helpers.toSlug s = s.
Proof.
  unfold isSlug. intros H.
  apply andb_true_iff in H. destruct H as [H Hd].
  apply andb_true_iff in H. destruct H as [H Hl].
  apply andb_true_iff in H. destruct H as [Ha Hh].
  apply negb_true_iff in Hd, Hl, Hh.
  rewrite toSlug_steps, (toLowerCase_slug s Ha).
  assert (Hws : forall c, isSlugChar c = true -> JsString.isWhiteSpace c = false).
  { intros c Hc. now destruct (slugChar_facts c Hc) as (_ & -> & _). }
  unfold JsString.trim. rewrite trimStart_strip, trimEnd_strip.
  rewrite (stripStart_id _ s) by exact (headIs_allChars _ _ s Hws Ha).
  rewrite (stripEnd_id _ s) by exact (lastIs_allChars _ _ s Hws Ha).
  rewrite (removeAll_slug s Ha).
  rewrite (collapseRuns_slug s Ha Hd false) by discriminate.
  rewrite (stripStart_id _ s Hh). exact (stripEnd_id _ s Hl).
Qed.

(** X5: whatever the string, [toSlug] gives a slug: only digits, the
    letters a to z and hyphens, no hyphen at either end and no two
    hyphens in a row. *)
Theorem toSlug_shape (str : string) :
  allChars isSlugChar (Helpers.toSlug str) = true
  /\ headIs JsString.isHyphen (Helpers.toSlug str) = false
  /\ lastIs JsString.isHyphen (Helpers.toSlug str) = false
  /\ doubled JsString.isHyphen (Helpers.toSlug str) = false.
Proof.
  pose proof (toSlug_isSlug str) as H. unfold isSlug in H.
  apply andb_true_iff in H. destruct H as [H Hd].
  apply andb_true_iff in H. destruct H as [H Hl].
  apply andb_true_iff in H. destruct H as [Ha Hh].
  apply negb_true_iff in Hd, Hl, Hh. auto.
Qed.

(** X6: [toSlug] leaves every slug as it is, so applying it twice is
    applying it once. *)
Theorem toSlug_idempotent (str : string) :
  Helpers.toSlug (Helpers.toSlug str) = Helpers.toSlug str
  /\ (isSlug str = true -> Helpers.toSlug str = str).
Proof.
  split; [apply toSlug_of_slug, toSlug_isSlug|apply toSlug_of_slug].
Qed.

Lemma toSlug_samples :
  map Helpers.toSlug
      ["  Sauce Labs Bolt T-Shirt "; "Test.allTheThings() T-Shirt (Red)";
       "__a -- b__"; "!!!"; EmptyString]
  = ["sauce-labs-bolt-t-shirt"; "testallthethings-t-shirt-red"; "a-b";
     EmptyString; EmptyString].
Proof. reflexivity. Qed.

(** ** Percentages *)

Section RoundedSignificand.
Local Open Scope Z_scope.

(** Rounding a significand that is not negative never gives a NaN. *)
Lemma shr_1_nonneg (mrs : shr_record) : 0 <= shr_m mrs -> 0 <= shr_m (shr_1 mrs).
Proof.
  destruct mrs as [m r s]. cbn [shr_m]. intros Hm.
  destruct m as [|[p|p|]|p]; cbn; lia.
Qed.

Lemma iter_shr_1_nonneg (p : positive) (mrs : shr_record) :
  0 <= shr_m mrs -> 0 <= shr_m (iter_pos shr_1 p mrs).
Proof.
  revert mrs. induction p as [p IH|p IH|]; intros mrs Hm; cbn [iter_pos].
  - apply IH, IH, shr_1_nonneg, Hm.
  - apply IH, IH, Hm.
  - apply shr_1_nonneg, Hm.
Qed.

Lemma shr_fexp_nonneg (m e : Z) (l : location) :
  0 <= m -> 0 <= shr_m (fst (shr_fexp JsNumber.prec JsNumber.emax m e l)).
Proof.
  intros Hm. unfold shr_fexp, shr.
  assert (H0 : 0 <= shr_m (shr_record_of_loc m l)).
  { destruct l as [|[]]; exact Hm. }
  destruct (fexp _ _ _ - e); cbn [fst]; auto using iter_shr_1_nonneg.
Qed.

Lemma round_nearest_even_nonneg (m : Z) (l : location) :
  0 <= m -> 0 <= round_nearest_even m l.
Proof.
  intros Hm. unfold round_nearest_even.
  destruct l as [|[]]; try lia. destruct (Z.even m); lia.
Qed.

Lemma binary_round_aux_not_nan (s : bool) (m e : Z) (l : location) :
  0 <= m -> JsNumber.isNaN (binary_round_aux JsNumber.prec JsNumber.emax s m e l) = false.
Proof.
  intros Hm. unfold binary_round_aux.
  pose proof (shr_fexp_nonneg m e l Hm) as H1.
  destruct (shr_fexp JsNumber.prec JsNumber.emax m e l) as [mrs' e'].
  cbn [fst] in H1.
  pose proof (shr_fexp_nonneg _ e' loc_Exact
                (round_nearest_even_nonneg _ (loc_of_shr_record mrs') H1)) as H2.
  destruct (shr_fexp JsNumber.prec JsNumber.emax _ e' loc_Exact) as [mrs'' e''].
  cbn [fst] in H2.
  destruct (shr_m mrs'') as [|p|p]; [reflexivity| |lia].
  destruct (e'' <=? _); reflexivity.
Qed.

Lemma div_not_nan (a b : JsNumber.number) :
  JsNumber.isFinite a = true -> JsNumber.isNaN b = false ->
  JsNumber.strictEquals b JsNumber.zero = false ->
  JsNumber.isNaN (JsNumber.div a b) = false.
Proof.
  destruct a as [sa|sa| |sa ma ea], b as [sb|sb| |sb mb eb]; cbn;
    try discriminate; try reflexivity.
  intros _ _ _.
  unfold SFdiv_core_binary.
  set (m' := match _ with 0 => Zpos ma | Zpos _ => _ | Zneg _ => 0 end).
  assert (Hm' : 0 <= m').
  { unfold m'. destruct (_ - _ - _); try lia. apply Z.shiftl_nonneg. lia. }
  pose proof (Z.div_eucl_eq m' (Zpos mb) ltac:(lia)) as Heq.
  pose proof (Z.mod_pos_bound m' (Zpos mb) ltac:(lia)) as Hmod.
  unfold Z.modulo in Hmod.
  destruct (Z.div_eucl m' (Zpos mb)) as [q r].
  apply binary_round_aux_not_nan. nia.
Qed.

Lemma mul_hundred_not_nan (a : JsNumber.number) :
  JsNumber.isNaN a = false -> JsNumber.isNaN (JsNumber.mul a Helpers.hundred) = false.
Proof.
  destruct a as [sa|sa| |sa ma ea]; cbn; try discriminate; try reflexivity.
  intros _. apply binary_round_aux_not_nan. lia.
Qed.

(** A finite Number that is not a zero, divided by itself, is 1. *)
Lemma div_self (s : bool) (m : positive) (e : Z) :
  JsNumber.div (S754_finite s m e) (S754_finite s m e) = JsNumber.ofDecimal false 1 0.
Proof.
  unfold JsNumber.div, SFdiv, SFdiv_core_binary.
  rewrite (Z.sub_diag e), (Z.sub_diag (Zdigits2 (Zpos m) + e)), xorb_nilpotent.
  change (IntDef.Z.min (fexp JsNumber.prec JsNumber.emax 0) 0) with (-53).
  change (0 - -53) with 53.
  cbv iota beta. change IntDef.Z.div_eucl with Z.div_eucl.
  change IntDef.Z.shiftl with Z.shiftl.
  assert (H : Z.div_eucl (Z.shiftl (Zpos m) 53) (Zpos m) = (2 ^ 53, 0)).
  { rewrite Z.shiftl_mul_pow2 by lia.
    pose proof (Z.div_eucl_eq (Zpos m * 2 ^ 53) (Zpos m) ltac:(lia)) as Heq.
    pose proof (Z.mod_pos_bound (Zpos m * 2 ^ 53) (Zpos m) ltac:(lia)) as Hmod.
    unfold Z.modulo in Hmod.
    destruct (Z.div_eucl (Zpos m * 2 ^ 53) (Zpos m)) as [q r].
    assert (q = 2 ^ 53) by nia. subst q. f_equal. lia. }
  rewrite H. unfold new_location.
  destruct (Z.even (Zpos m)); reflexivity.
Qed.
End RoundedSignificand.

(** X7: with a total of zero, of either sign, [calculatePercentage]
    answers 0 whatever the value; and for a finite value and a total
    that is not NaN its answer is never NaN. *)
Theorem calculatePercentage_never_nan (value total : JsNumber.number) :
  (forall s, total = S754_zero s -> Helpers.calculatePercentage value total = JsNumber.zero)
  /\ (JsNumber.isFinite value = true -> JsNumber.isNaN total = false ->
      JsNumber.isNaN (Helpers.calculatePercentage value total) = false).
Proof.
  split.
  - intros s ->. reflexivity.
  - intros Hv Ht. unfold Helpers.calculatePercentage.
    destruct (JsNumber.strictEquals total JsNumber.zero) eqn:Hz; [reflexivity|].
    apply mul_hundred_not_nan, div_not_nan; assumption.
Qed.

Lemma calculatePercentage_never_nan_witness :
  Helpers.calculatePercentage JsNumber.NaN (S754_zero true) = JsNumber.zero
  /\ JsNumber.isNaN (Helpers.calculatePercentage (JsNumber.ofDecimal false 1 0)
                       (S754_infinity false)) = false.
Proof.
  split.
  - exact (proj1 (calculatePercentage_never_nan JsNumber.NaN (S754_zero true))
             true eq_refl).
  - exact (proj2 (calculatePercentage_never_nan (JsNumber.ofDecimal false 1 0)
                    (S754_infinity false)) eq_refl eq_refl).
Defined.

(** X8: the percentage of a finite Number other than zero in itself is
    exactly 100. *)
Theorem calculatePercentage_of_itself (s : bool) (m : positive) (e : Z) :
  Helpers.calculatePercentage (S754_finite s m e) (S754_finite s m e) = Helpers.hundred.
Proof.
  unfold Helpers.calculatePercentage.
  replace (JsNumber.strictEquals (S754_finite s m e) JsNumber.zero) with false
    by (destruct s; reflexivity).
  rewrite div_self. reflexivity.
Qed.

Lemma calculatePercentage_samples :
  Helpers.calculatePercentage (JsNumber.parseFloat "1") (JsNumber.parseFloat "4")
    = JsNumber.parseFloat "25"
  /\ Helpers.calculatePercentage (JsNumber.parseFloat "1") (JsNumber.parseFloat "3")
     = JsNumber.parseFloat "33.33333333333333"
  /\ Helpers.calculatePercentage (JsNumber.parseFloat "7.99") (JsNumber.parseFloat "49.99")
     = JsNumber.parseFloat "15.983196639327865".
Proof. repeat split; vm_compute; reflexivity. Qed.

(** ** Reading texts *)

Lemma trimOr_empty (t : string) : trimOr EmptyString (Some t) = JsString.trim t.
Proof.
  unfold trimOr. destruct (JsString.trim t); reflexivity.
Qed.

Lemma trim_ends (t : string) :
  headIs JsString.isWhiteSpace (JsString.trim t) = false
  /\ lastIs JsString.isWhiteSpace (JsString.trim t) = false.
Proof.
  unfold JsString.trim. rewrite trimStart_strip, trimEnd_strip. split.
  - apply headIs_stripEnd, headIs_stripStart.
  - apply lastIs_stripEnd.
Qed.

(** X9: [getText] fulfils with the text content trimmed, which has no
    white space at either end and is the empty string for a null text
    content, never null; it rejects exactly as the read of the engine
    does. *)
Theorem getText_is_trimmed {W} (E : Engine W) (selector : string) (w : W) :
  (forall text,
      Playwright.textContent E (PageLocator selector) w = Ok text ->
      BasePage.getText E selector w = (Ok (trimOr EmptyString text), w)
      /\ headIs JsString.isWhiteSpace (trimOr EmptyString text) = false
      /\ lastIs JsString.isWhiteSpace (trimOr EmptyString text) = false
      /\ (text = None -> trimOr EmptyString text = EmptyString))
  /\ (forall e,
      Playwright.textContent E (PageLocator selector) w = Throw e ->
      BasePage.getText E selector w = (Throw e, w)).
Proof.
  unfold BasePage.getText. split.
  - intros text Ht. run. rewrite Ht. split; [reflexivity|].
    destruct text as [t|]; [|repeat split].
    rewrite trimOr_empty. destruct (trim_ends t) as [H1 H2].
    repeat split; [exact H1|exact H2|discriminate].
  - intros e Ht. run. now rewrite Ht.
Qed.

Lemma getText_is_trimmed_witness :
  BasePage.getText (Dom.engine Dom.inert) LoginPage.errorMessage loginWithBanner
    = (Ok "Epic sadface: Username is required", loginWithBanner)
  /\ BasePage.getText (Dom.engine Dom.inert) LoginPage.errorMessage (Dom.page [])
     = (Throw (EngineError "Timeout exceeded"), Dom.page []).
Proof.
  split.
  - exact (proj1 (proj1 (getText_is_trimmed (Dom.engine Dom.inert)
                           LoginPage.errorMessage loginWithBanner)
                    (Some "  Epic sadface: Username is required ") eq_refl)).
  - exact (proj2 (getText_is_trimmed (Dom.engine Dom.inert)
                    LoginPage.errorMessage (Dom.page []))
             (EngineError "Timeout exceeded") eq_refl).
Defined.

Section Texts.
Context {W : Type} (E : Engine W).

Lemma getAllTextLoop_readable (w : W) elements texts :
  Readable E w elements texts ->
  forall sofar,
    BasePage.getAllTextLoop E elements sofar w
    = (Ok (sofar ++ map (trimOr EmptyString) texts)%list, w).
Proof.
  induction 1 as [|element text elements texts Hread _ IH]; intros sofar.
  - cbn. unfold ret. now rewrite List.app_nil_r.
  - cbn [BasePage.getAllTextLoop map]. run. rewrite Hread, IH, <- app_assoc. reflexivity.
Qed.

Lemma getAllTextLoop_fails (w : W) before texts element after e :
  Readable E w before texts ->
  Playwright.textContent E element w = Throw e ->
  forall sofar,
    BasePage.getAllTextLoop E (before ++ element :: after) sofar w = (Throw e, w).
Proof.
  induction 1 as [|b t before texts Hread _ IH]; intros Hfail sofar.
  - cbn. run. now rewrite Hfail.
  - cbn [app BasePage.getAllTextLoop]. run. rewrite Hread. now apply IH.
Qed.

Lemma getAllText_readable (selector : string) (w : W) elements texts :
  Playwright.all E (PageLocator selector) w = Ok elements ->
  Readable E w elements texts ->
  BasePage.getAllText E selector w = (Ok (map (trimOr EmptyString) texts), w).
Proof.
  intros Hall Hread. unfold BasePage.getAllText. run. rewrite Hall.
  now rewrite (getAllTextLoop_readable w elements texts Hread []).
Qed.

Lemma includes_iff (arr : list string) (x : string) :
  JsString.includes arr x = true <-> In x arr.
Proof.
  unfold JsString.includes. rewrite existsb_exists. split.
  - intros [y [Hin Heq]]. apply String.eqb_eq in Heq. now subst.
  - intros Hin. exists x. split; [exact Hin|apply String.eqb_refl].
Qed.

Lemma includes_texts (texts : list (option string)) (name : string) :
  JsString.includes (map (trimOr EmptyString) texts) name = true
  <-> exists text, In text texts /\ trimOr EmptyString text = name.
Proof.
  rewrite includes_iff, in_map_iff. split; intros [t [H1 H2]]; exists t; auto.
Qed.

Lemma named_among (selector name : string) (w : W) elements texts :
  Playwright.all E (PageLocator selector) w = Ok elements ->
  Readable E w elements texts ->
  exists answer,
    (names <- BasePage.getAllText E selector ;; ret (JsString.includes names name)) w
    = (Ok answer, w)
    /\ (answer = true <-> exists text, In text texts /\ trimOr EmptyString text = name).
Proof.
  intros Hall Hread. eexists. split.
  - unfold bind at 1. rewrite (getAllText_readable selector w elements texts Hall Hread).
    reflexivity.
  - apply includes_texts.
Qed.
End Texts.

(** X10: [getAllText] fulfils with one entry for every matched element,
    in order, each the trimmed text of its element (the empty string
    for a null one); when an element cannot be read it rejects with the
    error of the first such element, and with that of the engine when
    the elements cannot be listed. *)
Theorem getAllText_reads_each {W} (E : Engine W) (selector : string) (w : W) :
  (forall elements texts,
      Playwright.all E (PageLocator selector) w = Ok elements ->
      Readable E w elements texts ->
      BasePage.getAllText E selector w = (Ok (map (trimOr EmptyString) texts), w))
  /\ (forall before texts element after e,
      Playwright.all E (PageLocator selector) w = Ok (before ++ element :: after)%list ->
      Readable E w before texts ->
      Playwright.textContent E element w = Throw e ->
      BasePage.getAllText E selector w = (Throw e, w))
  /\ (forall e,
      Playwright.all E (PageLocator selector) w = Throw e ->
      BasePage.getAllText E selector w = (Throw e, w)).
Proof.
  repeat split.
  - intros elements texts. apply getAllText_readable.
  - intros before texts element after e Hall Hread Hfail.
    unfold BasePage.getAllText. run. rewrite Hall.
    now rewrite (getAllTextLoop_fails E w before texts element after e Hread Hfail []).
  - intros e Hall. unfold BasePage.getAllText. run. now rewrite Hall.
Qed.

Lemma cartListing_readable :
  Readable (Dom.engine Dom.inert) cartListing
    [NthLocator (PageLocator CartPage.cartItemName) 0;
     NthLocator (PageLocator CartPage.cartItemName) 1]
    [Some "Sauce Labs Backpack"; Some " Sauce Labs Bike Light "].
Proof. repeat constructor. Qed.

Lemma getAllText_reads_each_witness :
  BasePage.getAllText (Dom.engine Dom.inert) CartPage.cartItemName cartListing
    = (Ok ["Sauce Labs Backpack"; "Sauce Labs Bike Light"], cartListing)
  /\ BasePage.getAllText (Dom.engine Dom.inert) CartPage.cartItemName (Dom.closedPage [])
     = (Throw Dom.pageClosed, Dom.closedPage []).
Proof.
  split.
  - exact (proj1 (getAllText_reads_each (Dom.engine Dom.inert)
                    CartPage.cartItemName cartListing)
             _ _ eq_refl cartListing_readable).
  - exact (proj2 (proj2 (getAllText_reads_each (Dom.engine Dom.inert)
                           CartPage.cartItemName (Dom.closedPage [])))
             Dom.pageClosed eq_refl).
Defined.

(** X11: when the name elements can be read, [isProductDisplayed],
    [isProductInCart] and [isProductInOrder] answer [true] exactly when
    the trimmed text of one of them is the name asked for. *)
Theorem product_is_listed {W} (E : Engine W) (name : string) (w : W)
  (elements : list Locator) (texts : list (option string)) :
  Readable E w elements texts ->
  (Playwright.all E (PageLocator InventoryPage.productName) w = Ok elements ->
   exists answer, InventoryPage.isProductDisplayed E name w = (Ok answer, w)
     /\ (answer = true <-> exists text, In text texts /\ trimOr EmptyString text = name))
  /\ (Playwright.all E (PageLocator CartPage.cartItemName) w = Ok elements ->
      exists answer, CartPage.isProductInCart E name w = (Ok answer, w)
        /\ (answer = true <-> exists text, In text texts /\ trimOr EmptyString text = name))
  /\ (Playwright.all E (PageLocator CheckoutStepTwoPage.cartItemName) w = Ok elements ->
      exists answer, CheckoutStepTwoPage.isProductInOrder E name w = (Ok answer, w)
        /\ (answer = true <-> exists text, In text texts /\ trimOr EmptyString text = name)).
Proof.
  intros Hread. repeat split; intros Hall.
  - exact (named_among E _ name w elements texts Hall Hread).
  - exact (named_among E _ name w elements texts Hall Hread).
  - exact (named_among E _ name w elements texts Hall Hread).
Qed.

Lemma product_is_listed_witness :
  exists answer,
    CartPage.isProductInCart (Dom.engine Dom.inert) "Sauce Labs Bike Light" cartListing
    = (Ok answer, cartListing)
    /\ (answer = true
        <-> exists text,
              In text [Some "Sauce Labs Backpack"; Some " Sauce Labs Bike Light "]
              /\ trimOr EmptyString text = "Sauce Labs Bike Light").
Proof.
  exact (proj1 (proj2 (product_is_listed (Dom.engine Dom.inert) "Sauce Labs Bike Light"
                         cartListing _ _ cartListing_readable))
           eq_refl).
Defined.

(** X13: [clickProductByName] and [clickProductImageByName] keep the
    contract of the by-name operations: they click the title, or the
    image, of the first item whose trimmed title is the name, reject
    with their not-found error when there is none, and fulfil only
    after such a click. *)
Theorem click_by_name_operations {W} (E : Engine W) (name : string) (w : W) :
  ByNameContract E InventoryPage.productItems InventoryPage.productName
    InventoryPage.productName
    ("Product " ++ JsString.quoted name ++ " not found to click")
    (InventoryPage.clickProductByName E name) name w
  /\ ByNameContract E InventoryPage.productItems InventoryPage.productName
       "img"
       ("Product image for " ++ JsString.quoted name ++ " not found")
       (InventoryPage.clickProductImageByName E name) name w.
Proof.
  split; apply by_name_contract.
Qed.

Lemma click_by_name_operations_witness :
  InventoryPage.clickProductByName (Dom.engine Dom.inert) "Sauce Labs Bike Light"
      inventoryOfTwo
    = afterClick (Dom.engine Dom.inert)
        (SubLocator (NthLocator (PageLocator InventoryPage.productItems) 1)
           InventoryPage.productName) inventoryOfTwo
  /\ InventoryPage.clickProductImageByName (Dom.engine Dom.inert) "Sauce Labs Onesie"
      inventoryOfTwo
    = (Throw (Error ("Product image for " ++ JsString.quoted "Sauce Labs Onesie"
                       ++ " not found")),
       inventoryOfTwo).
Proof.
  split.
  - destruct (click_by_name_operations (Dom.engine Dom.inert)
                "Sauce Labs Bike Light" inventoryOfTwo) as [[Hfound _] _].
    apply (Hfound [NthLocator (PageLocator InventoryPage.productItems) 0] _ []).
    + reflexivity.
    + constructor; [|constructor]. eexists. split; reflexivity.
    + eexists. split; reflexivity.
  - destruct (click_by_name_operations (Dom.engine Dom.inert)
                "Sauce Labs Onesie" inventoryOfTwo) as [_ [_ [Hnone _]]].
    apply (Hnone [NthLocator (PageLocator InventoryPage.productItems) 0;
                  NthLocator (PageLocator InventoryPage.productItems) 1]).
    + reflexivity.
    + repeat constructor; eexists; split; reflexivity.
Defined.

(** ** The emptied cart *)

Section Emptied.
Context {W : Type} (E : Engine W).

Lemma round_count (w w1 : W) (n : nat) :
  (CartPage.removeItemByIndex E JsNumber.zero ;;;
   BasePage.waitForTimeout E 300 ;;;
   CartPage.getCartItemCount E) w = (Ok n, w1) ->
  Playwright.count E (PageLocator CartPage.cartItems) w1 = Ok n.
Proof.
  unfold bind.
  destruct (CartPage.removeItemByIndex E JsNumber.zero w) as [[[]|e] wa]; [|discriminate].
  destruct (BasePage.waitForTimeout E 300 wa) as [[[]|e] wb]; [|discriminate].
  rewrite getCartItemCount_query. intros H. inversion H; subst. congruence.
Qed.

Lemma removeAllItemsLoop_ends_empty (fuel : nat) :
  forall n w w',
    Playwright.count E (PageLocator CartPage.cartItems) w = Ok n ->
    CartPage.removeAllItemsLoop E fuel n w = Some (Ok tt, w') ->
    Playwright.count E (PageLocator CartPage.cartItems) w' = Ok 0%nat.
Proof.
  induction fuel as [|fuel IH]; intros n w w' Hcount; cbn [CartPage.removeAllItemsLoop].
  - destruct n; cbn; [|discriminate]. intros H. inversion H; subst. exact Hcount.
  - destruct n; cbn [Nat.ltb Nat.leb].
    + intros H. inversion H; subst. exact Hcount.
    + destruct ((CartPage.removeItemByIndex E JsNumber.zero ;;;
                 BasePage.waitForTimeout E 300 ;;;
                 CartPage.getCartItemCount E) w) as [[n'|e] w1] eqn:Hround;
        [|discriminate].
      apply IH. exact (round_count w w1 n' Hround).
Qed.
End Emptied.

(** X14: whenever [removeAllItems] fulfils, [isCartEmpty] answers
    [true] on the page it leaves: it cannot return from a cart that
    still shows a line; and on a cart that [isCartEmpty] already finds
    empty it fulfils at once and leaves the page as it is. *)
Theorem removeAllItems_leaves_cart_empty {W} (E : Engine W) (fuel : nat) (w w' : W) :
  (CartPage.removeAllItems E fuel w = Some (Ok tt, w') ->
   CartPage.isCartEmpty E w' = (Ok true, w'))
  /\ (CartPage.isCartEmpty E w = (Ok true, w) ->
      CartPage.removeAllItems E fuel w = Some (Ok tt, w)).
Proof.
  unfold CartPage.removeAllItems, CartPage.isCartEmpty. split.
  - rewrite getCartItemCount_query.
    destruct (Playwright.count E (PageLocator CartPage.cartItems) w) as [n|e] eqn:Hn;
      [|discriminate].
    intros Hrun. unfold bind. rewrite getCartItemCount_query.
    now rewrite (removeAllItemsLoop_ends_empty E fuel n w w' Hn Hrun).
  - unfold bind. rewrite getCartItemCount_query.
    destruct (Playwright.count E (PageLocator CartPage.cartItems) w) as [[|n]|e];
      cbn; try discriminate.
    intros _. destruct fuel; reflexivity.
Qed.

Lemma removeAllItems_leaves_cart_empty_witness :
  CartPage.isCartEmpty shrinkingCart 0%nat = (Ok true, 0%nat)
  /\ CartPage.removeAllItems shrinkingCart 0 0%nat = Some (Ok tt, 0%nat).
Proof.
  split.
  - exact (proj1 (removeAllItems_leaves_cart_empty shrinkingCart 3 3%nat 0%nat) eq_refl).
  - exact (proj2 (removeAllItems_leaves_cart_empty shrinkingCart 0 0%nat 0%nat) eq_refl).
Defined.

(** ** Closing the error banner *)

(** X15: [closeErrorMessage], on the login page and on checkout step
    one, clicks the close button only when the engine reports it
    visible, and is that click then; in every other case, a failing
    probe included, it fulfils and leaves the page as it is. *)
Theorem closeErrorMessage_clicks_visible_button {W} (E : Engine W) (w : W) :
  (Playwright.isVisible E (PageLocator LoginPage.errorButton) w <> Ok true ->
   LoginPage.closeErrorMessage E w = (Ok tt, w)
   /\ CheckoutStepOnePage.closeErrorMessage E w = (Ok tt, w))
  /\ (Playwright.isVisible E (PageLocator LoginPage.errorButton) w = Ok true ->
      LoginPage.closeErrorMessage E w
        = Playwright.click E (PageLocator LoginPage.errorButton) w
      /\ CheckoutStepOnePage.closeErrorMessage E w
         = Playwright.click E (PageLocator CheckoutStepOnePage.errorButton) w).
Proof.
  unfold LoginPage.closeErrorMessage, CheckoutStepOnePage.closeErrorMessage,
    BasePage.isElementVisible, BasePage.clickElement.
  change CheckoutStepOnePage.errorButton with LoginPage.errorButton.
  run. split.
  - intros Hn.
    destruct (Playwright.isVisible E (PageLocator LoginPage.errorButton) w) as [[|]|e];
      try (split; reflexivity).
    exfalso. now apply Hn.
  - intros ->. split; reflexivity.
Qed.

Lemma closeErrorMessage_clicks_visible_button_witness :
  LoginPage.closeErrorMessage (Dom.engine Dom.inert) loginWithBanner
    = (Ok tt, loginWithBanner)
  /\ CheckoutStepOnePage.closeErrorMessage (Dom.engine Dom.inert) (Dom.closedPage [])
     = (Ok tt, Dom.closedPage []).
Proof.
  split.
  - apply (proj1 (closeErrorMessage_clicks_visible_button (Dom.engine Dom.inert)
                    loginWithBanner)).
    discriminate.
  - apply (proj1 (closeErrorMessage_clicks_visible_button (Dom.engine Dom.inert)
                    (Dom.closedPage []))).
    discriminate.
Defined.

(** ** Prices read from the page *)

Lemma trimEnd_split (s : string) :
  exists ws, s = JsString.trimEnd s ++ ws /\ allChars JsString.isWhiteSpace ws = true.
Proof.
  induction s as [|c r [ws [Hr Hws]]]; [exists EmptyString; auto|].
  cbn [JsString.trimEnd].
  destruct (JsString.isWhiteSpace c) eqn:Hc; cbn [andb].
  - destruct (JsString.trimEnd r) as [|d t] eqn:Ht; cbn [JsString.isEmpty].
    + exists (String c ws). cbn in *. rewrite Hc, Hws. split; [congruence|reflexivity].
    + exists ws. cbn. split; [f_equal; exact Hr|exact Hws].
  - exists ws. cbn. split; [f_equal; exact Hr|exact Hws].
Qed.

(** A string of white space starts with no sign, no digit, no point and
    no exponent mark. *)
Lemma whiteSpace_head (ws : string) :
  allChars JsString.isWhiteSpace ws = true ->
  JsNumber.scanSign ws = (false, ws)
  /\ startsWithDigit ws = false
  /\ match ws with String "." _ => False | _ => True end
  /\ JsNumber.scanExponent ws = 0%Z
  /\ (forall a p, JsString.isWhiteSpace a = false -> JsString.stripPrefix (String a p) ws = None).
Proof.
  destruct ws as [|c r]; [repeat split; auto|].
  cbn [allChars]. intros H. apply andb_true_iff in H. destruct H as [Hc _].
  assert (G : forall a, JsString.isWhiteSpace a = false -> Ascii.eqb a c = false).
  { intros a Ha. destruct (Ascii.eqb a c) eqn:E; [|reflexivity].
    apply Ascii.eqb_eq in E. congruence. }
  destruct c as [[] [] [] [] [] [] [] []]; try discriminate Hc;
    (repeat split; [intros a p Ha; cbn; now rewrite (G a Ha)]).
Qed.

Lemma scanSign_app (p ws : string) :
  allChars JsString.isWhiteSpace ws = true ->
  JsNumber.scanSign (p ++ ws) = (fst (JsNumber.scanSign p), snd (JsNumber.scanSign p) ++ ws).
Proof.
  intros Hws. destruct p as [|c r].
  - cbn. now destruct (whiteSpace_head ws Hws) as (-> & _).
  - destruct c as [[] [] [] [] [] [] [] []]; reflexivity.
Qed.

Lemma scanDigits_app (p ws : string) (acc : N) :
  allChars JsString.isWhiteSpace ws = true ->
  JsNumber.scanDigits (p ++ ws) acc
  = (fst (JsNumber.scanDigits p acc), snd (JsNumber.scanDigits p acc) ++ ws).
Proof.
  intros Hws. revert acc. induction p as [|c r IH]; intros acc.
  - cbn [append JsNumber.scanDigits fst snd].
    destruct (whiteSpace_head ws Hws) as (_ & Hd & _).
    destruct ws as [|c r]; [reflexivity|]. cbn in Hd. cbn [JsNumber.scanDigits].
    destruct (JsNumber.digitValue c); [discriminate|reflexivity].
  - cbn [append JsNumber.scanDigits].
    destruct (JsNumber.digitValue c); [|reflexivity].
    rewrite IH. destruct (JsNumber.scanDigits r _) as [[v k] rest]. reflexivity.
Qed.

Lemma stripPrefix_app (pat p ws : string) :
  allChars (fun c => negb (JsString.isWhiteSpace c)) pat = true ->
  pat <> EmptyString ->
  allChars JsString.isWhiteSpace ws = true ->
  JsString.stripPrefix pat (p ++ ws)
  = option_map (fun r => r ++ ws) (JsString.stripPrefix pat p).
Proof.
  intros Hpat Hne Hws. revert p.
  induction pat as [|a pat IH]; [congruence|]. intros p.
  cbn [allChars] in Hpat. apply andb_true_iff in Hpat. destruct Hpat as [Ha Hpat].
  apply negb_true_iff in Ha.
  destruct p as [|c r].
  - cbn [append]. destruct (whiteSpace_head ws Hws) as (_ & _ & _ & _ & G).
    rewrite (G a pat Ha). reflexivity.
  - cbn [append JsString.stripPrefix].
    destruct (Ascii.eqb a c); [|reflexivity].
    destruct pat as [|b pat']; [reflexivity|].
    apply IH; [exact Hpat|discriminate].
Qed.

Lemma scanExponent_app (p ws : string) :
  allChars JsString.isWhiteSpace ws = true ->
  JsNumber.scanExponent (p ++ ws) = JsNumber.scanExponent p.
Proof.
  intros Hws. destruct p as [|c r].
  - cbn [append]. now destruct (whiteSpace_head ws Hws) as (_ & _ & _ & -> & _).
  - cbn [append JsNumber.scanExponent].
    destruct (Ascii.eqb c "e" || Ascii.eqb c "E")%bool; [|reflexivity].
    rewrite (scanSign_app r ws Hws).
    destruct (JsNumber.scanSign r) as [neg r1]. cbn [fst snd].
    rewrite (scanDigits_app r1 ws 0 Hws).
    destruct (JsNumber.scanDigits r1 0) as [[v k] rest]. reflexivity.
Qed.

Lemma scanFraction_app (p ws : string) (iv : N) :
  allChars JsString.isWhiteSpace ws = true ->
  scanFraction (p ++ ws) iv
  = (fst (scanFraction p iv), snd (scanFraction p iv) ++ ws).
Proof.
  intros Hws. destruct p as [|c r].
  - cbn [append]. destruct (whiteSpace_head ws Hws) as (_ & _ & Hp & _).
    destruct ws as [|c r]; [reflexivity|].
    destruct c as [[] [] [] [] [] [] [] []]; try reflexivity. destruct Hp.
  - destruct c as [[] [] [] [] [] [] [] []]; try reflexivity.
    cbn [append scanFraction]. apply scanDigits_app, Hws.
Qed.

Lemma scanLiteral_steps (s : string) :
  JsNumber.scanLiteral s
  = let '(neg, t) := JsNumber.scanSign (JsString.trimStart s) in
    match JsString.stripPrefix "Infinity" t with
    | Some _ => JsNumber.LitInfinity neg
    | None =>
        let '(iv, ic, r1) := JsNumber.scanDigits t 0 in
        let '(mv, fc, r2) := scanFraction r1 iv in
        match ic, fc with
        | O, O => JsNumber.LitNone
        | _, _ => JsNumber.LitDecimal neg mv (JsNumber.scanExponent r2 - Z.of_nat fc)
        end
    end.
Proof. reflexivity. Qed.

Lemma scanLiteral_trim (s : string) :
  JsNumber.scanLiteral (JsString.trim s) = JsNumber.scanLiteral s.
Proof.
  rewrite !scanLiteral_steps.
  assert (Hid : JsString.trimStart (JsString.trim s) = JsString.trim s).
  { rewrite trimStart_strip. apply stripStart_id.
    now destruct (trim_ends s). }
  rewrite Hid. unfold JsString.trim.
  destruct (trimEnd_split (JsString.trimStart s)) as [ws [Hs Hws]].
  set (p := JsString.trimEnd (JsString.trimStart s)) in *.
  rewrite Hs. clearbody p.
  rewrite (scanSign_app p ws Hws).
  destruct (JsNumber.scanSign p) as [neg t]. cbn [fst snd].
  rewrite (stripPrefix_app "Infinity" t ws eq_refl ltac:(discriminate) Hws).
  destruct (JsString.stripPrefix "Infinity" t); [reflexivity|]. cbn [option_map].
  rewrite (scanDigits_app t ws 0 Hws).
  destruct (JsNumber.scanDigits t 0) as [[iv ic] r1]. cbn [fst snd].
  rewrite (scanFraction_app r1 ws iv Hws).
  destruct (scanFraction r1 iv) as [[mv fc] r2]. cbn [fst snd].
  now rewrite (scanExponent_app r2 ws Hws).
Qed.

Lemma parseFloat_trim (s : string) :
  JsNumber.parseFloat (JsString.trim s) = JsNumber.parseFloat s.
Proof. unfold JsNumber.parseFloat. now rewrite scanLiteral_trim. Qed.

(** X17: the [trim] in [parsePriceToNumber] changes nothing, white space
    at the end being ignored by [parseFloat] as it is at the start; so
    the price of the detail page and the amounts of the order summary,
    which are parsed without it, are [parsePriceToNumber] of the text
    that [getProductPrice], [getItemTotal], [getTax] and [getTotal]
    return. *)
Theorem price_readers_agree {W} (E : Engine W) (w : W) :
  (forall priceString,
      Helpers.parsePriceToNumber priceString
      = JsNumber.parseFloat (JsString.replaceFirst "$" priceString))
  /\ (forall priceString,
      ProductDetailPage.getProductPrice E w = (Ok priceString, w) ->
      ProductDetailPage.getProductPriceAsNumber E w
      = (Ok (Helpers.parsePriceToNumber priceString), w))
  /\ (forall totalString,
      CheckoutStepTwoPage.getItemTotal E w = (Ok totalString, w) ->
      CheckoutStepTwoPage.getItemTotalAsNumber E w
      = (Ok (Helpers.parsePriceToNumber totalString), w))
  /\ (forall taxString,
      CheckoutStepTwoPage.getTax E w = (Ok taxString, w) ->
      CheckoutStepTwoPage.getTaxAsNumber E w
      = (Ok (Helpers.parsePriceToNumber taxString), w))
  /\ (forall totalString,
      CheckoutStepTwoPage.getTotal E w = (Ok totalString, w) ->
      CheckoutStepTwoPage.getTotalAsNumber E w
      = (Ok (Helpers.parsePriceToNumber totalString), w)).
Proof.
  assert (Hp : forall s, Helpers.parsePriceToNumber s
                         = JsNumber.parseFloat (JsString.replaceFirst "$" s)).
  { intros s. unfold Helpers.parsePriceToNumber. apply parseFloat_trim. }
  split; [exact Hp|].
  unfold ProductDetailPage.getProductPriceAsNumber,
    CheckoutStepTwoPage.getItemTotalAsNumber, CheckoutStepTwoPage.getTaxAsNumber,
    CheckoutStepTwoPage.getTotalAsNumber.
  repeat split; intros s Hs; unfold bind at 1; rewrite Hs, Hp; reflexivity.
Qed.

Lemma price_readers_agree_witness :
  Helpers.parsePriceToNumber " $29.99 " = JsNumber.parseFloat " 29.99 "
  /\ CheckoutStepTwoPage.getTaxAsNumber (Dom.engine Dom.inert)
       (summaryPage "Item total: $29.99" "Tax: $2.40" "Total: $32.39")
     = (Ok (Helpers.parsePriceToNumber "$2.40"),
        summaryPage "Item total: $29.99" "Tax: $2.40" "Total: $32.39").
Proof.
  split.
  - exact (proj1 (price_readers_agree (Dom.engine Dom.inert) (Dom.page [])) " $29.99 ").
  - exact (proj1 (proj2 (proj2 (proj2
             (price_readers_agree (Dom.engine Dom.inert)
                (summaryPage "Item total: $29.99" "Tax: $2.40" "Total: $32.39")))))
             "$2.40" eq_refl).
Defined.

(** X18: [getCartItemCount] of the detail page, as that of the
    inventory page, fulfils with zero whenever the probe of the badge
    answers anything but [true], and with [parseInt] of the trimmed
    text of the badge when it is visible. *)
Theorem detail_getCartItemCount_badge {W} (E : Engine W) (w : W) :
  (Playwright.isVisible E (PageLocator ProductDetailPage.cartBadge) w <> Ok true ->
   ProductDetailPage.getCartItemCount E w = (Ok JsNumber.zero, w))
  /\ (forall t,
       Playwright.isVisible E (PageLocator ProductDetailPage.cartBadge) w = Ok true ->
       Playwright.textContent E (PageLocator ProductDetailPage.cartBadge) w = Ok t ->
       ProductDetailPage.getCartItemCount E w
         = (Ok (JsNumber.parseInt10 (trimOr EmptyString t)), w)).
Proof.
  unfold ProductDetailPage.getCartItemCount, BasePage.isElementVisible, BasePage.getText.
  run. split.
  - intros Hn.
    destruct (Playwright.isVisible E _ w) as [[|]|e]; try reflexivity.
    exfalso. apply Hn. reflexivity.
  - intros t Hv Ht. rewrite Hv, Ht. reflexivity.
Qed.

Lemma detail_getCartItemCount_badge_witness :
  ProductDetailPage.getCartItemCount (Dom.engine Dom.inert) (Dom.page [])
    = (Ok JsNumber.zero, Dom.page [])
  /\ ProductDetailPage.getCartItemCount (Dom.engine Dom.inert) inventoryWithBadge
    = (Ok (JsNumber.ofDecimal false 2 0), inventoryWithBadge).
Proof.
  destruct (detail_getCartItemCount_badge (Dom.engine Dom.inert) (Dom.page [])) as [H1 _].
  destruct (detail_getCartItemCount_badge (Dom.engine Dom.inert) inventoryWithBadge)
    as [_ H2].
  split.
  - apply H1. discriminate.
  - apply (H2 (Some " 2 ")); reflexivity.
Defined.

(** ** An order summary without a number *)

Lemma verifyTotalCalculation_run {W} (E : Engine W) (w : W)
  (itemText taxText totalText : option string) :
  Playwright.textContent E (PageLocator CheckoutStepTwoPage.itemTotal) w = Ok itemText ->
  Playwright.textContent E (PageLocator CheckoutStepTwoPage.tax) w = Ok taxText ->
  Playwright.textContent E (PageLocator CheckoutStepTwoPage.total) w = Ok totalText ->
  CheckoutStepTwoPage.verifyTotalCalculation E w
  = (Ok (JsNumber.lt
           (JsNumber.abs (JsNumber.sub (amount "Total: " totalText)
                            (JsNumber.add (amount "Item total: " itemText)
                                          (amount "Tax: " taxText))))
           CheckoutStepTwoPage.tolerance), w).
Proof.
  intros Hi Ht Htot.
  unfold CheckoutStepTwoPage.verifyTotalCalculation,
    CheckoutStepTwoPage.getItemTotalAsNumber, CheckoutStepTwoPage.getTaxAsNumber,
    CheckoutStepTwoPage.getTotalAsNumber, CheckoutStepTwoPage.getItemTotal,
    CheckoutStepTwoPage.getTax, CheckoutStepTwoPage.getTotal, BasePage.getText.
  run. rewrite Hi, Ht, Htot. reflexivity.
Qed.

Lemma lt_abs_sub_nan (total itemTotal tax : JsNumber.number) :
  JsNumber.isNaN total = true \/ JsNumber.isNaN itemTotal = true
  \/ JsNumber.isNaN tax = true ->
  JsNumber.lt (JsNumber.abs (JsNumber.sub total (JsNumber.add itemTotal tax)))
    CheckoutStepTwoPage.tolerance = false.
Proof.
  intros [H|[H|H]].
  - destruct total; try discriminate. reflexivity.
  - destruct itemTotal; try discriminate.
    destruct total, tax; reflexivity.
  - destruct tax; try discriminate.
    destruct total, itemTotal; reflexivity.
Qed.

(** X19: when one of the three summary texts holds no number, so that
    its amount is NaN, [verifyTotalCalculation] fulfils with [false]:
    it neither accepts the page nor rejects. *)
Theorem verifyTotalCalculation_without_number {W} (E : Engine W) (w : W)
  (itemText taxText totalText : option string) :
  Playwright.textContent E (PageLocator CheckoutStepTwoPage.itemTotal) w = Ok itemText ->
  Playwright.textContent E (PageLocator CheckoutStepTwoPage.tax) w = Ok taxText ->
  Playwright.textContent E (PageLocator CheckoutStepTwoPage.total) w = Ok totalText ->
  JsNumber.isNaN (amount "Total: " totalText) = true
  \/ JsNumber.isNaN (amount "Item total: " itemText) = true
  \/ JsNumber.isNaN (amount "Tax: " taxText) = true ->
  CheckoutStepTwoPage.verifyTotalCalculation E w = (Ok false, w).
Proof.
  intros Hi Ht Htot Hnan.
  rewrite (verifyTotalCalculation_run E w itemText taxText totalText Hi Ht Htot).
  now rewrite lt_abs_sub_nan.
Qed.

Lemma verifyTotalCalculation_without_number_witness :
  CheckoutStepTwoPage.verifyTotalCalculation (Dom.engine Dom.inert)
    (summaryPage "Item total: $29.99" "Tax:" "Total: $29.99")
  = (Ok false, summaryPage "Item total: $29.99" "Tax:" "Total: $29.99").
Proof.
  apply (verifyTotalCalculation_without_number (Dom.engine Dom.inert)
           (summaryPage "Item total: $29.99" "Tax:" "Total: $29.99")
           (Some "Item total: $29.99") (Some "Tax:") (Some "Total: $29.99")
           eq_refl eq_refl eq_refl).
  right. right. reflexivity.
Defined.

(** ** Prices in the order of the listing *)

Section Monotone.
Import JsNumber.
Local Open Scope Z_scope.

Lemma roundHalfEven_mono (a1 a2 b : Z) :
  0 < b -> a1 <= a2 -> roundHalfEven a1 b <= roundHalfEven a2 b.
Proof.
  intros Hb Ha. unfold roundHalfEven.
  pose proof (Z.div_mod a1 b ltac:(lia)) as E1.
  pose proof (Z.div_mod a2 b ltac:(lia)) as E2.
  pose proof (Z.mod_pos_bound a1 b Hb) as B1.
  pose proof (Z.mod_pos_bound a2 b Hb) as B2.
  set (q1 := a1 / b) in *. set (r1 := a1 mod b) in *.
  set (q2 := a2 / b) in *. set (r2 := a2 mod b) in *.
  assert (Hq : q1 <= q2) by (apply Z.div_le_mono; lia).
  clearbody q1 r1 q2 r2.
  destruct (Z.eq_dec q1 q2) as [->|Hne].
  - assert (r1 <= r2) by nia.
    destruct (Z.compare_spec (2 * r1) b), (Z.compare_spec (2 * r2) b);
      try lia; destruct (Z.even q2); lia.
  - destruct (Z.compare_spec (2 * r1) b), (Z.compare_spec (2 * r2) b);
      try destruct (Z.even q1); try destruct (Z.even q2); lia.
Qed.

Lemma mag_mono (n1 n2 d : positive) :
  Zpos n1 <= Zpos n2 -> mag n1 d <= mag n2 d.
Proof.
  intros Hn.
  destruct (mag_spec n1 d) as [Hat _]. destruct (mag_spec n2 d) as [_ Hbe].
  destruct (Z_lt_le_dec (mag n2 d) (mag n1 d)) as [Hlt|]; [exfalso|assumption].
  apply (below_mono _ _ _ (mag n1 d - 1)) in Hbe; [|lia|lia].
  unfold below, atLeast in *.
  pose proof (pow2_pos (- (mag n1 d - 1))). nia.
Qed.

Lemma ofRatio_unfold (n d : positive) :
  let e := Z.max (mag n d - 53) (-1074) in
  let m := roundHalfEven (Zpos n * pow2 (- e)) (Zpos d * pow2 e) in
  ofRatio false n d
  = match (if m =? 2 ^ 53 then 2 ^ 52 else m) with
    | Zpos p =>
        if (if m =? 2 ^ 53 then e + 1 else e) <=? 971
        then S754_finite false p (if m =? 2 ^ 53 then e + 1 else e)
        else S754_infinity false
    | _ => S754_zero false
    end.
Proof.
  cbv zeta. unfold ofRatio. rewrite fexp_eq.
  change (2 ^ prec) with (2 ^ 53). change (2 ^ (prec - 1)) with (2 ^ 52).
  change (emax - prec) with 971.
  destruct (_ =? 2 ^ 53); reflexivity.
Qed.

Lemma finite_le (p1 p2 : positive) (e1 e2 : Z) :
  e1 < e2 \/ (e1 = e2 /\ Zpos p1 <= Zpos p2) ->
  le (S754_finite false p1 e1) (S754_finite false p2 e2) = true.
Proof.
  unfold le, SFleb. cbn.
  change (Pos.compare_cont Eq p1 p2) with (Pos.compare p1 p2).
  intros [H|[H1 H2]].
  - apply Z.compare_lt_iff in H. now rewrite H.
  - subst. rewrite Z.compare_refl.
    destruct (Pos.compare_spec p1 p2); try reflexivity. lia.
Qed.

Lemma ofRatio_mono (n1 n2 d : positive) :
  Zpos n1 <= Zpos n2 ->
  le (ofRatio false n1 d) (ofRatio false n2 d) = true.
Proof.
  intros Hn.
  pose proof (mag_mono n1 n2 d Hn) as Hmag.
  pose proof (ofRatio_significand n1 d) as S1.
  pose proof (ofRatio_significand n2 d) as S2.
  rewrite (ofRatio_unfold n1 d), (ofRatio_unfold n2 d).
  cbv zeta in *.
  set (e1 := Z.max (mag n1 d - 53) (-1074)) in *.
  set (e2 := Z.max (mag n2 d - 53) (-1074)) in *.
  set (m1 := roundHalfEven (Zpos n1 * pow2 (- e1)) (Zpos d * pow2 e1)) in *.
  set (m2 := roundHalfEven (Zpos n2 * pow2 (- e2)) (Zpos d * pow2 e2)) in *.
  assert (He : e1 <= e2) by lia.
  assert (Hm : e1 = e2 -> m1 <= m2).
  { intros Heq. unfold m1, m2. rewrite <- Heq.
    apply roundHalfEven_mono.
    - pose proof (pow2_pos e1). lia.
    - pose proof (pow2_pos (- e1)). nia. }
  assert (Hm2 : e1 < e2 -> 2 ^ 52 <= m2).
  { intros Hlt. apply S2. unfold e2 in *. lia. }
  destruct S1 as (B1 & _). destruct S2 as (B2 & _).
  assert (P52 : 2 ^ 52 = 4503599627370496) by reflexivity.
  assert (P53 : 2 ^ 53 = 9007199254740992) by reflexivity.
  clearbody m1 m2 e1 e2. clear Hmag.
  destruct (Z.eqb_spec m1 (2 ^ 53)) as [E1|E1], (Z.eqb_spec m2 (2 ^ 53)) as [E2|E2].
  - (* both carry *)
    assert (e1 = e2 \/ e1 < e2) as [->|Hlt] by lia.
    + rewrite P52. destruct (e2 + 1 <=? 971); [|reflexivity].
      apply finite_le. right. split; lia.
    + rewrite P52.
      destruct (Z.leb_spec (e1 + 1) 971), (Z.leb_spec (e2 + 1) 971); try reflexivity; try lia.
      apply finite_le. left. lia.
  - (* the first carries, the second does not *)
    assert (e1 < e2) by (destruct (Z.eq_dec e1 e2) as [Heq|]; [specialize (Hm Heq)|]; lia).
    specialize (Hm2 H).
    rewrite P52. destruct m2 as [|p2|p2]; try lia.
    destruct (Z.leb_spec (e1 + 1) 971), (Z.leb_spec e2 971); try reflexivity; try lia.
    apply finite_le. lia.
  - (* the second carries *)
    rewrite P52.
    destruct m1 as [|p1|p1]; try lia.
    + destruct (e2 + 1 <=? 971); reflexivity.
    + destruct (Z.leb_spec e1 971), (Z.leb_spec (e2 + 1) 971); try reflexivity; try lia.
      apply finite_le. left. lia.
  - (* neither carries *)
    destruct m1 as [|p1|p1]; try lia.
    + destruct m2 as [|p2|p2]; try lia; [reflexivity|].
      destruct (e2 <=? 971); reflexivity.
    + assert (e1 = e2 \/ e1 < e2) as [Heq|Hlt] by lia.
      * specialize (Hm Heq). subst e2.
        destruct m2 as [|p2|p2]; try lia.
        destruct (e1 <=? 971); [|reflexivity].
        apply finite_le. right. split; lia.
      * specialize (Hm2 Hlt). destruct m2 as [|p2|p2]; try lia.
        destruct (Z.leb_spec e1 971), (Z.leb_spec e2 971); try reflexivity; try lia.
        apply finite_le. left. lia.
Qed.

Lemma ofDecimal_cents_mono (k1 k2 : N) :
  (k1 <= k2)%N ->
  le (ofDecimal false k1 (-2)) (ofDecimal false k2 (-2)) = true.
Proof.
  intros Hk. unfold ofDecimal.
  destruct k1 as [|p1], k2 as [|p2]; try lia.
  - reflexivity.
  - destruct (ofRatio_shape p2 (Pos.pow 10 2)) as [->|[->|(M & e & ->)]]; reflexivity.
  - apply ofRatio_mono. lia.
Qed.
End Monotone.

Lemma parsePrice_priceText (cents : N) :
  Helpers.parsePriceToNumber (priceText cents) = JsNumber.ofDecimal false cents (-2).
Proof.
  destruct (cents_digits cents) as (Hk & H1 & H2).
  unfold priceText.
  rewrite parsePrice_text by (apply trim_fixed; exact H2).
  rewrite parseFloat_fixed by assumption.
  now rewrite Hk.
Qed.

Lemma ofDecimal_not_nan (k : N) : JsNumber.isNaN (JsNumber.ofDecimal false k (-2)) = false.
Proof.
  destruct k as [|p]; [reflexivity|]. unfold JsNumber.ofDecimal.
  destruct (ofRatio_shape p (Pos.pow 10 2)) as [->|[->|(M & e & ->)]]; reflexivity.
Qed.

Lemma listing_ascending (cents : list N) :
  (forall i, (i + 1 < List.length cents)%nat ->
             (nth i cents 0 <= nth (i + 1) cents 0)%N) ->
  Helpers.isSortedAscending (map Helpers.parsePriceToNumber (map priceText cents)) = true.
Proof.
  intros Hs. unfold Helpers.isSortedAscending.
  rewrite adjacentLoop_whole, !length_map. intros j Hj.
  rewrite map_map.
  assert (Hnth : forall i, (i < List.length cents)%nat ->
            nth i (map (fun x => Helpers.parsePriceToNumber (priceText x)) cents) JsNumber.NaN
            = JsNumber.ofDecimal false (nth i cents 0%N) (-2)).
  { intros i Hi.
    rewrite (nth_indep _ JsNumber.NaN
               (Helpers.parsePriceToNumber (priceText 0%N))) by (rewrite length_map; lia).
    rewrite (map_nth (fun x => Helpers.parsePriceToNumber (priceText x))).
    apply parsePrice_priceText. }
  rewrite !Hnth by lia.
  apply not_gt_le; [apply ofDecimal_not_nan|apply ofDecimal_not_nan|].
  apply ofDecimal_cents_mono. now apply Hs.
Qed.

Section Strict.
Import JsNumber.
Local Open Scope Z_scope.

Lemma roundHalfEven_strict (a1 a2 b : Z) :
  0 <= a1 -> 0 < b -> a1 + b < a2 -> roundHalfEven a1 b < roundHalfEven a2 b.
Proof.
  intros Ha Hb Hlt.
  destruct (roundHalfEven_bound a1 b Ha Hb) as [_ B1].
  destruct (roundHalfEven_bound a2 b ltac:(lia) Hb) as [_ B2].
  nia.
Qed.

(** The magnitude of an amount of less than [2 ^ 52] hundredths. *)
Lemma mag_cents (n : positive) :
  Zpos n < 2 ^ 52 -> -6 <= mag n 100 <= 46.
Proof.
  intros Hn. destruct (mag_spec n 100) as [Hat Hbe].
  unfold atLeast, below in *. split.
  - destruct (Z_lt_le_dec (mag n 100) (-6)) as [Hlt|]; [exfalso|assumption].
    rewrite (pow2_nonneg (- mag n 100)) in Hbe by lia.
    rewrite (pow2_nonpos (mag n 100)) in Hbe by lia.
    assert (2 ^ 7 <= 2 ^ (- mag n 100)) by (apply Z.pow_le_mono_r; lia).
    change (2 ^ 7) with 128 in *. nia.
  - destruct (Z_lt_le_dec 46 (mag n 100)) as [Hlt|]; [exfalso|lia].
    rewrite (pow2_nonneg (mag n 100 - 1)) in Hat by lia.
    rewrite (pow2_nonpos (- (mag n 100 - 1))) in Hat by lia.
    assert (2 ^ 46 <= 2 ^ (mag n 100 - 1)) by (apply Z.pow_le_mono_r; lia).
    change (2 ^ 46) with 70368744177664 in *.
    change (2 ^ 52) with 4503599627370496 in *. nia.
Qed.

Lemma finite_lt (p1 p2 : positive) (e1 e2 : Z) :
  e1 < e2 \/ (e1 = e2 /\ Zpos p1 < Zpos p2) ->
  lt (S754_finite false p1 e1) (S754_finite false p2 e2) = true.
Proof.
  unfold lt, SFltb. cbn.
  change (Pos.compare_cont Eq p1 p2) with (Pos.compare p1 p2).
  intros [H|[H1 H2]].
  - apply Z.compare_lt_iff in H. now rewrite H.
  - subst. rewrite Z.compare_refl.
    destruct (Pos.compare_spec p1 p2); try reflexivity; lia.
Qed.

Lemma ofRatio_cents_strict (n1 n2 : positive) :
  Zpos n1 < Zpos n2 -> Zpos n2 < 2 ^ 52 ->
  lt (ofRatio false n1 100) (ofRatio false n2 100) = true.
Proof.
  intros Hn Hb.
  pose proof (mag_cents n1 ltac:(lia)) as G1.
  pose proof (mag_cents n2 Hb) as G2.
  pose proof (mag_mono n1 n2 100 ltac:(lia)) as Hmag.
  pose proof (ofRatio_significand n1 100) as S1.
  pose proof (ofRatio_significand n2 100) as S2.
  rewrite (ofRatio_unfold n1 100), (ofRatio_unfold n2 100).
  cbv zeta in *.
  rewrite (Z.max_l (mag n1 100 - 53) (-1074)) in * by lia.
  rewrite (Z.max_l (mag n2 100 - 53) (-1074)) in * by lia.
  set (e1 := mag n1 100 - 53) in *. set (e2 := mag n2 100 - 53) in *.
  assert (He1 : -59 <= e1 <= -7) by (unfold e1; lia).
  assert (He2 : -59 <= e2 <= -7) by (unfold e2; lia).
  assert (He : e1 <= e2) by (unfold e1, e2; lia).
  clearbody e1 e2. clear G1 G2 Hmag.
  rewrite (pow2_nonneg (- e1)), (pow2_nonpos e1) in * by lia.
  rewrite (pow2_nonneg (- e2)), (pow2_nonpos e2) in * by lia.
  rewrite !Z.mul_1_r in *.
  set (a1 := Zpos n1 * 2 ^ (- e1)) in *. set (a2 := Zpos n2 * 2 ^ (- e2)) in *.
  assert (Hp1 : 128 <= 2 ^ (- e1)) by (change 128 with (2 ^ 7); apply Z.pow_le_mono_r; lia).
  assert (Hp2 : 128 <= 2 ^ (- e2)) by (change 128 with (2 ^ 7); apply Z.pow_le_mono_r; lia).
  destruct (roundHalfEven_bound a1 100 ltac:(unfold a1; nia) ltac:(lia)) as [_ R1].
  destruct (roundHalfEven_bound a2 100 ltac:(unfold a2; nia) ltac:(lia)) as [_ R2].
  assert (Hm : e1 = e2 -> roundHalfEven a1 100 < roundHalfEven a2 100).
  { intros Heq. apply roundHalfEven_strict; [unfold a1; nia|lia|].
    unfold a1, a2. rewrite <- Heq. nia. }
  assert (Hstep : e1 + 1 = e2 -> 2 ^ (- e1) = 2 * 2 ^ (- e2)).
  { intros Heq. replace (- e1) with (- e2 + 1) by lia.
    rewrite Z.pow_add_r by lia. lia. }
  destruct S1 as (B1 & L1 & _). destruct S2 as (B2 & L2 & _).
  specialize (L1 eq_refl). specialize (L2 eq_refl).
  set (m1 := roundHalfEven a1 100) in *. set (m2 := roundHalfEven a2 100) in *.
  assert (P52 : 2 ^ 52 = 4503599627370496) by reflexivity.
  assert (P53 : 2 ^ 53 = 9007199254740992) by reflexivity.
  rewrite P52, P53 in *.
  clearbody m1 m2.
  destruct (Z.eqb_spec m1 9007199254740992) as [E1|E1],
           (Z.eqb_spec m2 9007199254740992) as [E2|E2].
  - (* both carry *)
    assert (e1 < e2) by (destruct (Z.eq_dec e1 e2) as [Heq|]; [specialize (Hm Heq)|]; lia).
    destruct (Z.leb_spec (e1 + 1) 971), (Z.leb_spec (e2 + 1) 971); try lia.
    apply finite_lt. left. lia.
  - (* the first carries *)
    assert (e1 < e2) by (destruct (Z.eq_dec e1 e2) as [Heq|]; [specialize (Hm Heq)|]; lia).
    destruct m2 as [|p2|p2]; try lia.
    destruct (Z.leb_spec (e1 + 1) 971), (Z.leb_spec e2 971); try lia.
    apply finite_lt.
    destruct (Z.eq_dec (e1 + 1) e2) as [Heq|]; [right|left; lia].
    split; [exact Heq|].
    specialize (Hstep Heq).
    assert (Zpos p2 <> 4503599627370496); [|lia].
    intros Hp. unfold a1, a2 in *. rewrite Hp, E1 in *. nia.
  - (* the second carries *)
    destruct m1 as [|p1|p1]; try lia.
    destruct (Z.leb_spec e1 971), (Z.leb_spec (e2 + 1) 971); try lia.
    apply finite_lt. left. lia.
  - destruct m1 as [|p1|p1]; try lia. destruct m2 as [|p2|p2]; try lia.
    destruct (Z.leb_spec e1 971), (Z.leb_spec e2 971); try lia.
    apply finite_lt.
    destruct (Z.eq_dec e1 e2) as [Heq|]; [right|left; lia].
    split; [exact Heq|]. apply (Hm Heq).
Qed.

Lemma ofDecimal_cents_strict (k1 k2 : N) :
  (k1 < k2)%N -> (k2 < 2 ^ 52)%N ->
  lt (ofDecimal false k1 (-2)) (ofDecimal false k2 (-2)) = true.
Proof.
  intros Hk Hb. unfold ofDecimal.
  assert (Hb' : Z.of_N k2 < 2 ^ 52).
  { change (2 ^ 52) with (Z.of_N (2 ^ 52)). lia. }
  destruct k2 as [|p2]; [lia|].
  change (Pos.pow 10 2) with 100%positive.
  destruct k1 as [|p1].
  - pose proof (mag_cents p2 Hb') as G.
    pose proof (ofRatio_significand p2 100) as S2.
    rewrite (ofRatio_unfold p2 100). cbv zeta in *.
    rewrite (Z.max_l (mag p2 100 - 53) (-1074)) in * by lia.
    destruct S2 as (B2 & L2 & _). specialize (L2 eq_refl).
    assert (P52 : 2 ^ 52 = 4503599627370496) by reflexivity.
    assert (P53 : 2 ^ 53 = 9007199254740992) by reflexivity.
    rewrite P52, P53 in *.
    set (m2 := roundHalfEven _ _) in *. clearbody m2.
    destruct (Z.eqb_spec m2 9007199254740992).
    + destruct (Z.leb_spec (mag p2 100 - 53 + 1) 971); [reflexivity|lia].
    + destruct m2 as [|q|q]; try lia.
      destruct (Z.leb_spec (mag p2 100 - 53) 971); [reflexivity|lia].
  - apply ofRatio_cents_strict; lia.
Qed.
End Strict.

Lemma listing_pair (k1 k2 : N) :
  (k1 < 2 ^ 52)%N -> (k2 < 2 ^ 52)%N ->
  (JsNumber.gt (JsNumber.ofDecimal false k1 (-2)) (JsNumber.ofDecimal false k2 (-2)) = false
   <-> (k1 <= k2)%N).
Proof.
  intros H1 H2. split.
  - intros Hgt. destruct (N.le_gt_cases k1 k2) as [|Hlt]; [assumption|].
    unfold JsNumber.gt in Hgt.
    pose proof (ofDecimal_cents_strict k2 k1 Hlt H1) as Hs.
    unfold JsNumber.lt in Hs. congruence.
  - intros Hle. apply not_gt_le; [apply ofDecimal_not_nan|apply ofDecimal_not_nan|].
    now apply ofDecimal_cents_mono.
Qed.

Lemma listing_nth (cents : list N) (i : nat) :
  (i < List.length cents)%nat ->
  nth i (map Helpers.parsePriceToNumber (map priceText cents)) JsNumber.NaN
  = JsNumber.ofDecimal false (nth i cents 0%N) (-2).
Proof.
  intros Hi. rewrite map_map.
  rewrite (nth_indep _ JsNumber.NaN
             (Helpers.parsePriceToNumber (priceText 0%N))) by (rewrite length_map; lia).
  rewrite (map_nth (fun x => Helpers.parsePriceToNumber (priceText x))).
  apply parsePrice_priceText.
Qed.

(** X20: the price sort tests parse the displayed prices with
    [parsePriceToNumber] and check the Numbers.  Whatever the amounts,
    however large, a listing that displays them with two decimals in
    non-decreasing order passes [isSortedAscending], and the same
    listing reversed passes [isSortedDescending]: rounding to Numbers
    never turns the order of two amounts.  For amounts of less than
    [2 ^ 52] hundredths rounding keeps different amounts apart as
    well, so the checks accept exactly the listings in order. *)
Theorem price_listing_in_order (cents : list N) :
  ((forall i, (i + 1 < List.length cents)%nat ->
              (nth i cents 0 <= nth (i + 1) cents 0)%N) ->
   Helpers.isSortedAscending (map Helpers.parsePriceToNumber (map priceText cents)) = true
   /\ Helpers.isSortedDescending
        (map Helpers.parsePriceToNumber (map priceText (rev cents))) = true)
  /\ (Forall (fun k => (k < 2 ^ 52)%N) cents ->
      (Helpers.isSortedAscending (map Helpers.parsePriceToNumber (map priceText cents)) = true
       <-> forall i, (i + 1 < List.length cents)%nat ->
                     (nth i cents 0 <= nth (i + 1) cents 0)%N)
      /\ (Helpers.isSortedDescending
            (map Helpers.parsePriceToNumber (map priceText cents)) = true
          <-> forall i, (i + 1 < List.length cents)%nat ->
                        (nth (i + 1) cents 0 <= nth i cents 0)%N)).
Proof.
  split.
  - intros Hs. split; [now apply listing_ascending|].
    rewrite !map_rev. rewrite (proj1 (isSorted_rev _)). now apply listing_ascending.
  - intros Hb.
    assert (Hnth : forall i, (i < List.length cents)%nat -> (nth i cents 0 < 2 ^ 52)%N).
    { intros i Hi. rewrite Forall_forall in Hb. apply Hb. now apply nth_In. }
    unfold Helpers.isSortedAscending, Helpers.isSortedDescending.
    rewrite !adjacentLoop_whole, !length_map.
    split; split; intros H i Hi; specialize (H i Hi).
    + rewrite !listing_nth in H by lia. apply listing_pair in H; auto; apply Hnth; lia.
    + rewrite !listing_nth by lia. apply listing_pair; auto; apply Hnth; lia.
    + rewrite !listing_nth in H by lia.
      apply (listing_pair (nth (i + 1) cents 0%N) (nth i cents 0%N)) in H; auto;
        apply Hnth; lia.
    + rewrite !listing_nth by lia.
      apply (listing_pair (nth (i + 1) cents 0%N) (nth i cents 0%N)); auto;
        apply Hnth; lia.
Qed.

Lemma price_listing_in_order_witness :
  Helpers.isSortedAscending
    (map Helpers.parsePriceToNumber (map priceText [799; 999; 1599; 1599; 2999; 4999]%N))
  = true
  /\ Helpers.isSortedDescending
       (map Helpers.parsePriceToNumber
          (map priceText (rev [799; 999; 1599; 1599; 2999; 4999]%N)))
     = true.
Proof.
  apply (proj1 (price_listing_in_order [799; 999; 1599; 1599; 2999; 4999]%N)).
  intros i Hi. do 5 (destruct i as [|i]; [cbn; lia|]). cbn in Hi. lia.
Defined.

Lemma priceText_samples :
  map priceText [799; 5; 0; 123456]%N = ["$7.99"; "$0.05"; "$0.00"; "$1234.56"].
Proof. reflexivity. Qed.

(** ** The four guarded state checks *)

(** X21: [isElementVisible], [isElementEnabled], [isElementDisabled]
    and [isElementChecked] never reject and leave the page as it is:
    each fulfils with the answer of the engine, and with [false] when
    the engine throws. *)
Theorem state_checks_never_reject {W} (E : Engine W) (selector : string) (w : W) :
  (exists b, BasePage.isElementVisible E selector w = (Ok b, w)
     /\ (forall v, Playwright.isVisible E (PageLocator selector) w = Ok v -> b = v)
     /\ (forall e, Playwright.isVisible E (PageLocator selector) w = Throw e -> b = false))
  /\ (exists b, BasePage.isElementEnabled E selector w = (Ok b, w)
     /\ (forall v, Playwright.isEnabled E (PageLocator selector) w = Ok v -> b = v)
     /\ (forall e, Playwright.isEnabled E (PageLocator selector) w = Throw e -> b = false))
  /\ (exists b, BasePage.isElementDisabled E selector w = (Ok b, w)
     /\ (forall v, Playwright.isDisabled E (PageLocator selector) w = Ok v -> b = v)
     /\ (forall e, Playwright.isDisabled E (PageLocator selector) w = Throw e -> b = false))
  /\ (exists b, BasePage.isElementChecked E selector w = (Ok b, w)
     /\ (forall v, Playwright.isChecked E (PageLocator selector) w = Ok v -> b = v)
     /\ (forall e, Playwright.isChecked E (PageLocator selector) w = Throw e -> b = false)).
Proof.
  destruct (guarded_state_checks E selector w) as (H1 & H2 & H3 & H4).
  repeat split.
  - eexists. split; [exact H1|]. split; intros v Hv; now rewrite Hv.
  - eexists. split; [exact H2|]. split; intros v Hv; now rewrite Hv.
  - eexists. split; [exact H3|]. split; intros v Hv; now rewrite Hv.
  - eexists. split; [exact H4|]. split; intros v Hv; now rewrite Hv.
Qed.

(** ** The catalog *)

(** X22: [getProductByName] answers with a product of the catalog that
    bears the name, or with nothing when no product bears it; and each
    product of the catalog is found under its own name. *)
Theorem getProductByName_finds (n : string) :
  (forall p, Products.getProductByName n = Some p ->
             In p Products.allProducts /\ Products.name p = n)
  /\ (Products.getProductByName n = None ->
      forall p, In p Products.allProducts -> Products.name p <> n)
  /\ (forall p, In p Products.allProducts ->
                Products.getProductByName (Products.name p) = Some p).
Proof.
  unfold Products.getProductByName. split; [|split].
  - intros p Hfound. apply find_some in Hfound. destruct Hfound as [Hin Heq].
    split; [exact Hin|now apply String.eqb_eq].
  - intros Hnone p Hin Heq.
    pose proof (find_none _ _ Hnone p Hin) as Hp. cbn in Hp.
    apply String.eqb_neq in Hp. contradiction.
  - intros p Hin. cbn in Hin.
    repeat (destruct Hin as [<-|Hin]; [reflexivity|]). destruct Hin.
Qed.

(** X23: the products that [getCheapestProduct] and
    [getMostExpensiveProduct] name are products of the catalog, and no
    product of the catalog is cheaper than the one, or dearer than the
    other. *)
Theorem cheapest_and_most_expensive :
  In Products.getCheapestProduct Products.allProducts
  /\ In Products.getMostExpensiveProduct Products.allProducts
  /\ (forall p, In p Products.allProducts ->
        JsNumber.le (Products.price Products.getCheapestProduct) (Products.price p) = true
        /\ JsNumber.le (Products.price p)
                       (Products.price Products.getMostExpensiveProduct) = true).
Proof.
  split; [cbn; tauto|]. split; [cbn; tauto|].
  intros p Hin. cbn in Hin.
  repeat (destruct Hin as [<-|Hin]; [split; reflexivity|]). destruct Hin.
Qed.

(** ** The currency round trip below zero and beyond the finite *)

Lemma parsePrice_format (x : JsNumber.number) :
  Helpers.parsePriceToNumber (Helpers.formatCurrency x)
  = JsNumber.parseFloat (JsNumber.toFixed2 x).
Proof.
  unfold Helpers.parsePriceToNumber, Helpers.formatCurrency.
  now rewrite parseFloat_trim, replaceFirst_prefix.
Qed.

Lemma toFixed2_negative (m : positive) (e : Z) :
  JsNumber.toFixed2 (S754_finite true m e) = "-" ++ JsNumber.toFixed2 (S754_finite false m e).
Proof.
  unfold JsNumber.toFixed2.
  change (JsNumber.abs (S754_finite true m e)) with (S754_finite false m e).
  change (JsNumber.abs (S754_finite false m e)) with (S754_finite false m e).
  destruct (JsNumber.toFraction (S754_finite false m e)) as [num den].
  destruct (10 ^ 21 * Zpos den <=? num)%Z; reflexivity.
Qed.

Lemma exponential_head (s : N) (ex : nat) :
  startsWithDigit (JsNumber.exponential s ex) = true.
Proof.
  unfold JsNumber.exponential.
  destruct (printN_head s) as (c & r & -> & Hc & _).
  unfold isDigit in Hc.
  destruct r; cbn; destruct (JsNumber.digitValue c); try discriminate; reflexivity.
Qed.

Lemma shortest_head (x : JsNumber.number) (X : N) (todo k : nat) :
  startsWithDigit (JsNumber.shortest x X todo k) = true.
Proof.
  revert k. induction todo as [|todo IH]; intros k; cbn [JsNumber.shortest].
  - apply exponential_head.
  - cbv zeta.
    repeat match goal with
           | |- context [if ?b then _ else _] => destruct b
           end; try apply exponential_head; apply IH.
Qed.

Lemma toFixed2_head (m : positive) (e : Z) :
  startsWithDigit (JsNumber.toFixed2 (S754_finite false m e)) = true.
Proof.
  unfold JsNumber.toFixed2.
  destruct (JsNumber.toFraction _) as [num den].
  destruct (10 ^ 21 * Zpos den <=? num)%Z.
  - cbn [append]. unfold JsNumber.toStringLarge.
    destruct (JsNumber.readsBack _ _ _); [apply exponential_head|apply shortest_head].
  - cbn [append].
    destruct (printN_head (Z.to_N ((200 * num + Zpos den) / (2 * Zpos den)) / 100))
      as (c & r & -> & Hc & _).
    unfold isDigit in Hc. cbn.
    destruct (JsNumber.digitValue c); [reflexivity|discriminate].
Qed.

Lemma ofRatio_negated (n d : positive) :
  JsNumber.ofRatio true n d = JsNumber.negate (JsNumber.ofRatio false n d).
Proof.
  unfold JsNumber.ofRatio. cbv zeta.
  destruct (_ =? _)%Z.
  - destruct (2 ^ (JsNumber.prec - 1))%Z; try reflexivity.
    destruct (_ <=? _)%Z; reflexivity.
  - destruct (JsNumber.roundHalfEven _ _); try reflexivity.
    destruct (_ <=? _)%Z; reflexivity.
Qed.

Lemma ofDecimal_negated (m : N) (e : Z) :
  JsNumber.ofDecimal true m e = JsNumber.negate (JsNumber.ofDecimal false m e).
Proof.
  unfold JsNumber.ofDecimal. destruct m; [reflexivity|].
  destruct e; apply ofRatio_negated.
Qed.

Lemma parseFloat_minus (t : string) :
  startsWithDigit t = true ->
  JsNumber.parseFloat ("-" ++ t) = JsNumber.negate (JsNumber.parseFloat t).
Proof.
  destruct t as [|c r]; [discriminate|]. cbn [startsWithDigit].
  destruct (JsNumber.digitValue c) eqn:Hd; [intros _|discriminate].
  assert (Hc : isDigit c = true) by (unfold isDigit; now rewrite Hd).
  destruct (digit_facts c Hc) as (Hws & Hsign & Hinf & Hdot).
  unfold JsNumber.parseFloat, JsNumber.scanLiteral.
  cbn [append JsString.trimStart].
  change (JsString.isWhiteSpace "-") with false. cbv iota.
  rewrite Hws.
  change (JsNumber.scanSign (String "-" (String c r))) with (true, String c r).
  rewrite Hsign, Hinf.
  destruct (JsNumber.scanDigits (String c r) 0) as [[iv ic] r1].
  destruct (match r1 with String "." r0 => JsNumber.scanDigits r0 iv | _ => (iv, O, r1) end)
    as [[mv fc] r2].
  destruct ic, fc; try reflexivity; apply ofDecimal_negated.
Qed.

(** X24: for a finite Number below zero, reading back the formatted
    Number gives minus the rounding to two decimals of its absolute
    value, so halves round away from zero; NaN and the two infinities
    come back as they are, and minus zero comes back as zero. *)
Theorem price_roundtrip_negative (m : positive) (e : Z) :
  valid_binary JsNumber.prec JsNumber.emax (S754_finite true m e) = true ->
  Helpers.parsePriceToNumber (Helpers.formatCurrency (S754_finite true m e))
  = JsNumber.negate (roundedToCents (S754_finite false m e))
  /\ Helpers.parsePriceToNumber (Helpers.formatCurrency JsNumber.NaN) = JsNumber.NaN
  /\ (forall s, Helpers.parsePriceToNumber (Helpers.formatCurrency (S754_infinity s))
                = S754_infinity s)
  /\ Helpers.parsePriceToNumber (Helpers.formatCurrency (S754_zero true)) = JsNumber.zero.
Proof.
  intros Hvalid. split; [|split; [reflexivity|split; [intros []; reflexivity|reflexivity]]].
  rewrite parsePrice_format, toFixed2_negative, parseFloat_minus by apply toFixed2_head.
  rewrite <- parsePrice_format. f_equal.
  apply roundtrip_rounded; [exact Hvalid|reflexivity|reflexivity].
Qed.

Lemma price_roundtrip_negative_witness :
  Helpers.parsePriceToNumber (Helpers.formatCurrency (JsNumber.parseFloat "-0.125"))
  = JsNumber.parseFloat "-0.13".
Proof.
  change (JsNumber.parseFloat "-0.125") with (S754_finite true 4503599627370496 (-55)).
  rewrite (proj1 (price_roundtrip_negative 4503599627370496 (-55) eq_refl)).
  vm_compute. reflexivity.
Defined.

(** ** The arithmetic of the Standard Library and the nearest Number *)

Section Shift.
Import JsNumber.
Local Open Scope Z_scope.

Lemma iter_pos_nat {A} (f : A -> A) (p : positive) (x : A) :
  iter_pos f p x = Nat.iter (Pos.to_nat p) f x.
Proof.
  revert x. induction p as [p IH|p IH|]; intros x; cbn [iter_pos].
  - rewrite !IH, Pos2Nat.inj_xI.
    replace (S (2 * Pos.to_nat p))%nat with (Pos.to_nat p + (Pos.to_nat p + 1))%nat by lia.
    rewrite !Nat.iter_add. reflexivity.
  - rewrite !IH, Pos2Nat.inj_xO.
    replace (2 * Pos.to_nat p)%nat with (Pos.to_nat p + Pos.to_nat p)%nat by lia.
    rewrite Nat.iter_add. reflexivity.
  - reflexivity.
Qed.

(** One shift to the right: the significand is halved, the bit that
    leaves it is the round bit, and the sticky bit gathers what was
    shifted out before. *)
Lemma shr_1_spec (q : Z) (r s : bool) :
  0 <= q ->
  shr_1 {| shr_m := q; shr_r := r; shr_s := s |}
  = {| shr_m := q / 2; shr_r := (q mod 2 =? 1); shr_s := r || s |}.
Proof.
  intros Hq. destruct q as [|p|p]; [reflexivity| |lia].
  destruct p as [p|p|]; cbn [shr_1].
  - assert (Hd : Zpos p~1 / 2 = Zpos p)
      by (symmetry; apply (Z.div_unique _ 2 _ 1); lia).
    assert (Hr : Zpos p~1 mod 2 = 1)
      by (symmetry; apply (Z.mod_unique _ 2 (Zpos p) 1); lia).
    rewrite Hd, Hr. reflexivity.
  - assert (Hd : Zpos p~0 / 2 = Zpos p)
      by (symmetry; apply (Z.div_unique _ 2 _ 0); lia).
    assert (Hr : Zpos p~0 mod 2 = 0)
      by (symmetry; apply (Z.mod_unique _ 2 (Zpos p) 0); lia).
    rewrite Hd, Hr. reflexivity.
  - reflexivity.
Qed.

(** [k + 1] shifts of a significand [m] that starts without round and
    sticky bits. *)
Lemma shr_iter_spec (m : Z) (k : nat) :
  0 <= m ->
  Nat.iter (S k) shr_1 {| shr_m := m; shr_r := false; shr_s := false |}
  = {| shr_m := m / 2 ^ (Z.of_nat k + 1);
       shr_r := ((m / 2 ^ Z.of_nat k) mod 2 =? 1);
       shr_s := negb (m mod 2 ^ Z.of_nat k =? 0) |}.
Proof.
  intros Hm. induction k as [|k IH].
  - cbn [Nat.iter]. rewrite shr_1_spec by exact Hm.
    change (2 ^ (Z.of_nat 0 + 1)) with 2. change (2 ^ Z.of_nat 0) with 1.
    rewrite Z.div_1_r, Z.mod_1_r. reflexivity.
  - rewrite Nat.iter_succ, IH.
    assert (Hp : 0 < 2 ^ Z.of_nat k) by (apply Z.pow_pos_nonneg; lia).
    rewrite shr_1_spec by (apply Z.div_pos; [lia|apply Z.pow_pos_nonneg; lia]).
    replace (Z.of_nat (S k)) with (Z.of_nat k + 1) by lia.
    f_equal.
    + rewrite Z.div_div by (try apply Z.pow_pos_nonneg; lia).
      f_equal. rewrite (Z.pow_add_r 2 (Z.of_nat k + 1) 1) by lia. reflexivity.
    + rewrite (Z.pow_add_r 2 (Z.of_nat k) 1) by lia. change (2 ^ 1) with 2.
      rewrite (Z.rem_mul_r m (2 ^ Z.of_nat k) 2) by lia.
      pose proof (Z.mod_pos_bound m (2 ^ Z.of_nat k) Hp) as B1.
      pose proof (Z.mod_pos_bound (m / 2 ^ Z.of_nat k) 2 ltac:(lia)) as B2.
      destruct (Z.eqb_spec ((m / 2 ^ Z.of_nat k) mod 2) 1) as [E1|E1];
        destruct (Z.eqb_spec (m mod 2 ^ Z.of_nat k) 0) as [E2|E2];
        destruct (Z.eqb_spec (m mod 2 ^ Z.of_nat k
                              + 2 ^ Z.of_nat k * ((m / 2 ^ Z.of_nat k) mod 2)) 0);
        cbn; try reflexivity; exfalso; nia.
Qed.

(** Rounding what the shifts leave is rounding the quotient. *)
Lemma round_shifted (m : Z) (k : nat) :
  0 <= m ->
  round_nearest_even
    (shr_m (Nat.iter (S k) shr_1 {| shr_m := m; shr_r := false; shr_s := false |}))
    (loc_of_shr_record
       (Nat.iter (S k) shr_1 {| shr_m := m; shr_r := false; shr_s := false |}))
  = roundHalfEven m (2 ^ (Z.of_nat k + 1)).
Proof.
  intros Hm. rewrite shr_iter_spec by exact Hm. cbn [shr_m loc_of_shr_record].
  unfold roundHalfEven.
  assert (Hp : 0 < 2 ^ Z.of_nat k) by (apply Z.pow_pos_nonneg; lia).
  rewrite (Z.pow_add_r 2 (Z.of_nat k) 1) by lia. change (2 ^ 1) with 2.
  rewrite (Z.rem_mul_r m (2 ^ Z.of_nat k) 2) by lia.
  pose proof (Z.mod_pos_bound m (2 ^ Z.of_nat k) Hp) as B1.
  pose proof (Z.mod_pos_bound (m / 2 ^ Z.of_nat k) 2 ltac:(lia)) as B2.
  set (x := m mod 2 ^ Z.of_nat k) in *.
  set (b := (m / 2 ^ Z.of_nat k) mod 2) in *.
  set (q := m / (2 ^ Z.of_nat k * 2)).
  set (P := 2 ^ Z.of_nat k) in *. clearbody x b q P.
  destruct (Z.compare_spec (2 * (x + P * b)) (P * 2)) as [Hc|Hc|Hc];
    destruct (Z.eqb_spec b 1) as [E1|E1]; destruct (Z.eqb_spec x 0) as [E2|E2];
    cbn [negb round_nearest_even]; try reflexivity; exfalso; nia.
Qed.

Lemma roundHalfEven_scale (c a b : Z) :
  0 < c -> 0 < b -> roundHalfEven (c * a) (c * b) = roundHalfEven a b.
Proof.
  intros Hc Hb. unfold roundHalfEven.
  rewrite Z.div_mul_cancel_l by lia.
  rewrite Z.mul_mod_distr_l by lia.
  replace (2 * (c * (a mod b)) ?= c * b) with (2 * (a mod b) ?= b); [reflexivity|].
  destruct (Z.compare_spec (2 * (a mod b)) b) as [H|H|H]; symmetry.
  - apply Z.compare_eq_iff. nia.
  - apply Z.compare_lt_iff. nia.
  - apply Z.compare_gt_iff. nia.
Qed.

Lemma roundHalfEven_one (m : Z) : roundHalfEven m 1 = m.
Proof.
  unfold roundHalfEven. rewrite Z.mod_1_r, Z.div_1_r. reflexivity.
Qed.
End Shift.

Section Rounded.
Import JsNumber.
Local Open Scope Z_scope.

Lemma shr_exact_spec (m e n : Z) :
  0 <= m ->
  round_nearest_even
    (shr_m (fst (shr (shr_record_of_loc m loc_Exact) e n)))
    (loc_of_shr_record (fst (shr (shr_record_of_loc m loc_Exact) e n)))
  = roundHalfEven m (2 ^ Z.max 0 n)
  /\ snd (shr (shr_record_of_loc m loc_Exact) e n) = e + Z.max 0 n.
Proof.
  intros Hm. unfold shr, shr_record_of_loc.
  destruct n as [|p|p]; cbn [fst snd].
  - cbn [shr_m loc_of_shr_record round_nearest_even]. rewrite roundHalfEven_one.
    split; [reflexivity|]. cbn. lia.
  - rewrite iter_pos_nat.
    destruct (Pos.to_nat p) as [|k] eqn:Hk; [lia|].
    rewrite round_shifted by exact Hm.
    rewrite Z.max_r by lia. replace (Z.of_nat k + 1) with (Zpos p) by lia.
    split; reflexivity.
  - cbn [shr_m loc_of_shr_record round_nearest_even]. rewrite roundHalfEven_one.
    split; [reflexivity|]. cbn. lia.
Qed.

Lemma fractionOf_spec (m : positive) (e : Z) :
  Zpos (fst (fractionOf m e)) = Zpos m * pow2 e
  /\ Zpos (snd (fractionOf m e)) = pow2 (- e).
Proof.
  pose proof (pow2_pos e). pose proof (pow2_pos (- e)).
  unfold fractionOf. cbn [fst snd]. rewrite !Z2Pos.id by nia. auto.
Qed.

Lemma mag_fractionOf (m : positive) (e : Z) :
  mag (fst (fractionOf m e)) (snd (fractionOf m e)) = Zpos (digits2_pos m) + e.
Proof.
  destruct (fractionOf_spec m e) as [Hn Hd].
  pose proof (pow2_pos e) as P1. pose proof (pow2_pos (- e)) as P2.
  pose proof (digits2_bounds m) as [B1 B2].
  assert (Hdg : 1 <= Zpos (digits2_pos m)) by lia.
  apply mag_unique.
  - apply (atLeast_scale _ _ _ e); [lia|lia|].
    rewrite Hn, Hd.
    replace (Zpos (digits2_pos m) + e - 1 - e) with (Zpos (digits2_pos m) - 1) by lia.
    nia.
  - apply (below_scale _ _ _ e); [lia|lia|].
    rewrite Hn, Hd.
    replace (Zpos (digits2_pos m) + e - e) with (Zpos (digits2_pos m)) by lia.
    nia.
Qed.

(** Rounding a significand at an exponent, as the arithmetic of the
    Standard Library does it, gives the Number nearest to the fraction
    they stand for. *)
Lemma binary_round_aux_ofRatio (s : bool) (mx : positive) (ex : Z) :
  ex <= fexp prec emax (Zpos (digits2_pos mx) + ex) ->
  binary_round_aux prec emax s (Zpos mx) ex loc_Exact
  = ofRatio s (fst (fractionOf mx ex)) (snd (fractionOf mx ex)).
Proof.
  intros Hshift.
  destruct (fractionOf_spec mx ex) as [Hn Hd].
  pose proof (ofRatio_significand (fst (fractionOf mx ex)) (snd (fractionOf mx ex))) as Hsig.
  unfold ofRatio. rewrite mag_fractionOf in *. rewrite fexp_eq in *.
  cbv zeta in Hsig.
  set (e0 := Z.max (Zpos (digits2_pos mx) + ex - 53) (-1074)) in *.
  assert (He0 : -1074 <= e0) by (unfold e0; lia).
  (* the rounded significand *)
  assert (Hm : roundHalfEven (Zpos (fst (fractionOf mx ex)) * pow2 (- e0))
                             (Zpos (snd (fractionOf mx ex)) * pow2 e0)
               = roundHalfEven (Zpos mx) (2 ^ (e0 - ex))).
  { rewrite Hn, Hd.
    pose proof (pow2_ratio e0 ex Hshift) as Hr.
    pose proof (pow2_pos ex). pose proof (pow2_pos (- e0)).
    replace (Zpos mx * pow2 ex * pow2 (- e0)) with ((pow2 (- e0) * pow2 ex) * Zpos mx) by ring.
    replace (pow2 (- ex) * pow2 e0) with ((pow2 (- e0) * pow2 ex) * 2 ^ (e0 - ex)) by lia.
    apply roundHalfEven_scale; [nia|apply Z.pow_pos_nonneg; lia]. }
  rewrite Hm in *.
  unfold binary_round_aux, shr_fexp.
  change (Zdigits2 (Zpos mx)) with (Zpos (digits2_pos mx)).
  rewrite fexp_eq. fold e0.
  destruct (shr_exact_spec (Zpos mx) ex (e0 - ex) ltac:(lia)) as [H1 H2].
  destruct (shr (shr_record_of_loc (Zpos mx) loc_Exact) ex (e0 - ex)) as [mrs' e'].
  cbn [fst snd] in H1, H2. rewrite Z.max_r in H1, H2 by lia.
  rewrite H1. replace e' with e0 by lia. clear H1 H2 mrs' e'.
  set (m := roundHalfEven (Zpos mx) (2 ^ (e0 - ex))) in *. clearbody m.
  destruct Hsig as (Hb & _).
  change (2 ^ prec) with 9007199254740992. change (2 ^ (prec - 1)) with 4503599627370496.
  change (2 ^ 53) with 9007199254740992 in Hb.
  change (emax - prec) with 971.
  rewrite fexp_eq.
  destruct (Z.eqb_spec m 9007199254740992) as [->|Hne].
  - change (Zdigits2 9007199254740992) with 54.
    replace (Z.max (54 + e0 - 53) (-1074) - e0) with 1 by lia.
    reflexivity.
  - destruct m as [|p|p]; [| |lia].
    + change (Zdigits2 0) with 0.
      destruct (Z.max (0 + e0 - 53) (-1074) - e0) eqn:Hn0; try lia; reflexivity.
    + change (Zdigits2 (Zpos p)) with (Zpos (digits2_pos p)).
      pose proof (digits2_le p 53 ltac:(lia) ltac:(change (2 ^ 53) with 9007199254740992; lia)).
      destruct (Z.max (Zpos (digits2_pos p) + e0 - 53) (-1074) - e0) eqn:Hn0;
        try lia; reflexivity.
Qed.
End Rounded.


(** ** Random strings and e-mail addresses

    [generateRandomString] picks a character with
    [Math.floor(Math.random() * characters.length)].  The product is
    rounded to a Number, and the position is inside the alphabet only
    if no draw below 1 is rounded up to 62. *)

Section Multiplication.
Import JsNumber.
Local Open Scope Z_scope.

Lemma digits2_mul (m1 m2 : positive) :
  Zpos (digits2_pos m1) + Zpos (digits2_pos m2) - 1 <= Zpos (digits2_pos (m1 * m2)).
Proof.
  pose proof (digits2_bounds m1) as [L1 _].
  pose proof (digits2_bounds m2) as [L2 _].
  pose proof (digits2_bounds (m1 * m2)) as [_ U].
  assert (H1 : 1 <= Zpos (digits2_pos m1)) by lia.
  assert (H2 : 1 <= Zpos (digits2_pos m2)) by lia.
  assert (Hlt : 2 ^ (Zpos (digits2_pos m1) - 1 + (Zpos (digits2_pos m2) - 1))
                < 2 ^ Zpos (digits2_pos (m1 * m2))).
  { rewrite Z.pow_add_r by lia. rewrite Pos2Z.inj_mul in U. nia. }
  apply Z.pow_lt_mono_r_iff in Hlt; lia.
Qed.

(** The product of two Numbers, when both are finite. *)
Lemma mul_ofRatio (s1 s2 : bool) (m1 m2 : positive) (e1 e2 : Z) :
  bounded prec emax m1 e1 = true -> bounded prec emax m2 e2 = true ->
  mul (S754_finite s1 m1 e1) (S754_finite s2 m2 e2)
  = ofRatio (xorb s1 s2) (fst (fractionOf (m1 * m2) (e1 + e2)))
                         (snd (fractionOf (m1 * m2) (e1 + e2))).
Proof.
  intros B1 B2. unfold mul, SFmul.
  apply binary_round_aux_ofRatio.
  apply bounded_elim in B1, B2. destruct B1 as [B1 _], B2 as [B2 _].
  pose proof (digits2_mul m1 m2). rewrite fexp_eq. lia.
Qed.

(** Scaling a fraction. *)
Lemma mag_scale (k n d : positive) : mag (k * n) (k * d) = mag n d.
Proof.
  destruct (mag_spec n d) as [Hat Hbe].
  apply mag_unique; unfold atLeast, below in *; rewrite !Pos2Z.inj_mul; nia.
Qed.

Lemma ofRatio_scale (s : bool) (k n d : positive) :
  ofRatio s (k * n) (k * d) = ofRatio s n d.
Proof.
  unfold ofRatio. rewrite mag_scale. cbv zeta.
  rewrite !Pos2Z.inj_mul, <- !Z.mul_assoc.
  rewrite roundHalfEven_scale; [reflexivity|lia|].
  pose proof (pow2_pos (fexp prec emax (mag n d))). nia.
Qed.

(** The nearest Number keeps the order of fractions. *)
Lemma ofRatio_le (n1 d1 n2 d2 : positive) :
  Zpos n1 * Zpos d2 <= Zpos n2 * Zpos d1 ->
  le (ofRatio false n1 d1) (ofRatio false n2 d2) = true.
Proof.
  intros H.
  rewrite <- (ofRatio_scale false d2 n1 d1), <- (ofRatio_scale false d1 n2 d2).
  rewrite (Pos.mul_comm d1 d2).
  apply ofRatio_mono. lia.
Qed.
End Multiplication.

Section Draws.
Import JsNumber.
Local Open Scope Z_scope.

Lemma bounded_significand (m : positive) (e : Z) :
  bounded prec emax m e = true -> Zpos m < 2 ^ 53.
Proof.
  intros B. apply bounded_elim in B. destruct B as [B _].
  pose proof (digits2_bounds m) as [_ U].
  assert (Zpos (digits2_pos m) <= 53) by lia.
  eapply Z.lt_le_trans; [exact U|]. apply Z.pow_le_mono_r; lia.
Qed.

Lemma finite_lt_inv (p1 p2 : positive) (e1 e2 : Z) :
  lt (S754_finite false p1 e1) (S754_finite false p2 e2) = true ->
  e1 < e2 \/ (e1 = e2 /\ Zpos p1 < Zpos p2).
Proof.
  unfold lt, SFltb. cbn.
  change (Pos.compare_cont Eq p1 p2) with (Pos.compare p1 p2).
  destruct (Z.compare_spec e1 e2); try discriminate; [|left; assumption].
  destruct (Pos.compare_spec p1 p2); try discriminate.
  intros _. right. split; [assumption|]. now apply Pos2Z.pos_lt_pos.
Qed.

Lemma finite_le_inv (p1 p2 : positive) (e1 e2 : Z) :
  le (S754_finite false p1 e1) (S754_finite false p2 e2) = true ->
  e1 < e2 \/ (e1 = e2 /\ Zpos p1 <= Zpos p2).
Proof.
  unfold le, SFleb. cbn.
  change (Pos.compare_cont Eq p1 p2) with (Pos.compare p1 p2).
  destruct (Z.compare_spec e1 e2); try discriminate; [|left; assumption].
  destruct (Pos.compare_spec p1 p2); try discriminate; intros _; right;
    (split; [assumption|]).
  - subst. apply Z.le_refl.
  - apply Z.lt_le_incl. now apply Pos2Z.pos_lt_pos.
Qed.

Lemma one_value : ofDecimal false 1 0 = S754_finite false 4503599627370496 (-52).
Proof. vm_compute. reflexivity. Qed.

Lemma sixtyTwo_value : ofDecimal false 62 0 = S754_finite false 8725724278030336 (-47).
Proof. vm_compute. reflexivity. Qed.

Lemma below_one (m : positive) (e : Z) :
  lt (S754_finite false m e) (ofDecimal false 1 0) = true ->
  e < -52 \/ (e = -52 /\ Zpos m < 4503599627370496).
Proof. rewrite one_value. apply finite_lt_inv. Qed.

Lemma largestDraw62_value :
  largestDraw62 = S754_finite false 8725724278030335 (-47).
Proof. vm_compute. reflexivity. Qed.

Lemma draw_times_62 (m : positive) (e : Z) :
  bounded prec emax m e = true ->
  lt (S754_finite false m e) (ofDecimal false 1 0) = true ->
  exists x, mul (S754_finite false m e) (ofDecimal false 62 0) = x
            /\ valid_binary prec emax x = true
            /\ le x (S754_finite false 8725724278030335 (-47)) = true
            /\ (x = S754_zero false \/ exists M E, x = S754_finite false M E).
Proof.
  intros B Hlt.
  rewrite sixtyTwo_value.
  rewrite mul_ofRatio by (exact B || reflexivity).
  cbn [xorb].
  set (n := fst (fractionOf (m * 8725724278030336) (e + -47))).
  set (d := snd (fractionOf (m * 8725724278030336) (e + -47))).
  exists (ofRatio false n d). split; [reflexivity|]. split; [apply ofRatio_valid|].
  assert (Hle : le (ofRatio false n d) (S754_finite false 8725724278030335 (-47)) = true).
  { rewrite <- largestDraw62_value. unfold largestDraw62. apply ofRatio_le.
    destruct (fractionOf_spec (m * 8725724278030336) (e + -47)) as [Hn Hd].
    destruct (fractionOf_spec (9007199254740991 * 8725724278030336) (-53 + -47)) as [Hn' Hd'].
    fold n d in Hn, Hd. rewrite Hn, Hd, Hn', Hd'.
    pose proof (bounded_significand m e B) as Hm.
    change (2 ^ 53) with 9007199254740992 in Hm.
    destruct (below_one m e Hlt) as [He|[He Hm2]].
    - rewrite (pow2_nonpos (e + -47)), (pow2_nonneg (- (e + -47))) by lia.
      change (pow2 (-53 + -47)) with 1. change (pow2 (- (-53 + -47))) with (2 ^ 100).
      replace (- (e + -47)) with (100 + (- e - 53)) by lia.
      rewrite Z.pow_add_r by lia.
      assert (1 <= 2 ^ (- e - 53)) by (apply (Z.pow_le_mono_r 2 0); lia).
      rewrite !Pos2Z.inj_mul. nia.
    - subst e.
      change (pow2 (-52 + -47)) with 1. change (pow2 (- (-52 + -47))) with (2 ^ 99).
      change (pow2 (-53 + -47)) with 1. change (pow2 (- (-53 + -47))) with (2 ^ 100).
      change (2 ^ 100) with (2 * 2 ^ 99).
      assert (0 < 2 ^ 99) by reflexivity.
      rewrite !Pos2Z.inj_mul. nia. }
  split; [exact Hle|].
  destruct (ofRatio_shape n d) as [->|[Hinf|(M & E & ->)]]; [left; reflexivity| |right; eauto].
  rewrite Hinf in Hle. discriminate.
Qed.

Lemma floor_below_62 (M : positive) (E : Z) :
  bounded prec emax M E = true ->
  le (S754_finite false M E) (S754_finite false 8725724278030335 (-47)) = true ->
  0 <= floor (S754_finite false M E) <= 61.
Proof.
  intros B Hle.
  pose proof (bounded_significand M E B) as HM.
  change (2 ^ 53) with 9007199254740992 in HM.
  pose proof (finite_le_inv _ _ _ _ Hle) as HE.
  destruct E as [|k|k]; try lia.
  unfold floor. cbn [toFraction fst snd].
  rewrite Pos2Z.inj_pow.
  assert (Hk : 47 <= Zpos k) by lia.
  assert (Hp : 2 ^ 47 <= 2 ^ Zpos k) by (apply Z.pow_le_mono_r; lia).
  change (2 ^ 47) with 140737488355328 in Hp.
  split; [apply Z.div_pos; lia|].
  apply Z.lt_succ_r. apply Z.div_lt_upper_bound; [lia|].
  destruct HE as [HE|[HE HM2]].
  - assert (2 ^ 48 <= 2 ^ Zpos k) by (apply Z.pow_le_mono_r; lia).
    change (2 ^ 48) with 281474976710656 in *. lia.
  - replace (Zpos k) with 47 by lia. change (2 ^ 47) with 140737488355328. lia.
Qed.

Lemma draw_position (r : number) :
  isDraw r ->
  exists i, floorPosition (mul r (ofDecimal false 62 0)) = Some i /\ 0 <= i <= 61.
Proof.
  intros (Hv & Hpos & Hlt).
  destruct r as [s|s| |s m e].
  - exists 0. split; [destruct s; reflexivity|lia].
  - destruct s; discriminate.
  - discriminate.
  - destruct s; [discriminate|].
    destruct (draw_times_62 m e Hv Hlt) as (x & -> & Hvx & Hle & [->|(M & E & ->)]).
    + exists 0. split; [reflexivity|lia].
    + exists (floor (S754_finite false M E)). split; [reflexivity|].
      now apply floor_below_62.
Qed.
End Draws.

Lemma length_append (a b : string) :
  String.length (a ++ b) = (String.length a + String.length b)%nat.
Proof. induction a as [|c a IH]; [reflexivity|]. cbn. now rewrite IH. Qed.

Lemma allChars_append (p : ascii -> bool) (a b : string) :
  allChars p (a ++ b) = allChars p a && allChars p b.
Proof.
  induction a as [|c a IH]; [reflexivity|]. cbn. rewrite IH. apply andb_assoc.
Qed.

Lemma append_one (a b : string) (c : ascii) :
  (a ++ String c EmptyString) ++ b = a ++ String c b.
Proof. induction a as [|x a IH]; [reflexivity|]. cbn. now rewrite IH. Qed.

(** A position inside the alphabet holds one of its characters. *)
Lemma charAt_characters (i : Z) :
  (0 <= i <= 61)%Z ->
  exists c, JsString.charAt Helpers.characters (Some i) = String c EmptyString
            /\ isAlphanumeric c = true.
Proof.
  intros Hi. unfold JsString.charAt.
  replace (0 <=? i)%Z with true by (symmetry; apply Z.leb_le; lia).
  assert (Hn : (Z.to_nat i < 62)%nat) by lia.
  destruct (Z.to_nat i) as [|n]; [eexists; split; reflexivity|].
  do 61 (destruct n as [|n]; [eexists; split; reflexivity|]).
  lia.
Qed.

Lemma generateRandomStringLoop_spec (draws : nat -> JsNumber.number) (steps : nat) :
  forall i result,
    (forall j, (i <= j < i + steps)%nat -> isDraw (draws j)) ->
    exists drawn,
      Helpers.generateRandomStringLoop draws steps i result = result ++ drawn
      /\ String.length drawn = steps
      /\ allChars isAlphanumeric drawn = true.
Proof.
  induction steps as [|steps IH]; intros i result Hdraws.
  - exists EmptyString. cbn. split; [now rewrite append_empty_r|auto].
  - cbn [Helpers.generateRandomStringLoop].
    change (JsNumber.ofDecimal false (N.of_nat (String.length Helpers.characters)) 0)
      with (JsNumber.ofDecimal false 62 0).
    destruct (draw_position (draws i) (Hdraws i ltac:(lia))) as (k & -> & Hk).
    destruct (charAt_characters k Hk) as (c & -> & Hc).
    destruct (IH (S i) (result ++ String c EmptyString)) as (drawn & -> & Hlen & Hall).
    { intros j Hj. apply Hdraws. lia. }
    exists (String c drawn). split; [|split].
    + apply append_one.
    + cbn. now rewrite Hlen.
    + cbn. now rewrite Hc, Hall.
Qed.

Lemma toLowerCase_length (s : string) :
  String.length (JsString.toLowerCase s) = String.length s.
Proof. induction s as [|c s IH]; [reflexivity|]. cbn. now rewrite IH. Qed.

Lemma lowerChar_alphanumeric (c : ascii) :
  isAlphanumeric c = true -> isSlugLetter (JsString.lowerChar c) = true.
Proof.
  destruct c as [[] [] [] [] [] [] [] []]; vm_compute; intros H;
    try discriminate; reflexivity.
Qed.

Lemma toLowerCase_alphanumeric (s : string) :
  allChars isAlphanumeric s = true -> allChars isSlugLetter (JsString.toLowerCase s) = true.
Proof.
  induction s as [|c s IH]; [reflexivity|]. cbn.
  intros H. apply andb_true_iff in H. destruct H as [Hc Hs].
  now rewrite (lowerChar_alphanumeric c Hc), IH.
Qed.



(** X26: under the same condition on the ten draws it makes,
    [generateRandomEmail domain] is a local part of exactly ten lower
    case letters and digits, an at sign and the domain as given. *)
Theorem generateRandomEmail_shape (draws : nat -> JsNumber.number) (domain : string) :
  (forall j, (j < 10)%nat -> isDraw (draws j)) ->
  exists randomString,
    Helpers.generateRandomEmail draws domain = randomString ++ "@" ++ domain
    /\ String.length randomString = 10%nat
    /\ allChars isSlugLetter randomString = true.
Proof.
  intros Hdraws. unfold Helpers.generateRandomEmail, Helpers.generateRandomString.
  destruct (generateRandomStringLoop_spec draws (Z.to_nat 10) 0 EmptyString)
    as (drawn & -> & Hlen & Hall).
  { intros j Hj. apply Hdraws. change (Z.to_nat 10) with 10%nat in Hj. lia. }
  cbn [append]. eexists. split; [reflexivity|]. split.
  - rewrite toLowerCase_length. exact Hlen.
  - now apply toLowerCase_alphanumeric.
Qed.

Lemma generateRandomEmail_shape_witness :
  Helpers.generateRandomEmail sampleDraws "example.com" = "fa9aaaaaaa@example.com"
  /\ exists randomString,
       Helpers.generateRandomEmail sampleDraws "example.com"
       = randomString ++ "@" ++ "example.com"
       /\ String.length randomString = 10%nat
       /\ allChars isSlugLetter randomString = true.
Proof.
  split; [vm_compute; reflexivity|].
  apply (generateRandomEmail_shape sampleDraws "example.com").
  intros j _.
  do 4 (destruct j as [|j]; [repeat split; vm_compute; reflexivity|]).
  repeat split; vm_compute; reflexivity.
Defined.

(** ** Numbers that count

    Loop counters, lengths and indices are Numbers.  The integers up
    to [2 ^ 53] are Numbers exactly, their order is the order of the
    integers, and adding 1 counts on below [2 ^ 53]. *)

Section Counting.
Import JsNumber.
Local Open Scope Z_scope.

(** The nearest Number depends on the fraction only. *)
Lemma ofRatio_ratio (s : bool) (n1 d1 n2 d2 : positive) :
  Zpos n1 * Zpos d2 = Zpos n2 * Zpos d1 ->
  ofRatio s n1 d1 = ofRatio s n2 d2.
Proof.
  intros H.
  rewrite <- (ofRatio_scale s d2 n1 d1), <- (ofRatio_scale s d1 n2 d2).
  f_equal; apply Pos2Z.inj; rewrite !Pos2Z.inj_mul; lia.
Qed.

(** An integer up to [2 ^ 53] is a Number: the significand and the
    exponent of the Number for [k]. *)
Lemma ofRatio_integer (k : positive) :
  Zpos k < 2 ^ 53 ->
  exists M : positive,
    ofRatio false k 1 = S754_finite false M (Zpos (digits2_pos k) - 53)
    /\ bounded prec emax M (Zpos (digits2_pos k) - 53) = true
    /\ Zpos M = Zpos k * 2 ^ (53 - Zpos (digits2_pos k))
    /\ Zpos (digits2_pos k) <= 53.
Proof.
  intros Hk.
  pose proof (digits2_bounds k) as [L U].
  assert (Hg : Zpos (digits2_pos k) <= 53) by (apply digits2_le; lia).
  set (g := Zpos (digits2_pos k)) in *.
  assert (Hp : 0 < 2 ^ (53 - g)) by (apply Z.pow_pos_nonneg; lia).
  assert (HM : 0 < Zpos k * 2 ^ (53 - g)) by lia.
  destruct (Zpos k * 2 ^ (53 - g)) as [|M|M] eqn:EM; try lia.
  exists M.
  assert (HL : 2 ^ 52 <= Zpos M).
  { rewrite <- EM. replace 52 with ((g - 1) + (53 - g)) by lia.
    rewrite Z.pow_add_r by lia. nia. }
  assert (HU : Zpos M < 2 ^ 53).
  { rewrite <- EM. replace 53 with (g + (53 - g)) at 2 by lia.
    rewrite Z.pow_add_r by lia. nia. }
  assert (HD : Zpos (digits2_pos M) = 53) by (apply digits2_unique; split; assumption).
  assert (B : bounded prec emax M (g - 53) = true).
  { apply bounded_intro; rewrite ?HD; lia. }
  repeat split; auto.
  apply ofRatio_exact; [exact B|].
  rewrite (pow2_nonneg (- (g - 53))), (pow2_nonpos (g - 53)) by lia.
  replace (- (g - 53)) with (53 - g) by lia. lia.
Qed.
End Counting.

Section Order.
Import JsNumber.
Local Open Scope Z_scope.

(** The order of two Numbers above zero is the order of their values. *)
Lemma compare_value (m1 m2 : positive) (e1 e2 : Z) :
  bounded prec emax m1 e1 = true -> bounded prec emax m2 e2 = true ->
  SFcompare (S754_finite false m1 e1) (S754_finite false m2 e2)
  = Some (Zpos m1 * pow2 e1 * pow2 (- e2) ?= Zpos m2 * pow2 e2 * pow2 (- e1)).
Proof.
  intros B1 B2.
  pose proof (bounded_significand m1 e1 B1) as U1.
  pose proof (bounded_significand m2 e2 B2) as U2.
  apply bounded_elim in B1, B2. destruct B1 as [B1 _], B2 as [B2 _].
  pose proof (digits2_bounds m1) as [L1 _].
  pose proof (digits2_bounds m2) as [L2 _].
  pose proof (pow2_pos e1). pose proof (pow2_pos (- e2)).
  unfold SFcompare.
  change (Pos.compare_cont Eq m1 m2) with (Pos.compare m1 m2).
  f_equal. symmetry.
  destruct (Z.compare_spec e1 e2) as [He|He|He].
  - subst e2. rewrite Pos2Z.inj_compare.
    destruct (Z.compare_spec (Zpos m1) (Zpos m2)) as [Hm|Hm|Hm].
    + rewrite Hm. apply Z.compare_refl.
    + apply Z.compare_lt_iff. nia.
    + apply Z.compare_gt_iff. nia.
  - apply Z.compare_lt_iff.
    rewrite <- (Z.mul_assoc (Zpos m2)), (pow2_ratio e2 e1) by lia.
    assert (D2 : Zpos (digits2_pos m2) = 53) by lia.
    rewrite D2 in L2.
    assert (2 <= 2 ^ (e2 - e1)) by (apply (Z.pow_le_mono_r 2 1); lia).
    change (2 ^ 53) with 9007199254740992 in *.
    change (2 ^ (53 - 1)) with 4503599627370496 in *.
    assert (Hs : Zpos m1 < Zpos m2 * 2 ^ (e2 - e1)) by nia.
    replace (Zpos m1 * pow2 e1 * pow2 (- e2))
      with (Zpos m1 * (pow2 (- e2) * pow2 e1)) by lia.
    rewrite (Z.mul_assoc (Zpos m2)).
    apply Z.mul_lt_mono_pos_r; [lia|exact Hs].
  - apply Z.compare_gt_iff.
    rewrite <- (Z.mul_assoc (Zpos m1)), (pow2_ratio e1 e2) by lia.
    assert (D1 : Zpos (digits2_pos m1) = 53) by lia.
    rewrite D1 in L1.
    assert (2 <= 2 ^ (e1 - e2)) by (apply (Z.pow_le_mono_r 2 1); lia).
    pose proof (pow2_pos e2). pose proof (pow2_pos (- e1)).
    change (2 ^ 53) with 9007199254740992 in *.
    change (2 ^ (53 - 1)) with 4503599627370496 in *.
    assert (Hs : Zpos m2 < Zpos m1 * 2 ^ (e1 - e2)) by nia.
    replace (Zpos m2 * pow2 e2 * pow2 (- e1))
      with (Zpos m2 * (pow2 (- e1) * pow2 e2)) by lia.
    rewrite (Z.mul_assoc (Zpos m1)).
    apply Z.mul_lt_mono_pos_r; [lia|exact Hs].
Qed.
End Order.

Section IntegerOrder.
Import JsNumber.
Local Open Scope Z_scope.

Lemma compare_scale (c a b : Z) : 0 < c -> (a * c ?= b * c) = (a ?= b).
Proof.
  intros Hc. destruct (Z.compare_spec a b) as [H|H|H].
  - subst. apply Z.compare_refl.
  - apply Z.compare_lt_iff. nia.
  - apply Z.compare_gt_iff. nia.
Qed.

Lemma two_53_finite :
  ofRatio false 9007199254740992 1 = S754_finite false 4503599627370496 1.
Proof. vm_compute. reflexivity. Qed.

(** An integer up to [2 ^ 53] against a Number above zero. *)
Lemma compare_integer (k M : positive) (E : Z) :
  Zpos k <= 2 ^ 53 -> bounded prec emax M E = true ->
  SFcompare (ofRatio false k 1) (S754_finite false M E)
  = Some (Zpos k * pow2 (- E) ?= Zpos M * pow2 E).
Proof.
  intros Hk B.
  destruct (Z.eq_dec (Zpos k) (2 ^ 53)) as [Hmax|Hlow].
  - assert (Hk' : k = 9007199254740992%positive) by (apply Pos2Z.inj; exact Hmax).
    subst k. rewrite two_53_finite.
    assert (B53 : bounded prec emax 4503599627370496 1 = true)
      by (vm_compute; reflexivity).
    rewrite (compare_value _ _ _ _ B53 B). f_equal.
    change (pow2 1) with 2. change (pow2 (Z.opp 1)) with 1.
    change (Zpos 9007199254740992) with (Zpos 4503599627370496 * 2).
    f_equal; ring.
  - destruct (ofRatio_integer k ltac:(lia)) as (Mk & -> & Bk & HMk & Hg).
    rewrite (compare_value _ _ _ _ Bk B). f_equal.
    set (g := Zpos (digits2_pos k)) in *.
    rewrite (pow2_nonpos (g - 53)), (pow2_nonneg (- (g - 53))) by lia.
    replace (- (g - 53)) with (53 - g) by lia.
    rewrite HMk.
    assert (0 < 2 ^ (53 - g)) by (apply Z.pow_pos_nonneg; lia).
    replace (Zpos k * 2 ^ (53 - g) * 1 * pow2 (- E))
      with (Zpos k * pow2 (- E) * 2 ^ (53 - g)) by lia.
    now apply compare_scale.
Qed.

Lemma compare_integer_r (k M : positive) (E : Z) :
  Zpos k <= 2 ^ 53 -> bounded prec emax M E = true ->
  SFcompare (S754_finite false M E) (ofRatio false k 1)
  = Some (Zpos M * pow2 E ?= Zpos k * pow2 (- E)).
Proof.
  intros Hk B. rewrite SFcompare_swap, (compare_integer k M E Hk B).
  cbn [option_map]. f_equal. symmetry. apply Z.compare_antisym.
Qed.
End IntegerOrder.

Section Addition.
Import JsNumber.
Local Open Scope Z_scope.

Lemma iter_xO (m d : positive) : Zpos (Pos.iter xO m d) = Zpos m * 2 ^ Zpos d.
Proof.
  induction d as [|d IH] using Pos.peano_ind.
  - cbn. lia.
  - rewrite Pos.iter_succ, Pos2Z.inj_xO, IH, Pos2Z.inj_succ, Z.pow_succ_r by lia. lia.
Qed.

(** The significand moved to a smaller exponent. *)
Lemma shl_align_spec (m : positive) (e e' : Z) :
  e' <= e ->
  Zpos (fst (shl_align m e e')) = Zpos m * 2 ^ (e - e')
  /\ snd (shl_align m e e') = e'.
Proof.
  intros H. unfold shl_align.
  destruct (e' - e) as [|d|d] eqn:Hd; try lia; cbn [fst snd].
  - replace (e - e') with 0 by lia. split; lia.
  - rewrite iter_xO. replace (e - e') with (Zpos d) by lia. split; reflexivity.
Qed.

Lemma shl_align_keep (m : positive) (e e' : Z) :
  e <= e' -> shl_align m e e' = (m, e).
Proof.
  intros H. unfold shl_align. destruct (e' - e) eqn:Hd; try reflexivity. lia.
Qed.

(** The Number of an exact significand and exponent. *)
Lemma binary_round_ofRatio (s : bool) (m : positive) (e : Z) :
  binary_round prec emax s m e
  = ofRatio s (fst (fractionOf m e)) (snd (fractionOf m e)).
Proof.
  unfold binary_round.
  set (e' := fexp prec emax (Zpos (digits2_pos m) + e)).
  destruct (Z.le_gt_cases e e') as [H|H].
  - rewrite shl_align_keep by exact H.
    apply binary_round_aux_ofRatio. exact H.
  - destruct (shl_align_spec m e e' ltac:(lia)) as [Hm He].
    destruct (shl_align m e e') as [mz ez]. cbn [fst snd] in Hm, He. subst ez.
    assert (Hp : 0 < 2 ^ (e - e')) by (apply Z.pow_pos_nonneg; lia).
    assert (Hd : Zpos (digits2_pos mz) = Zpos (digits2_pos m) + (e - e')).
    { apply digits2_unique. pose proof (digits2_bounds m) as [L U]. rewrite Hm.
      replace (Zpos (digits2_pos m) + (e - e') - 1)
        with ((Zpos (digits2_pos m) - 1) + (e - e')) by lia.
      rewrite !Z.pow_add_r by lia. nia. }
    rewrite binary_round_aux_ofRatio.
    + apply ofRatio_ratio.
      destruct (fractionOf_spec mz e') as [-> ->].
      destruct (fractionOf_spec m e) as [-> ->].
      rewrite Hm.
      pose proof (pow2_ratio e e' ltac:(lia)) as K.
      transitivity (Zpos m * (2 ^ (e - e') * (pow2 (- e) * pow2 e'))); [ring|].
      rewrite <- K. ring.
    + rewrite Hd. replace (Zpos (digits2_pos m) + (e - e') + e')
        with (Zpos (digits2_pos m) + e) by lia. fold e'. lia.
Qed.

(** The sum of two Numbers above zero is the Number nearest to the sum
    of their values. *)
Lemma add_ofRatio (m1 m2 n d : positive) (e1 e2 : Z) :
  Zpos n * (pow2 (- e1) * pow2 (- e2))
  = Zpos d * (Zpos m1 * pow2 e1 * pow2 (- e2) + Zpos m2 * pow2 e2 * pow2 (- e1)) ->
  add (S754_finite false m1 e1) (S754_finite false m2 e2) = ofRatio false n d.
Proof.
  intros H. unfold add, SFadd. cbn [cond_Zopp].
  set (ez := Z.min e1 e2).
  destruct (shl_align_spec m1 e1 ez ltac:(lia)) as [H1 _].
  destruct (shl_align_spec m2 e2 ez ltac:(lia)) as [H2 _].
  set (a1 := fst (shl_align m1 e1 ez)) in *.
  set (a2 := fst (shl_align m2 e2 ez)) in *.
  change (Zpos a1 + Zpos a2) with (Zpos (a1 + a2)).
  cbn [binary_normalize]. rewrite binary_round_ofRatio.
  apply ofRatio_ratio.
  destruct (fractionOf_spec (a1 + a2) ez) as [-> ->].
  rewrite Pos2Z.inj_add, H1, H2.
  pose proof (pow2_pos e1). pose proof (pow2_pos e2).
  pose proof (pow2_pos (- e1)). pose proof (pow2_pos (- e2)).
  pose proof (pow2_pos ez). pose proof (pow2_pos (- ez)).
  assert (K1 : pow2 e1 * pow2 (- ez) = 2 ^ (e1 - ez) * (pow2 (- e1) * pow2 ez))
    by (apply pow2_ratio; lia).
  assert (K2 : pow2 e2 * pow2 (- ez) = 2 ^ (e2 - ez) * (pow2 (- e2) * pow2 ez))
    by (apply pow2_ratio; lia).
  apply (Z.mul_reg_r _ _ (pow2 (- e1) * pow2 (- e2))); [lia|].
  transitivity ((Zpos m1 * (2 ^ (e1 - ez) * (pow2 (- e1) * pow2 ez)) * pow2 (- e2)
                 + Zpos m2 * (2 ^ (e2 - ez) * (pow2 (- e2) * pow2 ez)) * pow2 (- e1))
                * Zpos d).
  - ring.
  - rewrite <- K1, <- K2.
    transitivity (Zpos n * (pow2 (- e1) * pow2 (- e2)) * pow2 (- ez)); [|ring].
    rewrite H. ring.
Qed.
End Addition.

Section Counter.
Import JsNumber.
Local Open Scope Z_scope.

Lemma one_finite : one = S754_finite false 4503599627370496 (-52).
Proof. vm_compute. reflexivity. Qed.

(** [attempt++] on a counter below [2 ^ 53]. *)
Lemma counter_step (k : positive) :
  Zpos k < 2 ^ 53 ->
  add (ofRatio false k 1) one = ofRatio false (k + 1) 1.
Proof.
  intros Hk.
  destruct (ofRatio_integer k Hk) as (Mk & -> & Bk & HMk & Hg).
  rewrite one_finite.
  apply add_ofRatio.
  set (g := Zpos (digits2_pos k)) in *.
  rewrite (pow2_nonpos (g - 53)), (pow2_nonneg (- (g - 53))) by lia.
  replace (- (g - 53)) with (53 - g) by lia.
  rewrite (pow2_nonpos (-52)), (pow2_nonneg (- -52)) by lia.
  rewrite HMk, Pos2Z.inj_add.
  change (- -52) with 52.
  change (Zpos 4503599627370496) with (2 ^ 52).
  generalize (2 ^ 52) (2 ^ (53 - g)). intros t c. ring.
Qed.
End Counter.

(** ** The retry helper *)

Section RetryAttempts.
Import JsNumber.
Local Open Scope Z_scope.
Context {W T : Type}.
Variable fn : Async W T.
Variable sleep : number -> W -> W.
Variable delay : number.
(** [maxAttempts] is the Number of the value [num / den], from 1 up
    to [2 ^ 53]. *)
Variables (M : positive) (E : Z).
Hypothesis bounded_maxAttempts : bounded prec emax M E = true.
Local Abbreviation maxAttempts := (S754_finite false M E).
Local Abbreviation num := (Zpos M * pow2 E).
Local Abbreviation den := (pow2 (- E)).
Hypothesis from_one : den <= num.
Hypothesis below_2_53 : num < 2 ^ 53 * den.

Lemma retryFrom_unfold {V} (f : Async V T) (sl : number -> V -> V) (m : number)
  (fuel : nat) (attempt : number) (lastError : Exception) (v : V) :
  Helpers.retryFrom f sl m delay fuel attempt lastError v
  = if le attempt m then
      match fuel with
      | O => None
      | S fuel' =>
          match f v with
          | (Ok r, v1) => Some (Ok r, v1)
          | (Throw error, v1) =>
              Helpers.retryFrom f sl m delay fuel' (add attempt one) error
                (if lt attempt m then sl delay v1 else v1)
          end
      end
    else Some (Throw (if truthy lastError then lastError else Error "Retry failed"), v).
Proof. destruct fuel; reflexivity. Qed.

Lemma den_pos : 0 < den.
Proof. apply pow2_pos. Qed.

Lemma attempts_from_one : 1 <= num / den < 2 ^ 53.
Proof.
  pose proof den_pos. split.
  - apply Z.div_le_lower_bound; lia.
  - apply Z.div_lt_upper_bound; lia.
Qed.

Lemma le_counter (k : positive) :
  Zpos k <= 2 ^ 53 ->
  le (ofRatio false k 1) maxAttempts = (Zpos k * den <=? num).
Proof.
  intros Hk. unfold le, SFleb.
  rewrite (compare_integer k M E Hk bounded_maxAttempts).
  unfold Z.leb. destruct (Zpos k * den ?= num); reflexivity.
Qed.

Lemma lt_counter (k : positive) :
  Zpos k <= 2 ^ 53 ->
  lt (ofRatio false k 1) maxAttempts = (Zpos k * den <? num).
Proof.
  intros Hk. unfold lt, SFltb.
  rewrite (compare_integer k M E Hk bounded_maxAttempts).
  unfold Z.ltb. destruct (Zpos k * den ?= num); reflexivity.
Qed.

Lemma counter_in (k : positive) :
  Zpos k <= num / den -> (Zpos k * den <=? num) = true.
Proof.
  intros Hk. pose proof den_pos. apply Z.leb_le.
  pose proof (Z.mul_div_le num den ltac:(lia)). nia.
Qed.

Lemma counter_inside (k : positive) :
  Zpos k < num / den -> (Zpos k * den <? num) = true.
Proof.
  intros Hk. pose proof den_pos. apply Z.ltb_lt.
  pose proof (Z.mul_div_le num den ltac:(lia)). nia.
Qed.

Lemma counter_out (k : positive) :
  num / den < Zpos k -> (Zpos k * den <=? num) = false.
Proof.
  intros Hk. pose proof den_pos. apply Z.leb_gt.
  pose proof (Z.mul_succ_div_gt num den ltac:(lia)). nia.
Qed.

Lemma counter_last (k : positive) :
  Zpos k = num / den -> (Zpos k * den <? num) = negb (num mod den =? 0).
Proof.
  intros Hk. pose proof den_pos. rewrite Hk.
  pose proof (Z.div_mod num den ltac:(lia)) as Hdm.
  pose proof (Z.mod_pos_bound num den ltac:(lia)).
  destruct (Z.eqb_spec (num mod den) 0) as [Hz|Hz]; cbn [negb].
  - apply Z.ltb_ge. lia.
  - apply Z.ltb_lt. lia.
Qed.

Lemma floor_finite : floor maxAttempts = num / den.
Proof.
  unfold floor.
  destruct (toFraction_finite M E) as (d & -> & Hd). now rewrite Hd.
Qed.

Lemma isInteger_finite : isInteger maxAttempts = (num mod den =? 0).
Proof.
  unfold isInteger.
  destruct (toFraction_finite M E) as (d & -> & Hd). now rewrite Hd.
Qed.

Lemma attemptsLog_cons (r : Result T) (rest : list (Result T)) :
  rest <> [] ->
  attemptsLog delay (r :: rest) = Called r :: Slept delay :: attemptsLog delay rest.
Proof. destruct rest; [congruence|reflexivity]. Qed.

Lemma retryFrom_attempts (j : nat) :
  forall (k : positive) lastError w log,
    Zpos k <= num / den ->
    Z.to_nat (num / den - Zpos k) = j ->
    exists errors last w',
      (forall fuel, (S j <= fuel)%nat ->
         Helpers.retryFrom (loggedFn fn) (loggedSleep sleep) maxAttempts delay fuel
             (ofRatio false k 1) lastError (w, log)
           = Some (retrySettles last,
                   (w', (log ++ attemptsLog delay (map Throw errors ++ [last])
                             ++ sleptLast maxAttempts delay last)%list))
         /\ Helpers.retryFrom fn sleep maxAttempts delay fuel
              (ofRatio false k 1) lastError w
            = Some (retrySettles last, w'))
      /\ Zpos k + Z.of_nat (List.length errors) <= num / den
      /\ (forall e, last = Throw e ->
                    Zpos k + Z.of_nat (List.length errors) = num / den).
Proof.
  pose proof attempts_from_one as [Hn1 Hn2].
  induction j as [|j IH]; intros k lastError w log Hk Hj.
  - (* the last attempt *)
    assert (Hkn : Zpos k = num / den) by lia.
    destruct (fn w) as [[v|e] w1] eqn:Hfn.
    + exists [], (Ok v), w1.
      repeat split; try (cbn [List.length Z.of_nat]; lia); try discriminate.
      * destruct fuel as [|fuel]; [lia|].
        rewrite retryFrom_unfold, le_counter, counter_in by lia.
        cbn [loggedFn]. rewrite Hfn.
        cbn [retrySettles sleptLast map app attemptsLog]. rewrite ?app_nil_r.
        reflexivity.
      * destruct fuel as [|fuel]; [lia|].
        rewrite retryFrom_unfold, le_counter, counter_in by lia.
        now rewrite Hfn.
    + exists [], (Throw e), (if isInteger maxAttempts then w1 else sleep delay w1).
      repeat split; try (cbn [List.length Z.of_nat]; lia).
      * destruct fuel as [|fuel]; [lia|].
        rewrite retryFrom_unfold, le_counter, counter_in by lia.
        cbn [loggedFn]. rewrite Hfn.
        rewrite lt_counter, counter_last, counter_step by lia.
        rewrite retryFrom_unfold, le_counter, counter_out
          by (rewrite Pos2Z.inj_add; lia).
        cbn [retrySettles sleptLast map app attemptsLog].
        rewrite isInteger_finite.
        destruct (num mod den =? 0); cbn [negb loggedSleep];
          rewrite ?app_nil_r, <- ?app_assoc; reflexivity.
      * destruct fuel as [|fuel]; [lia|].
        rewrite retryFrom_unfold, le_counter, counter_in by lia.
        rewrite Hfn.
        rewrite lt_counter, counter_last, counter_step by lia.
        rewrite retryFrom_unfold, le_counter, counter_out
          by (rewrite Pos2Z.inj_add; lia).
        cbn [retrySettles]. rewrite isInteger_finite.
        destruct (num mod den =? 0); reflexivity.
  - assert (Hkn : Zpos k < num / den) by lia.
    destruct (fn w) as [[v|e] w1] eqn:Hfn.
    + exists [], (Ok v), w1.
      repeat split; try (cbn [List.length Z.of_nat]; lia); try discriminate.
      * destruct fuel as [|fuel]; [lia|].
        rewrite retryFrom_unfold, le_counter, counter_in by lia.
        cbn [loggedFn]. rewrite Hfn.
        cbn [retrySettles sleptLast map app attemptsLog]. rewrite ?app_nil_r.
        reflexivity.
      * destruct fuel as [|fuel]; [lia|].
        rewrite retryFrom_unfold, le_counter, counter_in by lia.
        now rewrite Hfn.
    + destruct (IH (k + 1)%positive e (sleep delay w1)
                  ((log ++ [Called (Throw e)]) ++ [Slept delay])%list
                  ltac:(rewrite Pos2Z.inj_add; lia) ltac:(rewrite Pos2Z.inj_add; lia))
        as (errors & last & w' & Hrun & Hcount & Hlast).
      exists (e :: errors), last, w'. repeat split.
      * destruct fuel as [|fuel]; [lia|].
        rewrite retryFrom_unfold, le_counter, counter_in by lia.
        cbn [loggedFn]. rewrite Hfn.
        rewrite lt_counter, counter_inside, counter_step by lia.
        cbn [loggedSleep].
        rewrite (proj1 (Hrun fuel ltac:(lia))).
        cbn [map app]. rewrite attemptsLog_cons.
        -- rewrite <- !app_assoc. reflexivity.
        -- destruct (map Throw errors); discriminate.
      * destruct fuel as [|fuel]; [lia|].
        rewrite retryFrom_unfold, le_counter, counter_in by lia.
        rewrite Hfn.
        rewrite lt_counter, counter_inside, counter_step by lia.
        exact (proj2 (Hrun fuel ltac:(lia))).
      * cbn [List.length]. rewrite Pos2Z.inj_add in Hcount. lia.
      * intros e' He'. specialize (Hlast e' He').
        cbn [List.length]. rewrite Pos2Z.inj_add in Hlast. lia.
Qed.
End RetryAttempts.

Section RetryBounds.
Import JsNumber.
Local Open Scope Z_scope.

Lemma two_53_value :
  ofDecimal false 9007199254740992 0 = S754_finite false 4503599627370496 1.
Proof. vm_compute. reflexivity. Qed.

(** A [maxAttempts] from 1 on and below [2 ^ 53] is a finite Number
    above zero whose value lies there. *)
Lemma maxAttempts_shape (maxAttempts : number) :
  valid_binary prec emax maxAttempts = true ->
  le one maxAttempts = true ->
  lt maxAttempts (ofDecimal false 9007199254740992 0) = true ->
  exists M E,
    maxAttempts = S754_finite false M E
    /\ bounded prec emax M E = true
    /\ pow2 (- E) <= Zpos M * pow2 E
    /\ Zpos M * pow2 E < 2 ^ 53 * pow2 (- E).
Proof.
  intros Hv H1 H2. rewrite one_finite in H1. rewrite two_53_value in H2.
  destruct maxAttempts as [s|s| |s M E]; try discriminate.
  - destruct s; discriminate.
  - destruct s; [discriminate|].
    exists M, E. split; [reflexivity|]. split; [exact Hv|].
    assert (B1 : bounded prec emax 4503599627370496 (-52) = true)
      by (vm_compute; reflexivity).
    assert (B53 : bounded prec emax 4503599627370496 1 = true)
      by (vm_compute; reflexivity).
    unfold le, SFleb in H1. unfold lt, SFltb in H2.
    rewrite (compare_value _ _ _ _ B1 Hv) in H1.
    rewrite (compare_value _ _ _ _ Hv B53) in H2.
    change (pow2 (-52)) with 1 in H1. change (pow2 (- -52)) with (2 ^ 52) in H1.
    change (pow2 1) with 2 in H2. change (pow2 (Z.opp 1)) with 1 in H2.
    change (Zpos 4503599627370496) with (2 ^ 52) in H1, H2.
    change (2 ^ 53) with (2 ^ 52 * 2).
    assert (0 < 2 ^ 52) by reflexivity.
    pose proof (pow2_pos (- E)). pose proof (pow2_pos E).
    split.
    + destruct (Z.compare_spec (2 ^ 52 * 1 * pow2 (- E)) (Zpos M * pow2 E * 2 ^ 52));
        try discriminate; nia.
    + destruct (Z.compare_spec (Zpos M * pow2 E * 1) (2 ^ 52 * 2 * pow2 (- E)));
        try discriminate; nia.
Qed.
End RetryBounds.

Section Unbounded.
Import JsNumber.
Local Open Scope Z_scope.
Context {W T : Type}.
Variable fn : Async W T.
Variable sleep : number -> W -> W.
Variable delay : number.
Hypothesis always_throws : forall w, exists e w1, fn w = (Throw e, w1).

Lemma counter_stuck :
  add (ofRatio false 9007199254740992 1) one = ofRatio false 9007199254740992 1.
Proof. vm_compute. reflexivity. Qed.

(** From [2 ^ 53] on [attempt++] leaves the counter as it is: with
    [maxAttempts] there, and a function that always throws, the loop
    has not ended after any number of calls. *)
Lemma retryFrom_never_settles (fuel : nat) :
  forall (k : positive) lastError w,
    Zpos k <= 2 ^ 53 ->
    Helpers.retryFrom fn sleep (ofDecimal false 9007199254740992 0) delay fuel
      (ofRatio false k 1) lastError w = None.
Proof.
  assert (B53 : bounded prec emax 4503599627370496 1 = true)
    by (vm_compute; reflexivity).
  rewrite two_53_value.
  induction fuel as [|fuel IH]; intros k lastError w Hk;
    rewrite retryFrom_unfold, (le_counter 4503599627370496 1 B53 k Hk);
    change (pow2 (Z.opp 1)) with 1; change (Zpos 4503599627370496 * pow2 1) with (2 ^ 53);
    (replace (Zpos k * 1 <=? 2 ^ 53) with true by (symmetry; apply Z.leb_le; lia));
    [reflexivity|].
  destruct (always_throws w) as (e & w1 & ->).
  destruct (Z.eq_dec (Zpos k) (2 ^ 53)) as [Hmax|Hlow].
  - assert (Hk' : k = 9007199254740992%positive) by (apply Pos2Z.inj; exact Hmax).
    subst k. rewrite counter_stuck. apply IH. exact Hk.
  - rewrite counter_step by lia. apply IH. rewrite Pos2Z.inj_add. lia.
Qed.
End Unbounded.

(** C7 as stated fails in three places.  A function that rejects with
    [undefined] makes [retry] reject with a new Error, not with what
    the last attempt threw.  With [maxAttempts] 2.5 there are two
    attempts and the delay is slept after the second, failed, one.
    With [maxAttempts] [2 ^ 53] and a function that always rejects the
    counter stops growing at [2 ^ 53]: whatever the number of calls
    allowed, the loop has not ended. *)
Lemma retry_falsy_fractional_unbounded :
  Helpers.retry (loggedFn (failing (Thrown Undefined))) (loggedSleep (fun _ w => w))
      JsNumber.one Helpers.defaultDelay 1 (0%nat, [])
    = Some (Throw (Error "Retry failed"), (1%nat, [Called (Throw (Thrown Undefined))]))
  /\ Helpers.retry (loggedFn (failing (Error "no"))) (loggedSleep (fun _ w => w))
       twoAndAHalf Helpers.defaultDelay 2 (0%nat, [])
     = Some (Throw (Error "no"),
             (2%nat, [Called (Throw (Error "no")); Slept Helpers.defaultDelay;
                      Called (Throw (Error "no")); Slept Helpers.defaultDelay]))
  /\ (forall fuel,
        Helpers.retry (failing (Error "no")) (fun _ w => w)
          (JsNumber.ofDecimal false 9007199254740992 0) Helpers.defaultDelay fuel 0%nat
        = None).
Proof.
  split; [vm_compute; reflexivity|]. split; [vm_compute; reflexivity|].
  intros fuel. unfold Helpers.retry.
  change JsNumber.one with (JsNumber.ofRatio false 1 1).
  apply retryFrom_never_settles.
  - intros w. exists (Error "no"), (S w). reflexivity.
  - change (2 ^ 53)%Z with 9007199254740992%Z. lia.
Qed.

(** C7, amended: for every function [fn], every [maxAttempts] from 1
    on and below [2 ^ 53] and every [delay], [retry] calls [fn] at most
    [floor maxAttempts] times, every call but the last one having
    thrown; it fulfils with the result of the first call that fulfils,
    and it rejects only when [floor maxAttempts] calls have thrown:
    with what the last of them threw when that is truthy, and with a
    new Error [Retry failed] in its place otherwise.  It sleeps [delay]
    between two consecutive calls, and once more after the last failed
    call when [maxAttempts] is not an integer; for an integer
    [maxAttempts] it sleeps nowhere else.  Fuel for [floor maxAttempts]
    calls is enough, and the run on the logged world and the plain run
    settle alike. *)
Theorem retry_attempts {W T} (fn : Async W T) (sleep : JsNumber.number -> W -> W)
  (maxAttempts delay : JsNumber.number) (w : W) :
  valid_binary JsNumber.prec JsNumber.emax maxAttempts = true ->
  JsNumber.le JsNumber.one maxAttempts = true ->
  JsNumber.lt maxAttempts (JsNumber.ofDecimal false 9007199254740992 0) = true ->
  exists (errors : list Exception) (last : Result T) (w' : W),
    (forall fuel, (JsNumber.floor maxAttempts <= Z.of_nat fuel)%Z ->
       Helpers.retry (loggedFn fn) (loggedSleep sleep) maxAttempts delay fuel (w, [])
         = Some (retrySettles last,
                 (w', (attemptsLog delay (map Throw errors ++ [last])
                         ++ sleptLast maxAttempts delay last)%list))
       /\ Helpers.retry fn sleep maxAttempts delay fuel w = Some (retrySettles last, w'))
    /\ (Z.of_nat (List.length errors) + 1 <= JsNumber.floor maxAttempts)%Z
    /\ (forall e, last = Throw e ->
                  (Z.of_nat (List.length errors) + 1 = JsNumber.floor maxAttempts)%Z).
Proof.
  intros Hv H1 H2.
  destruct (maxAttempts_shape maxAttempts Hv H1 H2) as (M & E & -> & B & Hone & Hmax).
  rewrite (floor_finite M E).
  pose proof (attempts_from_one M E Hone Hmax) as [Hn1 Hn2].
  destruct (retryFrom_attempts fn sleep delay M E B Hone Hmax
              (Z.to_nat (Zpos M * JsNumber.pow2 E / JsNumber.pow2 (- E) - 1))
              1%positive (Thrown Undefined) w [] ltac:(lia) eq_refl)
    as (errors & last & w' & Hrun & Hcount & Hlast).
  exists errors, last, w'. split; [|split].
  - intros fuel Hfuel. unfold Helpers.retry.
    change JsNumber.one with (JsNumber.ofRatio false 1 1).
    apply Hrun. lia.
  - lia.
  - intros e He. specialize (Hlast e He). lia.
Qed.

Lemma retry_attempts_witness :
  exists (errors : list Exception) (last : Result nat) (w' : nat),
    (forall fuel, (JsNumber.floor Helpers.defaultMaxAttempts <= Z.of_nat fuel)%Z ->
       Helpers.retry (loggedFn flaky) (loggedSleep (fun _ w => w))
           Helpers.defaultMaxAttempts Helpers.defaultDelay fuel (0%nat, [])
         = Some (retrySettles last,
                 (w', (attemptsLog Helpers.defaultDelay (map Throw errors ++ [last])
                         ++ sleptLast Helpers.defaultMaxAttempts Helpers.defaultDelay
                              last)%list))
       /\ Helpers.retry flaky (fun _ w => w)
            Helpers.defaultMaxAttempts Helpers.defaultDelay fuel 0%nat
          = Some (retrySettles last, w'))
    /\ (Z.of_nat (List.length errors) + 1 <= JsNumber.floor Helpers.defaultMaxAttempts)%Z
    /\ (forall e, last = Throw e ->
          (Z.of_nat (List.length errors) + 1
           = JsNumber.floor Helpers.defaultMaxAttempts)%Z).
Proof.
  apply (retry_attempts flaky (fun _ w => w)
           Helpers.defaultMaxAttempts Helpers.defaultDelay 0%nat);
    vm_compute; reflexivity.
Defined.

(** ** Retrying without an attempt *)

(** X16: with [maxAttempts] below 1, or NaN, [retry] never calls [fn]
    and never sleeps (the log stays empty): it rejects at once with
    the error [Retry failed]. *)
Theorem retry_without_attempts {W T} (fn : Async W T)
  (sleep : JsNumber.number -> W -> W) (maxAttempts delay : JsNumber.number)
  (fuel : nat) (w : W) :
  JsNumber.lt maxAttempts JsNumber.one = true \/ JsNumber.isNaN maxAttempts = true ->
  Helpers.retry fn sleep maxAttempts delay fuel w
    = Some (Throw (Error "Retry failed"), w)
  /\ Helpers.retry (loggedFn fn) (loggedSleep sleep) maxAttempts delay fuel (w, [])
     = Some (Throw (Error "Retry failed"), (w, [])).
Proof.
  intros Hmax.
  assert (Hle : JsNumber.le JsNumber.one maxAttempts = false).
  { unfold JsNumber.le, JsNumber.lt, SFleb, SFltb in *.
    destruct Hmax as [Hlt|Hnan].
    - rewrite (SFcompare_swap maxAttempts JsNumber.one).
      destruct (SFcompare maxAttempts JsNumber.one) as [[]|]; try discriminate.
      reflexivity.
    - destruct maxAttempts; try discriminate.
      rewrite one_finite. reflexivity. }
  unfold Helpers.retry. rewrite !retryFrom_unfold, Hle. split; reflexivity.
Qed.

Lemma retry_without_attempts_witness :
  Helpers.retry flaky (fun _ w => w) JsNumber.zero Helpers.defaultDelay 5 0%nat
    = Some (Throw (Error "Retry failed"), 0%nat)
  /\ Helpers.retry (loggedFn flaky) (loggedSleep (fun _ w => w))
       JsNumber.zero Helpers.defaultDelay 5 (0%nat, [])
     = Some (Throw (Error "Retry failed"), (0%nat, [])).
Proof.
  apply (retry_without_attempts flaky (fun _ w => w)
           JsNumber.zero Helpers.defaultDelay 5 0%nat).
  left. vm_compute. reflexivity.
Defined.

(** ** Operations by index *)

Section Positions.
Import JsNumber.
Local Open Scope Z_scope.

Lemma ofNat_succ (n : nat) : ofNat (S n) = ofRatio false (Pos.of_succ_nat n) 1.
Proof. reflexivity. Qed.

Lemma zero_lt_count (p : positive) : lt zero (ofRatio false p 1) = true.
Proof.
  assert (H : le (ofRatio false 1 1) (ofRatio false p 1) = true)
    by (apply ofRatio_le; lia).
  change (ofRatio false 1 1) with one in H. rewrite one_finite in H.
  destruct (ofRatio_shape p 1) as [Hz|[Hi|(M & E & Hf)]].
  - rewrite Hz in H. discriminate.
  - rewrite Hi. reflexivity.
  - rewrite Hf. reflexivity.
Qed.

(** A Number that is not NaN and not below zero, yet below a length,
    and an integer: it is a place of the array. *)
Lemma place_inside (index : number) (n : nat) :
  valid_binary prec emax index = true ->
  Z.of_nat n < 2 ^ 32 ->
  ge index zero = true -> lt index (ofNat n) = true ->
  0 <= floor index < Z.of_nat n.
Proof.
  intros Hv Hn Hge Hlt.
  destruct n as [|n].
  - change (ofNat 0) with zero in Hlt.
    destruct index as [s|s| |s M E]; try discriminate; destruct s; discriminate.
  - rewrite ofNat_succ in Hlt.
    destruct index as [s|s| |s M E]; try discriminate.
    + change (floor (S754_zero s)) with 0. lia.
    + destruct s; [discriminate|].
      destruct (ofRatio_shape (Pos.of_succ_nat n) 1) as [Hz|[Hi|(M & E & Hf)]];
        rewrite ?Hz, ?Hi, ?Hf in Hlt; discriminate.
    + destruct s; [discriminate|].
      assert (Hp : Zpos (Pos.of_succ_nat n) <= 2 ^ 53).
      { rewrite Zpos_P_of_succ_nat, <- Nat2Z.inj_succ.
        change (2 ^ 53) with 9007199254740992.
        change (2 ^ 32) with 4294967296 in Hn. lia. }
      unfold lt, SFltb in Hlt.
      rewrite (compare_integer_r _ M E Hp Hv) in Hlt.
      destruct (Z.compare_spec (Zpos M * pow2 E) (Zpos (Pos.of_succ_nat n) * pow2 (- E)))
        as [Hc|Hc|Hc]; try discriminate.
      rewrite (floor_finite M E).
      pose proof (pow2_pos (- E)). pose proof (pow2_pos E).
      rewrite Zpos_P_of_succ_nat, <- Nat2Z.inj_succ in Hc.
      split.
      * apply Z.div_pos; lia.
      * apply Z.div_lt_upper_bound; lia.
Qed.
End Positions.

Section ByIndex.
Context {W : Type} (E : Engine W).

Lemma outside_range (index length : JsNumber.number) :
  JsNumber.isNaN index = true
  \/ JsNumber.lt index JsNumber.zero = true
  \/ JsNumber.le length index = true ->
  (JsNumber.ge index JsNumber.zero && JsNumber.lt index length)%bool = false.
Proof.
  unfold JsNumber.ge, JsNumber.lt, JsNumber.le, SFleb, SFltb.
  intros [Hnan|[Hlow|Hhigh]].
  - destruct index; try discriminate. reflexivity.
  - rewrite (SFcompare_swap index JsNumber.zero).
    destruct (SFcompare index JsNumber.zero) as [[]|]; try discriminate. reflexivity.
  - rewrite (SFcompare_swap length index).
    destruct (SFcompare length index) as [[]|]; try discriminate;
      apply andb_false_r.
Qed.

Lemma by_index_contract (itemsSelector buttonSelector outOfRange : string)
  (index : JsNumber.number) (w : W) :
  ByIndexContract E itemsSelector buttonSelector outOfRange
    (items <- query (Playwright.all E (PageLocator itemsSelector)) ;;
     if (JsNumber.ge index JsNumber.zero && JsNumber.lt index (JsArray.length items))%bool
     then match JsArray.get items index with
          | Some item => Playwright.click E (SubLocator item buttonSelector)
          | None =>
              throw (TypeError "Cannot read properties of undefined (reading 'locator')")
          end
     else throw (Error outOfRange)) index w.
Proof.
  intros items Hall. run. rewrite Hall. split; [|split].
  - intros Hout. now rewrite (outside_range index (JsArray.length items) Hout).
  - intros Hv Hlen Hge Hlt Hint.
    pose proof (place_inside index (List.length items) Hv Hlen Hge Hlt) as Hplace.
    split; [exact Hplace|].
    destruct (nth_error items (Z.to_nat (JsNumber.floor index))) as [item|] eqn:Hnth.
    + exists item. split; [reflexivity|].
      rewrite Hge, Hlt. unfold JsArray.get. rewrite Hint.
      replace (0 <=? JsNumber.floor index)%Z with true
        by (symmetry; apply Z.leb_le; lia).
      cbn [andb]. now rewrite Hnth.
    + apply nth_error_None in Hnth. lia.
  - intros Hge Hlt Hint. rewrite Hge, Hlt. unfold JsArray.get. now rewrite Hint.
Qed.
End ByIndex.

(** X12: [removeItemByIndex] and [addProductToCartByIndex] check their
    index, any Number, against the listed items.  With NaN, an index
    below zero or one from the number of items on, they reject with
    their out-of-range error, which quotes the index as a template
    literal prints a Number, and click nothing.  With an integer
    inside the range they click the button of the item at that place.
    With any other Number inside the range there is no item, and they
    reject with a TypeError and click nothing. *)
Theorem by_index_operations_check_range {W} (E : Engine W) (index : JsNumber.number)
  (w : W) :
  ByIndexContract E CartPage.cartItems CartPage.removeButton
    ("Cart item index " ++ JsNumber.toString index ++ " is out of range")
    (CartPage.removeItemByIndex E index) index w
  /\ ByIndexContract E InventoryPage.productItems InventoryPage.addToCartButton
       ("Product index " ++ JsNumber.toString index ++ " is out of range")
       (InventoryPage.addProductToCartByIndex E index) index w.
Proof.
  split; apply by_index_contract.
Qed.

Lemma by_index_operations_check_range_witness :
  CartPage.removeItemByIndex (Dom.engine Dom.inert) (JsNumber.parseFloat "1e21") cartOfTwo
    = (Throw (Error "Cart item index 1e+21 is out of range"), cartOfTwo)
  /\ InventoryPage.addProductToCartByIndex (Dom.engine Dom.inert)
       (JsNumber.parseFloat "-1") inventoryOfTwo
     = (Throw (Error "Product index -1 is out of range"), inventoryOfTwo)
  /\ (exists item,
        nth_error [NthLocator (PageLocator InventoryPage.productItems) 0;
                   NthLocator (PageLocator InventoryPage.productItems) 1]
          (Z.to_nat (JsNumber.floor (JsNumber.parseFloat "1"))) = Some item
        /\ InventoryPage.addProductToCartByIndex (Dom.engine Dom.inert)
             (JsNumber.parseFloat "1") inventoryOfTwo
           = Playwright.click (Dom.engine Dom.inert)
               (SubLocator item InventoryPage.addToCartButton) inventoryOfTwo)
  /\ InventoryPage.addProductToCartByIndex (Dom.engine Dom.inert)
       (JsNumber.parseFloat "0.5") inventoryOfTwo
     = (Throw (TypeError "Cannot read properties of undefined (reading 'locator')"),
        inventoryOfTwo).
Proof.
  split; [|split; [|split]].
  - apply (proj1 (by_index_operations_check_range (Dom.engine Dom.inert)
                    (JsNumber.parseFloat "1e21") cartOfTwo) _ eq_refl).
    right. right. vm_compute. reflexivity.
  - apply (proj2 (by_index_operations_check_range (Dom.engine Dom.inert)
                    (JsNumber.parseFloat "-1") inventoryOfTwo) _ eq_refl).
    right. left. vm_compute. reflexivity.
  - apply (proj2 (by_index_operations_check_range (Dom.engine Dom.inert)
                    (JsNumber.parseFloat "1") inventoryOfTwo) _ eq_refl);
      vm_compute; reflexivity.
  - apply (proj2 (by_index_operations_check_range (Dom.engine Dom.inert)
                    (JsNumber.parseFloat "0.5") inventoryOfTwo) _ eq_refl);
      vm_compute; reflexivity.
Defined.

Lemma toString_samples :
  map (fun text => JsNumber.toString (JsNumber.parseFloat text))
    ["0"; "-0"; "NaN"; "-Infinity"; "1"; "-1"; "2.5"; "1e21"; "-1e21"; "1e-7";
     "0.000001"; "123456789012345680000"; "0.1"; "5e-324"; "1.7976931348623157e308";
     "9007199254740992"; "123.456"; "9.5e22"]
  = ["0"; "0"; "NaN"; "-Infinity"; "1"; "-1"; "2.5"; "1e+21"; "-1e+21"; "1e-7";
     "0.000001"; "123456789012345680000"; "0.1"; "5e-324"; "1.7976931348623157e+308";
     "9007199254740992"; "123.456"; "9.5e+22"]
  /\ JsNumber.toString
       (JsNumber.add (JsNumber.parseFloat "0.1") (JsNumber.parseFloat "0.2"))
     = "0.30000000000000004".
Proof. split; vm_compute; reflexivity. Qed.

(** ** The cart that shrinks *)

Lemma shrinkingCart_decreases : RemovalDecreases shrinkingCart (fun _ => True).
Proof.
  intros w n _ Hcount Hpos. inversion Hcount; subst.
  destruct n as [|n]; [lia|].
  exists n, n, n. repeat split; [|lia].
  unfold CartPage.removeItemByIndex. run.
  cbn [Playwright.all shrinkingCart]. unfold JsArray.length.
  rewrite length_map, length_seq, ofNat_succ, zero_lt_count.
  reflexivity.
Qed.

Lemma removeAllItems_terminates_empty_witness :
  exists k w',
    (k <= 3)%nat
    /\ Iterations shrinkingCart 3%nat k w'
    /\ CartPage.getCartItemCount shrinkingCart w' = (Ok 0%nat, w')
    /\ forall fuel, (3 <= fuel)%nat ->
                    CartPage.removeAllItems shrinkingCart fuel 3%nat = Some (Ok tt, w').
Proof.
  exact (removeAllItems_terminates_empty shrinkingCart (fun _ => True) 3%nat 3%nat
           shrinkingCart_decreases I eq_refl).
Defined.
